(** * WWT plan compiler: TOON notation, plan validator, Grafana generator

    A shallow embedding of the Python sources

      - [src/toon/parser.py], [src/toon/serializer.py]
      - [src/compiler/validator.py]
      - [src/grafana/generator.py]

    together with the properties of the natural-language specification
    that concern them.

    Conventions of the embedding.

    - Python [str] values are lists of characters ([text]); a string
      literal ["abc"] in [text_scope] denotes such a list.  The character
      classes ([\w], [\s], [str.isspace], [str.upper], [str.lower]) are
      the ones Python uses on code points below 128; a statement that
      depends on them is made for ASCII text ([isascii]).
    - Python values that the notation can express are the trees [pyval];
      dictionaries keep insertion order and are association lists.
    - Exceptions are values of [exn]; a function that may raise returns a
      [result].
    - [while] loops and the recursion of the parser are driven by a fuel
      argument; the entry points supply the length of the text, which is
      shown to be enough ([parse_toon_total]).
    - The calls of [re] are run by a small backtracking matcher ([Re])
      with Python's priorities: leftmost start, greedy repetition, the
      alternatives of [?] tried in order. *)

From Stdlib Require Import Ascii String ZArith List Lia Bool DecimalString
  DecimalPos Sorted.
From stdpp Require Import base option list gmap.

#[local] Open Scope Z_scope.
#[local] Open Scope nat_scope.

(* ================================================================== *)
(** * Python strings *)
(* ================================================================== *)

Definition text := list ascii.

Inductive text_literal := tnil | tcons (a : ascii) (t : text_literal).

Fixpoint literal_of_bytes (l : list Byte.byte) : text_literal :=
  match l with
  | [] => tnil
  | b :: l => tcons (ascii_of_byte b) (literal_of_bytes l)
  end.

Fixpoint bytes_of_literal (t : text_literal) : list Byte.byte :=
  match t with
  | tnil => []
  | tcons a t => byte_of_ascii a :: bytes_of_literal t
  end.

Declare Scope text_scope.
Delimit Scope text_scope with text.
#[warnings="-via-type-remapping,-via-type-mismatch"]
String Notation text literal_of_bytes bytes_of_literal
  (via text_literal mapping [[nil] => tnil, [cons] => tcons]) : text_scope.
#[local] Open Scope text_scope.

Module Py.

Definition code (c : ascii) : N := N_of_ascii c.

Definition in_range (lo hi : N) (c : ascii) : bool :=
  (lo <=? code c)%N && (code c <=? hi)%N.

(** [str.isspace], also the class [\s] of [re] on [str] patterns:
    TAB, LF, VT, FF, CR, the separators FS GS RS US, and the space. *)
Definition is_space (c : ascii) : bool :=
  in_range 9 13 c || in_range 28 31 c || (code c =? 32)%N.

(** Membership in the literal [" \t\n\r"] used by the hand-written
    scanning loops. *)
Definition is_blank (c : ascii) : bool :=
  (code c =? 32)%N || (code c =? 9)%N || (code c =? 10)%N || (code c =? 13)%N.

(** Membership in [" \t\n\r,"]. *)
Definition is_blank_or_comma (c : ascii) : bool :=
  is_blank c || (code c =? 44)%N.

Definition is_digit (c : ascii) : bool := in_range 48 57 c.
Definition is_upper (c : ascii) : bool := in_range 65 90 c.
Definition is_lower (c : ascii) : bool := in_range 97 122 c.

(** The class [\w]. *)
Definition is_word (c : ascii) : bool :=
  is_digit c || is_upper c || is_lower c || (code c =? 95)%N.

(** [s.isascii()] *)
Definition is_ascii (c : ascii) : bool := (code c <? 128)%N.
Definition isascii (s : text) : bool := forallb is_ascii s.

Definition lower_char (c : ascii) : ascii :=
  if is_upper c then ascii_of_N (code c + 32) else c.
Definition upper_char (c : ascii) : ascii :=
  if is_lower c then ascii_of_N (code c - 32) else c.

Definition lower (s : text) : text := map lower_char s.
Definition upper (s : text) : text := map upper_char s.

Definition char_eqb (a b : ascii) : bool := Ascii.eqb a b.

Fixpoint text_eqb (a b : text) : bool :=
  match a, b with
  | [], [] => true
  | x :: a, y :: b => char_eqb x y && text_eqb a b
  | _, _ => false
  end.

(** [s.startswith(p)] *)
Fixpoint startswith (p s : text) : bool :=
  match p, s with
  | [], _ => true
  | x :: p, y :: s => char_eqb x y && startswith p s
  | _ :: _, [] => false
  end.

(** [s.endswith(p)] *)
Definition endswith (p s : text) : bool :=
  startswith (rev p) (rev s).

(** [sub in s] *)
Fixpoint contains (sub s : text) : bool :=
  startswith sub s ||
  match s with
  | [] => false
  | _ :: s' => contains sub s'
  end.

Fixpoint lstrip_with (p : ascii -> bool) (s : text) : text :=
  match s with
  | c :: s' => if p c then lstrip_with p s' else s
  | [] => []
  end.

Definition rstrip_with (p : ascii -> bool) (s : text) : text :=
  rev (lstrip_with p (rev s)).

(** [s.strip()] *)
Definition strip (s : text) : text :=
  rstrip_with is_space (lstrip_with is_space s).

(** [s.replace(old, new)] for a non-empty [old]: occurrences are
    replaced from the left, without overlap. *)
Fixpoint replace_fuel (n : nat) (old new s : text) : text :=
  match n with
  | O => s
  | S n =>
      match s with
      | [] => []
      | c :: s' =>
          if startswith old s
          then new ++ replace_fuel n old new (drop (length old) s)
          else c :: replace_fuel n old new s'
      end
  end.

Definition replace (old new s : text) : text :=
  replace_fuel (length s) old new s.

(** [sep.join(parts)] *)
Fixpoint join (sep : text) (parts : list text) : text :=
  match parts with
  | [] => []
  | [p] => p
  | p :: ps => p ++ sep ++ join sep ps
  end.

(** [" " * n] *)
Definition spaces (n : nat) : text := repeat " "%char n.

(** [str(n)] for an [int]. *)
Definition text_of_Z (z : Z) : text :=
  list_ascii_of_string (NilZero.string_of_int (Z.to_int z)).
Definition text_of_nat (n : nat) : text := text_of_Z (Z.of_nat n).

(** ** Exceptions *)

Inductive parse_error_kind :=
| UnmatchedBrace | UnmatchedBracket | UnterminatedString.

Inductive exn :=
| ToonParseError (kind : parse_error_kind) (position : nat)
| ValidationError (msg : text)
| TypeMismatch        (* TypeError or AttributeError on an ill-typed value *)
| OutOfFuel.

Inductive result (A : Type) :=
| Ok (a : A)
| Raise (e : exn).
Arguments Ok {A} a.
Arguments Raise {A} e.

Definition bind {A B} (r : result A) (k : A -> result B) : result B :=
  match r with
  | Ok a => k a
  | Raise e => Raise e
  end.

Definition is_ok {A} (r : result A) : bool :=
  match r with Ok _ => true | Raise _ => false end.

(** The text of [str(e)]. *)
Definition message (e : exn) : text :=
  match e with
  | ToonParseError UnmatchedBrace p => "Unmatched brace at position " ++ text_of_nat p
  | ToonParseError UnmatchedBracket p => "Unmatched bracket at position " ++ text_of_nat p
  | ToonParseError UnterminatedString p => "Unterminated string at position " ++ text_of_nat p
  | ValidationError m => m
  | TypeMismatch => "TypeError"
  | OutOfFuel => "RecursionError"
  end.

(** ** Values *)

(** A [float] is kept as the literal it was read from. *)
#[warnings="-register-all"] Inductive pyval :=
| VNone
| VBool (b : bool)
| VInt (z : Z)
| VFloat (literal : text)
| VStr (s : text)
| VList (items : list pyval)
| VDict (items : list (text * pyval)).

Definition dict := list (text * pyval).

(** [d.get(k)] *)
Fixpoint dict_get (k : text) (d : dict) : option pyval :=
  match d with
  | [] => None
  | (k', v) :: d' => if text_eqb k k' then Some v else dict_get k d'
  end.

(** [d.get(k, default)] *)
Definition dict_get_default (k : text) (default : pyval) (d : dict) : pyval :=
  match dict_get k d with
  | Some v => v
  | None => default
  end.

(** [d[k] = v]: an existing key keeps its place, a new key goes last. *)
Fixpoint dict_set (d : dict) (k : text) (v : pyval) : dict :=
  match d with
  | [] => [(k, v)]
  | (k', v') :: d' =>
      if text_eqb k k' then (k', v) :: d' else (k', v') :: dict_set d' k v
  end.

(** The dictionary left by [d.pop(k, None)]. *)
Definition dict_remove (k : text) (d : dict) : dict :=
  List.filter (fun kv => negb (text_eqb k (fst kv))) d.

(** Whether a float literal denotes zero: it is not inf or nan, and
    every digit of its mantissa is 0. *)
Fixpoint mantissa_is_zero (s : text) : bool :=
  match s with
  | [] => true
  | c :: s' =>
      if char_eqb (lower_char c) "e"%char then true
      else if char_eqb (lower_char c) "i"%char || char_eqb (lower_char c) "n"%char
      then false
      else if in_range 49 57 c then false
      else mantissa_is_zero s'
  end.

(** Truth value of a Python object. *)
Definition truthy (v : pyval) : bool :=
  match v with
  | VNone => false
  | VBool b => b
  | VInt z => negb (z =? 0)%Z
  | VFloat literal => negb (mantissa_is_zero literal)
  | VStr s => match s with [] => false | _ => true end
  | VList l => match l with [] => false | _ => true end
  | VDict d => match d with [] => false | _ => true end
  end.

(** [v == s] for a string literal [s]. *)
Definition eq_str (v : pyval) (s : text) : bool :=
  match v with
  | VStr t => text_eqb t s
  | _ => false
  end.

(** [s in l] for a list (or set) of strings *)
Definition text_in (s : text) (l : list text) : bool := existsb (text_eqb s) l.

(** [not d.get(k)] *)
Definition missing (k : text) (d : dict) : bool :=
  match dict_get k d with
  | Some v => negb (truthy v)
  | None => true
  end.

(** [for x in v]: the items a [for] loop sees, for a list, a string (its
    characters) or a dictionary (its keys). *)
Definition py_iter (v : pyval) : result (list pyval) :=
  match v with
  | VList l => Ok l
  | VStr s => Ok (map (fun c => VStr [c]) s)
  | VDict d => Ok (map (fun kv => VStr (fst kv)) d)
  | _ => Raise TypeMismatch
  end.

End Py.
Import Py.

(* ================================================================== *)
(** * The fragment of [re] used by the sources *)
(* ================================================================== *)

Module Re.

(** Character classes. *)
Inductive cclass :=
| CWord                   (* \w *)
| CSpace                  (* \s *)
| CAny                    (* . under DOTALL *)
| COneOf (chars : text)   (* the listed characters *)
| CUnion (a b : cclass)
| CNot (a : cclass).      (* [^...] *)

Fixpoint cmatch (cl : cclass) (c : ascii) : bool :=
  match cl with
  | CWord => is_word c
  | CSpace => is_space c
  | CAny => true
  | COneOf chars => existsb (char_eqb c) chars
  | CUnion a b => cmatch a c || cmatch b c
  | CNot a => negb (cmatch a c)
  end.

(** Patterns.  Repetition is only ever applied to a character class in
    the sources, and is greedy. *)
Inductive regex :=
| RLit (s : text)              (* the characters of s, as re.escape(s) *)
| RCls (c : cclass)
| RStar (c : cclass)           (* c* *)
| RPlus (c : cclass)           (* c+ *)
| RSeq (r1 r2 : regex)
| ROpt (r : regex)             (* (...)? *)
| RGroup (n : nat) (r : regex) (* capturing group number n *)
| RBoundary                    (* \b *)
| REnd.                        (* $ *)

Definition groups := list (nat * text).

Fixpoint group (g : groups) (n : nat) : option text :=
  match g with
  | [] => None
  | (m, t) :: g' => if Nat.eqb n m then Some t else group g' n
  end.

(** [m.group(n) or ''] *)
Definition group_or_empty (g : groups) (n : nat) : text :=
  match group g n with Some t => t | None => [] end.

Definition set_group (n : nat) (t : text) (g : groups) : groups := (n, t) :: g.

Definition is_word_opt (c : option ascii) : bool :=
  match c with Some c => is_word c | None => false end.

(** [\b]: exactly one of the two neighbours is a word character. *)
Definition boundary (prev next : option ascii) : bool :=
  xorb (is_word_opt prev) (is_word_opt next).

Section Matcher.
Context {A : Type} (ignorecase : bool).

Definition char_match (x y : ascii) : bool :=
  if ignorecase then char_eqb (lower_char x) (lower_char y) else char_eqb x y.

Definition cls_match (c : cclass) (x : ascii) : bool :=
  if ignorecase
  then cmatch c x || cmatch c (lower_char x) || cmatch c (upper_char x)
  else cmatch c x.

Fixpoint lit (l : text) (prev : option ascii) (s : text) : option (option ascii * text) :=
  match l, s with
  | [], _ => Some (prev, s)
  | x :: l', y :: s' => if char_match x y then lit l' (Some y) s' else None
  | _ :: _, [] => None
  end.

(** Greedy [c*]: the longest run first, then shorter ones. *)
Fixpoint star (c : cclass) (prev : option ascii) (s : text)
    (k : option ascii -> text -> option A) : option A :=
  match s with
  | x :: s' =>
      if cls_match c x
      then match star c (Some x) s' k with
           | Some r => Some r
           | None => k prev s
           end
      else k prev s
  | [] => k prev s
  end.

(** [run r prev s g k]: match [r] at the front of [s], the character
    before [s] being [prev]; [k] continues with what is left.  [None]
    makes the matcher backtrack. *)
Fixpoint run (r : regex) (prev : option ascii) (s : text) (g : groups)
    (k : option ascii -> text -> groups -> option A) : option A :=
  match r with
  | RLit l =>
      match lit l prev s with
      | Some (p, s') => k p s' g
      | None => None
      end
  | RCls c =>
      match s with
      | x :: s' => if cls_match c x then k (Some x) s' g else None
      | [] => None
      end
  | RStar c => star c prev s (fun p s' => k p s' g)
  | RPlus c =>
      match s with
      | x :: s' =>
          if cls_match c x then star c (Some x) s' (fun p s' => k p s' g) else None
      | [] => None
      end
  | RSeq a b => run a prev s g (fun p s' g' => run b p s' g' k)
  | ROpt a =>
      match run a prev s g k with
      | Some res => Some res
      | None => k prev s g
      end
  | RGroup n a =>
      run a prev s g
        (fun p s' g' => k p s' (set_group n (take (length s - length s') s) g'))
  | RBoundary => if boundary prev (head s) then k prev s g else None
  | REnd =>
      match s with
      | [] => k prev s g
      | [c] => if char_eqb c "010"%char then k prev s g else None
      | _ => None
      end
  end.

End Matcher.

(** A match object: [m.group(0)], the groups, and the input after
    [m.end()]. *)
Record rmatch := { m_text : text; m_groups : groups; m_rest : text }.

Definition m_group (m : rmatch) (n : nat) : option text := group (m_groups m) n.
Definition m_end (m : rmatch) : nat := length (m_text m).

Definition match_at (ic : bool) (r : regex) (prev : option ascii) (s : text)
    : option rmatch :=
  run ic r prev s []
    (fun _ s' g =>
       Some {| m_text := take (length s - length s') s; m_groups := g; m_rest := s' |}).

(** [re.match(r, s)] *)
Definition re_match (ic : bool) (r : regex) (s : text) : option rmatch :=
  match_at ic r None s.

(** [re.search(r, s)]: the first start position that matches, with the
    position. *)
Fixpoint search_from (ic : bool) (r : regex) (prev : option ascii) (start : nat)
    (s : text) : option (nat * rmatch) :=
  match match_at ic r prev s with
  | Some m => Some (start, m)
  | None =>
      match s with
      | [] => None
      | c :: s' => search_from ic r (Some c) (S start) s'
      end
  end.

Definition re_search (ic : bool) (r : regex) (s : text) : option (nat * rmatch) :=
  search_from ic r None 0 s.

(** [re.sub(r, repl, s, count=1)] with a function [repl]. *)
Definition re_sub_first (ic : bool) (r : regex) (repl : rmatch -> text) (s : text)
    : text :=
  match re_search ic r s with
  | Some (i, m) => take i s ++ repl m ++ m_rest m
  | None => s
  end.

(** ** Every match

    [re.findall] and [re.sub] scan the text from left to right for
    matches that do not overlap.  The patterns they are used with match
    at least one character, so each step moves on, and the length of the
    text is fuel enough. *)

(** The matches of [r] in [s], the character before [s] being [prev],
    each with the text between the match before it and itself. *)
Fixpoint matches_from (n : nat) (ic : bool) (r : regex) (prev : option ascii)
    (s : text) : list (text * rmatch) :=
  match n with
  | O => []
  | S n =>
      match search_from ic r prev 0 s with
      | None => []
      | Some (i, m) =>
          let skipped := take i s in
          let prev' :=
            match last (skipped ++ m_text m) with
            | Some c => Some c
            | None => prev
            end in
          (skipped, m) :: matches_from n ic r prev' (m_rest m)
      end
  end.

Definition re_matches (ic : bool) (r : regex) (s : text) : list (text * rmatch) :=
  matches_from (S (length s)) ic r None s.

(** What is left of [s] after the last match. *)
Definition after_matches (s : text) (ms : list (text * rmatch)) : text :=
  match last ms with
  | Some (_, m) => m_rest m
  | None => s
  end.

(** [re.findall(r, s)] for a pattern with one group *)
Definition re_findall (ic : bool) (r : regex) (s : text) : list text :=
  map (fun sm => group_or_empty (m_groups (snd sm)) 1) (re_matches ic r s).

(** [re.sub(r, repl, s)] for a string [repl] without group references *)
Definition re_sub (ic : bool) (r : regex) (repl : text) (s : text) : text :=
  let ms := re_matches ic r s in
  concat (map (fun sm => fst sm ++ repl) ms) ++ after_matches s ms.

End Re.

(* ================================================================== *)
(** * compiler/validator.py *)
(* ================================================================== *)

Module Validator.
Import Re.

Definition WRITE_KEYWORDS : list text :=
  [ "INSERT"; "UPDATE"; "DELETE"; "DROP"; "CREATE"; "ALTER"; "TRUNCATE";
    "REPLACE"; "MERGE" ].

(** [r"\b" + keyword + r"\b"] *)
Definition keyword_pattern (keyword : text) : regex :=
  RSeq RBoundary (RSeq (RLit keyword) RBoundary).

(** The [for] loop of [validate_sql_readonly]. *)
Fixpoint check_keywords (keywords : list text) (sql_upper : text) : result unit :=
  match keywords with
  | [] => Ok tt
  | keyword :: rest =>
      match re_search false (keyword_pattern keyword) sql_upper with
      | Some _ =>
          Raise (ValidationError
                   ("SQL contains forbidden keyword: " ++ keyword
                    ++ ". Only SELECT queries are allowed."))
      | None => check_keywords rest sql_upper
      end
  end.

Definition validate_sql_readonly (sql : text) : result unit :=
  let sql_upper := upper sql in
  check_keywords WRITE_KEYWORDS sql_upper.

(** The set literal of [validate_visualization], in the order it is
    written (the order in which Python iterates a set, and so the order
    of the names in the error message, is not fixed by the language). *)
Definition valid_types : list text :=
  [ "bar"; "line"; "stat"; "table"; "pie"; "gauge" ].

Definition validate_visualization (viz : pyval) (sql : text) : result unit :=
  match viz with
  | VDict viz =>
      match dict_get_default "type" (VStr []) viz with
      | VStr t =>
          let viz_type := lower t in
          if (match viz_type with [] => false | _ => true end)
             && negb (text_in viz_type valid_types)
          then Raise (ValidationError
                        ("Invalid visualization type: " ++ viz_type
                         ++ ". Valid types: " ++ join ", " valid_types))
          else if text_in viz_type ["bar"; "line"; "pie"]
                  && missing "x" viz && missing "y" viz
          then Raise (ValidationError
                        (viz_type
                         ++ " chart requires x and/or y axis column specifications"))
          else Ok tt
      | _ => Raise TypeMismatch
      end
  | _ => Raise TypeMismatch
  end.

End Validator.

(* ================================================================== *)
(** * toon/parser.py *)
(* ================================================================== *)

Module Toon.
Import Re.

Definition backslash : ascii := ascii_of_N 92.
Definition dquote : ascii := ascii_of_N 34.
Definition squote : ascii := "'"%char.

Definition nonempty {A} (l : list A) : bool :=
  match l with [] => false | _ => true end.

(** ** Numbers *)

Definition digit_value (c : ascii) : Z := Z.of_N (code c) - 48.

(** [digit (_? digit)*]; the value read so far is [acc]. *)
Fixpoint int_digits (s : text) (acc : Z) (after_digit : bool) : option Z :=
  match s with
  | [] => if after_digit then Some acc else None
  | c :: s' =>
      if is_digit c then int_digits s' (10 * acc + digit_value c)%Z true
      else if char_eqb c "_"%char && after_digit
      then match s' with
           | d :: _ => if is_digit d then int_digits s' acc false else None
           | [] => None
           end
      else None
  end.

(** [int(raw)]; [None] stands for [ValueError]. *)
Definition py_int (raw : text) : option Z :=
  match strip raw with
  | "+"%char :: s => int_digits s 0%Z false
  | "-"%char :: s => option_map Z.opp (int_digits s 0%Z false)
  | s => int_digits s 0%Z false
  end.

(** Skips [digit (_? digit)*]; [None] when there is no digit. *)
Fixpoint skip_digits (s : text) (after_digit : bool) : option text :=
  match s with
  | c :: s' =>
      if is_digit c then skip_digits s' true
      else if char_eqb c "_"%char && after_digit
      then match s' with
           | d :: _ => if is_digit d then skip_digits s' false else Some s
           | [] => Some s
           end
      else if after_digit then Some s else None
  | [] => if after_digit then Some s else None
  end.

Definition skip_sign (s : text) : text :=
  match s with
  | "+"%char :: s' => s'
  | "-"%char :: s' => s'
  | _ => s
  end.

(** The exponent of a float literal, or nothing. *)
Definition float_exponent (s : text) : bool :=
  match s with
  | [] => true
  | c :: s' =>
      if char_eqb (lower_char c) "e"%char
      then match skip_digits (skip_sign s') false with
           | Some [] => true
           | _ => false
           end
      else false
  end.

(** Whether [float(raw)] succeeds: a decimal literal with an optional
    fraction and exponent, or one of inf, infinity, nan. *)
Definition py_float_syntax (raw : text) : bool :=
  let body := skip_sign (strip raw) in
  if text_in (lower body) ["inf"; "infinity"; "nan"] then true
  else
    match skip_digits body false with
    | Some ("."%char :: r) =>
        match skip_digits r false with
        | Some r' => float_exponent r'
        | None => float_exponent r
        end
    | Some r => float_exponent r
    | None =>
        match body with
        | "."%char :: r =>
            match skip_digits r false with
            | Some r' => float_exponent r'
            | None => false
            end
        | _ => false
        end
    end.

Definition _parse_value (raw : text) : pyval :=
  let raw := strip raw in
  if text_eqb raw "true" then VBool true
  else if text_eqb raw "false" then VBool false
  else if text_eqb raw "null" || text_eqb raw "none" then VNone
  else match py_int raw with
       | Some z => VInt z
       | None => if py_float_syntax raw then VFloat raw else VStr raw
       end.

(** ** Delimiter matching *)

(** The loop shared by [_find_matching_brace] and
    [_find_matching_bracket]: [s] is [text[i:]], [in_string] holds
    [string_char] while inside a quoted span. *)
Fixpoint find_matching_from (opening closing : ascii) (s : text) (i : nat)
    (depth : Z) (in_string : option ascii) : option nat :=
  match s with
  | [] => None
  | char :: s' =>
      match in_string with
      | Some string_char =>
          if char_eqb char backslash && nonempty s'
          then match s' with
               | _ :: s'' => find_matching_from opening closing s'' (i + 2) depth in_string
               | [] => None
               end
          else if char_eqb char string_char
          then find_matching_from opening closing s' (i + 1) depth None
          else find_matching_from opening closing s' (i + 1) depth in_string
      | None =>
          if char_eqb char dquote || char_eqb char squote
          then find_matching_from opening closing s' (i + 1) depth (Some char)
          else if char_eqb char opening
          then find_matching_from opening closing s' (i + 1) (depth + 1)%Z None
          else if char_eqb char closing
          then if (depth - 1 =? 0)%Z then Some i
               else find_matching_from opening closing s' (i + 1) (depth - 1)%Z None
          else find_matching_from opening closing s' (i + 1) depth None
      end
  end.

(** [s] is [text[start:]]. *)
Definition find_brace_at (start : nat) (s : text) : result nat :=
  match find_matching_from "{"%char "}"%char s start 0%Z None with
  | Some i => Ok i
  | None => Raise (ToonParseError UnmatchedBrace start)
  end.

Definition find_bracket_at (start : nat) (s : text) : result nat :=
  match find_matching_from "["%char "]"%char s start 0%Z None with
  | Some i => Ok i
  | None => Raise (ToonParseError UnmatchedBracket start)
  end.

Definition _find_matching_brace (t : text) (start : nat) : result nat :=
  find_brace_at start (drop start t).

Definition _find_matching_bracket (t : text) (start : nat) : result nat :=
  find_bracket_at start (drop start t).

(** The loop of [_find_string_end]: [s] is [text[i:]]. *)
Fixpoint string_end_from (quote : ascii) (s : text) (i : nat) : option nat :=
  match s with
  | [] => None
  | c :: s' =>
      if char_eqb c backslash && nonempty s'
      then match s' with
           | _ :: s'' => string_end_from quote s'' (i + 2)
           | [] => None
           end
      else if char_eqb c quote then Some i
      else string_end_from quote s' (i + 1)
  end.

(** [s] is [text[start:]], beginning with the opening quote. *)
Definition find_string_end_at (start : nat) (s : text) (quote : ascii) : result nat :=
  match string_end_from quote (drop 1 s) (start + 1) with
  | Some i => Ok i
  | None => Raise (ToonParseError UnterminatedString start)
  end.

Definition _find_string_end (t : text) (start : nat) (quote : ascii) : result nat :=
  find_string_end_at start (drop start t) quote.

(** ** The patterns of the parser *)

(** [r"@(\w+)\s*\{(.+)\}\s*$"] under [re.DOTALL] *)
Definition document_pattern : regex :=
  RSeq (RLit "@") (RSeq (RGroup 1 (RPlus CWord)) (RSeq (RStar CSpace)
  (RSeq (RLit "{") (RSeq (RGroup 2 (RPlus CAny)) (RSeq (RLit "}")
  (RSeq (RStar CSpace) REnd)))))).

(** [r"(\w+)\s*:"] *)
Definition key_pattern : regex :=
  RSeq (RGroup 1 (RPlus CWord)) (RSeq (RStar CSpace) (RLit ":")).

(** [r"@(\w+)\s*\{"] *)
Definition tag_pattern : regex :=
  RSeq (RLit "@") (RSeq (RGroup 1 (RPlus CWord)) (RSeq (RStar CSpace) (RLit "{"))).

(** [r"([^\s,\}\]]+)"] *)
Definition token_pattern : regex :=
  RGroup 1 (RPlus (CNot (CUnion CSpace (COneOf ",}]")))).

(** ** The recursive descent *)

(** Number of leading characters of [s] that satisfy [p]: what a loop
    [while i < len(text) and text[i] in ...: i += 1] adds to [i]. *)
Fixpoint span (p : ascii -> bool) (s : text) : nat :=
  match s with
  | c :: s' => if p c then S (span p s') else 0
  | [] => 0
  end.

(** The two [replace] calls that undo the escapes in a string quoted
    with [q]: backslash-[q] becomes [q], then a doubled backslash becomes
    one. *)
Definition unescape (q : ascii) (s : text) : text :=
  replace [backslash; backslash] [backslash] (replace [backslash; q] [q] s).

(** The functions below work on a cursor: [s] is what is left of the
    text from index [start] (or [i]) on.

    [value_at parse_object parse_array start s] is the body of
    [_parse_value_at(text, start)]; [parse_object] and [parse_array]
    stand for its calls of [_parse_object_content] and [_parse_array]
    on the inner content of a pair of delimiters. *)
Definition value_at (parse_object : text -> result dict)
    (parse_array : text -> result (list pyval)) (start : nat) (s : text)
    : result (pyval * nat) :=
  (* skip leading whitespace *)
  let ws := span is_blank s in
  let i := start + ws in
  let s := drop ws s in
  match s with
  | [] => Ok (VNone, i - start)
  | char :: _ =>
      let tagged :=
        if char_eqb char "@"%char then re_match false tag_pattern s else None in
      match tagged with
      | Some type_match =>
          let type_name := group_or_empty (m_groups type_match) 1 in
          let brace_start := i + m_end type_match - 1 in
          bind (find_brace_at brace_start (drop (m_end type_match - 1) s))
            (fun brace_end =>
               let inner_content :=
                 take (brace_end - (brace_start + 1)) (drop (m_end type_match) s) in
               bind (parse_object inner_content)
                 (fun obj =>
                    Ok (VDict (dict_set obj "_type" (VStr type_name)),
                        brace_end + 1 - start)))
      | None =>
          if char_eqb char "{"%char then
            bind (find_brace_at i s)
              (fun brace_end =>
                 let inner_content := take (brace_end - (i + 1)) (drop 1 s) in
                 bind (parse_object inner_content)
                   (fun obj => Ok (VDict obj, brace_end + 1 - start)))
          else if char_eqb char "["%char then
            bind (find_bracket_at i s)
              (fun bracket_end =>
                 let inner_content := take (bracket_end - (i + 1)) (drop 1 s) in
                 bind (parse_array inner_content)
                   (fun arr => Ok (VList arr, bracket_end + 1 - start)))
          else if char_eqb char dquote then
            bind (find_string_end_at i s dquote)
              (fun e =>
                 let val := unescape dquote (take (e - (i + 1)) (drop 1 s)) in
                 Ok (VStr val, e + 1 - start))
          else if char_eqb char squote then
            bind (find_string_end_at i s squote)
              (fun e =>
                 let val := unescape squote (take (e - (i + 1)) (drop 1 s)) in
                 Ok (VStr val, e + 1 - start))
          else
            match re_match false token_pattern s with
            | Some value_match =>
                let raw := group_or_empty (m_groups value_match) 1 in
                Ok (_parse_value raw, length raw)
            | None => Ok (VNone, 0)
            end
      end
  end.

(** The recursion, on the fuel [n]:

    - [parse_value_at n start s] is [_parse_value_at(text, start)];
    - [object_loop n i s result] is the [while] loop of
      [_parse_object_content], entered with index [i];
    - [array_loop n i s result] is the [while] loop of [_parse_array]. *)
Fixpoint parse_value_at (n : nat) (start : nat) (s : text) {struct n}
    : result (pyval * nat) :=
  value_at
    (fun content =>
       match n with
       | O => Raise OutOfFuel
       | S n => object_loop n 0 (strip content) []
       end)
    (fun content =>
       match n with
       | O => Raise OutOfFuel
       | S n => array_loop n 0 (strip content) []
       end)
    start s

with object_loop (n : nat) (i : nat) (s : text) (result : dict) {struct n}
    : Py.result dict :=
  (* skip whitespace *)
  let ws := span is_blank s in
  let i := i + ws in
  let s := drop ws s in
  match s with
  | [] => Ok result
  | _ :: s_next =>
      match n with
      | O => Raise OutOfFuel
      | S n =>
          match re_match false key_pattern s with
          | None => object_loop n (i + 1) s_next result
          | Some key_match =>
              let key := group_or_empty (m_groups key_match) 1 in
              let i := i + m_end key_match in
              let s := m_rest key_match in
              (* skip whitespace after the colon *)
              let ws := span is_blank s in
              let i := i + ws in
              let s := drop ws s in
              bind (parse_value_at n i s)
                (fun '(value, consumed) =>
                   let result := dict_set result key value in
                   let i := i + consumed in
                   let s := drop consumed s in
                   (* skip whitespace and optional comma *)
                   let ws := span is_blank_or_comma s in
                   object_loop n (i + ws) (drop ws s) result)
          end
      end
  end

with array_loop (n : nat) (i : nat) (s : text) (result : list pyval) {struct n}
    : Py.result (list pyval) :=
  let ws := span is_blank s in
  let i := i + ws in
  let s := drop ws s in
  match s with
  | [] => Ok result
  | _ :: _ =>
      match n with
      | O => Raise OutOfFuel
      | S n =>
          bind (parse_value_at n i s)
            (fun '(value, consumed) =>
               let result := if 0 <? consumed then result ++ [value] else result in
               let step := if 0 <? consumed then consumed else 1 in
               let i := i + step in
               let s := drop step s in
               let ws := span is_blank_or_comma s in
               array_loop n (i + ws) (drop ws s) result)
      end
  end.

Definition _parse_value_at (t : text) (start : nat) : result (pyval * nat) :=
  parse_value_at (length t) start (drop start t).

Definition _parse_object_content (content : text) : result dict :=
  let content := strip content in
  object_loop (length content) 0 content [].

Definition _parse_array (content : text) : result (list pyval) :=
  let content := strip content in
  array_loop (length content) 0 content [].

Definition parse_toon (t : text) : result dict :=
  let t := strip t in
  match re_match false document_pattern t with
  | Some type_match =>
      let type_name := group_or_empty (m_groups type_match) 1 in
      let content := group_or_empty (m_groups type_match) 2 in
      bind (_parse_object_content content)
        (fun result => Ok (dict_set result "_type" (VStr type_name)))
  | None =>
      if startswith "{" t && endswith "}" t
      then _parse_object_content (drop 1 (take (length t - 1) t))
      else Ok [("value", _parse_value t)]
  end.

End Toon.

(* ================================================================== *)
(** * toon/serializer.py *)
(* ================================================================== *)

Module Serializer.
Import Toon.

Definition newline : ascii := "010"%char.

(** The test of [_serialize_value] that decides whether a string is
    quoted. *)
Definition needs_quotes (value : text) : bool :=
  existsb (char_eqb " "%char) value
  || existsb (char_eqb newline) value
  || existsb (char_eqb ":"%char) value
  || existsb (char_eqb "{"%char) value
  || existsb (char_eqb "}"%char) value
  || existsb (char_eqb "["%char) value
  || existsb (char_eqb "]"%char) value
  || existsb (char_eqb dquote) value
  || text_in value ["true"; "false"; "null"]
  || negb (nonempty value).

(** The two [replace] calls of the quoting branch: every backslash is
    doubled, then every double quote gets a backslash in front. *)
Definition escape (value : text) : text :=
  replace [dquote] [backslash; dquote]
    (replace [backslash] [backslash; backslash] value).

(** [isinstance(item, (dict, list))] *)
Definition is_complex (item : pyval) : bool :=
  match item with
  | VList _ | VDict _ => true
  | _ => false
  end.

(** ** Objects in the store

    [serialize_toon] pops a key from the dictionary it is given, so the
    caller's dictionary is an object in a store, and the containers
    inside it are objects of their own, held by reference. *)

Definition loc := positive.

Inductive hval :=
| HNone
| HBool (b : bool)
| HInt (z : Z)
| HFloat (literal : text)
| HStr (s : text)
| HRef (l : loc).

Inductive hobj :=
| HDict (items : list (text * hval))
| HList (items : list hval).

Abbreviation heap := (gmap loc hobj).

(** [d.get(k)] on a stored dictionary *)
Fixpoint hdict_get (k : text) (d : list (text * hval)) : option hval :=
  match d with
  | [] => None
  | (k', v) :: d' => if text_eqb k k' then Some v else hdict_get k d'
  end.

(** What [d.pop(k, None)] leaves in [d]. *)
Definition hdict_remove (k : text) (d : list (text * hval)) : list (text * hval) :=
  List.filter (fun kv => negb (text_eqb k (fst kv))) d.

Fixpoint all_some {A} (l : list (option A)) : option (list A) :=
  match l with
  | [] => Some []
  | Some a :: l' => option_map (cons a) (all_some l')
  | None :: _ => None
  end.

(** The tree that a traversal of depth at most [n] reads from the
    store; [None] when the structure is deeper (or cyclic), or a
    reference dangles. *)
Fixpoint snapshot (n : nat) (h : heap) (v : hval) : option pyval :=
  match v with
  | HNone => Some VNone
  | HBool b => Some (VBool b)
  | HInt z => Some (VInt z)
  | HFloat f => Some (VFloat f)
  | HStr s => Some (VStr s)
  | HRef l =>
      match n with
      | O => None
      | S n =>
          match h !! l with
          | Some (HDict items) =>
              option_map VDict
                (all_some
                   (map (fun kv => option_map (pair (fst kv)) (snapshot n h (snd kv)))
                      items))
          | Some (HList items) =>
              option_map VList (all_some (map (snapshot n h) items))
          | None => None
          end
      end
  end.

Section WithBuiltins.

(** [str(v)] as Python computes it for floats and containers. *)
Variable builtin_str : pyval -> text.

(** The deepest nesting the interpreter's stack lets the serializer
    walk. *)
Variable recursion_limit : nat.

(** [str(v)], as used by an f-string *)
Definition str_of (v : pyval) : text :=
  match v with
  | VNone => "None"
  | VBool true => "True"
  | VBool false => "False"
  | VInt z => text_of_Z z
  | VStr s => s
  | _ => builtin_str v
  end.

(** The four f-strings that put the braces around [content]. *)
Definition wrap_object (type_name : pyval) (content : text) (indent : nat)
    (compact : bool) : text :=
  if truthy type_name then
    if compact then "@" ++ str_of type_name ++ "{" ++ content ++ "}"
    else "@" ++ str_of type_name ++ "{" ++ [newline] ++ content ++ [newline]
         ++ spaces indent ++ "}"
  else
    if compact then "{" ++ content ++ "}"
    else "{" ++ [newline] ++ content ++ [newline] ++ spaces indent ++ "}".

(** One [parts.append(...)] of [_serialize_object]. *)
Definition object_part (key serialized : text) (inner_indent : nat)
    (compact : bool) : text :=
  if compact then key ++ ":" ++ serialized
  else spaces inner_indent ++ key ++ ":" ++ serialized.

Definition join_parts (compact : bool) (parts : list text) : text :=
  if compact then join " " parts else join [newline] parts.

(** [_serialize_value], with [_serialize_array] and, for a dictionary,
    the members of [_serialize_object(clean_data, ...)] written in
    place so that the recursion is structural; [serialize_value_dict]
    and [serialize_value_list] give the equations in the shape of the
    source. *)
Fixpoint _serialize_value (value : pyval) (indent : nat) (compact : bool)
    {struct value} : text :=
  match value with
  | VNone => "null"
  | VBool b => if b then "true" else "false"
  | VInt z => text_of_Z z
  | VFloat _ => builtin_str value
  | VStr s =>
      if needs_quotes s then [dquote] ++ escape s ++ [dquote] else s
  | VList arr =>
      match arr with
      | [] => "[]"
      | _ =>
          let has_complex := existsb is_complex arr in
          if compact || negb has_complex then
            let items := map (fun item => _serialize_value item indent true) arr in
            "[" ++ join "," items ++ "]"
          else
            let inner_indent := indent + 2 in
            let items :=
              map (fun item =>
                     spaces inner_indent ++ _serialize_value item inner_indent compact)
                arr in
            "[" ++ [newline] ++ join ("," ++ [newline]) items ++ [newline]
            ++ spaces indent ++ "]"
      end
  | VDict d =>
      let type_name := dict_get_default "_type" VNone d in
      let inner_indent := indent + 2 in
      let parts :=
        (fix members (d : dict) : list text :=
           match d with
           | [] => []
           | (key, v) :: d' =>
               if text_eqb "_type" key then members d'
               else match v with
                    | VNone => members d'
                    | _ =>
                        object_part key (_serialize_value v inner_indent compact)
                          inner_indent compact
                        :: members d'
                    end
           end) d in
      wrap_object type_name (join_parts compact parts) indent compact
  end.

Definition _serialize_array (arr : list pyval) (indent : nat) (compact : bool)
    : text :=
  match arr with
  | [] => "[]"
  | _ =>
      let has_complex := existsb is_complex arr in
      if compact || negb has_complex then
        let items := map (fun item => _serialize_value item indent true) arr in
        "[" ++ join "," items ++ "]"
      else
        let inner_indent := indent + 2 in
        let items :=
          map (fun item =>
                 spaces inner_indent ++ _serialize_value item inner_indent compact)
            arr in
        "[" ++ [newline] ++ join ("," ++ [newline]) items ++ [newline]
        ++ spaces indent ++ "]"
  end.

Fixpoint object_parts (data : dict) (inner_indent : nat) (compact : bool)
    : list text :=
  match data with
  | [] => []
  | (key, value) :: data' =>
      match value with
      | VNone => object_parts data' inner_indent compact
      | _ =>
          object_part key (_serialize_value value inner_indent compact)
            inner_indent compact
          :: object_parts data' inner_indent compact
      end
  end.

Definition _serialize_object (data : dict) (indent : nat) (compact : bool)
    : text :=
  match data with
  | [] => []
  | _ =>
      let inner_indent := indent + 2 in
      join_parts compact (object_parts data inner_indent compact)
  end.

(** The text that [serialize_toon(data, indent, compact)] returns when
    [data] is the tree [data]: lines 18 to 32, the [pop] acting on the
    tree. *)
Definition serialize_document (data : pyval) (indent : nat) (compact : bool)
    : text :=
  match data with
  | VDict d =>
      let type_name := dict_get_default "_type" VNone d in
      let data := dict_remove "_type" d in
      wrap_object type_name (_serialize_object data indent compact) indent compact
  | _ => _serialize_value data indent compact
  end.

(** [serialize_toon(data, indent, compact)] on the store: the effect on
    the caller's dictionary, and the text returned (or the exception
    raised while walking the structure). *)
Definition serialize_toon (data : hval) (indent : nat) (compact : bool)
    (h : heap) : heap * result text :=
  let output :=
    match snapshot recursion_limit h data with
    | Some v => Ok (serialize_document v indent compact)
    | None => Raise OutOfFuel
    end in
  match data with
  | HRef l =>
      match h !! l with
      | Some (HDict items) =>
          (<[l := HDict (hdict_remove "_type" items)]> h, output)
      | _ => (h, output)
      end
  | _ => (h, output)
  end.

End WithBuiltins.

(** [d[k] = v] on a stored dictionary *)
Fixpoint hdict_set (d : list (text * hval)) (k : text) (v : hval)
    : list (text * hval) :=
  match d with
  | [] => [(k, v)]
  | (k', v') :: d' =>
      if text_eqb k k' then (k', v) :: d' else (k', v') :: hdict_set d' k v
  end.

(** [to_toon(obj, type_name, compact)] for an [obj] that is no Pydantic
    model: [dict(obj)] is a new dictionary with the entries of [obj], and
    any other object is wrapped as [{"value": obj}]; the new dictionary
    is the one that [serialize_toon] is given. *)
Definition to_toon (builtin_str : pyval -> text) (recursion_limit : nat)
    (obj : hval) (type_name : option text) (compact : bool) (h : heap)
    : heap * result text :=
  let data :=
    match obj with
    | HRef l =>
        match h !! l with
        | Some (HDict items) => items
        | _ => [("value", obj)]
        end
    | _ => [("value", obj)]
    end in
  let data :=
    match type_name with
    | Some (c :: name) => hdict_set data "_type" (HStr (c :: name))
    | _ => data
    end in
  let l := fresh (dom h) in
  serialize_toon builtin_str recursion_limit (HRef l) 0 compact (<[l := HDict data]> h).

End Serializer.

(* ================================================================== *)
(** * grafana/generator.py *)
(* ================================================================== *)

Module Generator.
Import Re Toon.

(** ** Random identifiers

    [uuid.uuid4()] is the only source of non-determinism; the values it
    returns (as 128-bit integers) are read from a stream that the
    generator threads through its calls. *)

Definition entropy := nat -> N.

Definition M (A : Type) := entropy -> A * entropy.

Definition ret {A} (a : A) : M A := fun e => (a, e).

Definition bindM {A B} (m : M A) (k : A -> M B) : M B :=
  fun e => let '(a, e') := m e in k a e'.

Definition uuid4 : M N := fun e => (e 0, fun n => e (S n)).

(** [bind] of [result] inside [M]: an exception stops the computation. *)
Definition bindR {A B} (m : M (result A)) (k : A -> M (result B)) : M (result B) :=
  bindM m (fun r => match r with Ok a => k a | Raise x => ret (Raise x) end).

(** A version-4 UUID: version nibble 4, variant bits 10. *)
Definition is_uuid4 (u : N) : bool :=
  (u <? 2 ^ 128)%N
  && ((u / 2 ^ 76) mod 16 =? 4)%N
  && ((u / 2 ^ 62) mod 4 =? 2)%N.

(** [hash(u)] for a UUID: CPython hashes its integer value, reduced
    modulo 2^61 - 1 on a 64-bit build. *)
Definition hash_uuid (u : N) : Z := Z.of_N u mod (2 ^ 61 - 1).

(** [abs(hash(uuid.uuid4())) % 1000000] *)
Definition generate_panel_id : M Z :=
  bindM uuid4 (fun u => ret (Z.abs (hash_uuid u) mod 1000000)%Z).

Definition hex_digit (d : N) : ascii :=
  if (d <? 10)%N then ascii_of_N (48 + d) else ascii_of_N (87 + d).

(** The [k] lowest hexadecimal digits of [n], most significant first. *)
Fixpoint hex_digits (k : nat) (n : N) : text :=
  match k with
  | O => []
  | S k => hex_digits k (n / 16) ++ [hex_digit (n mod 16)]
  end.

(** [uuid.uuid4().hex[:12]] *)
Definition generate_uid : M text :=
  bindM uuid4 (fun u => ret (hex_digits 12 ((u mod 2 ^ 128) / 2 ^ 80)%N)).

(** ** Operations on values of any type *)

(** [v.lower()] *)
Definition py_lower (v : pyval) : result text :=
  match v with
  | VStr s => Ok (lower s)
  | _ => Raise TypeMismatch
  end.

(** [needle in v] for a string [needle] *)
Definition py_contains (needle : text) (v : pyval) : result bool :=
  match v with
  | VStr s => Ok (contains needle s)
  | VList l => Ok (existsb (fun x => eq_str x needle) l)
  | VDict d => Ok (existsb (fun kv => text_eqb needle (fst kv)) d)
  | _ => Raise TypeMismatch
  end.

(** [v[:n]] *)
Definition py_slice_to (n : nat) (v : pyval) : result pyval :=
  match v with
  | VStr s => Ok (VStr (take n s))
  | VList l => Ok (VList (take n l))
  | _ => Raise TypeMismatch
  end.

(** ** normalize_time_columns *)

Definition time_keywords : list text :=
  [ "date"; "time"; "created"; "updated"; "at"; "timestamp"; "datetime"; "when" ].

(** The class of the optional group: word characters, whitespace, and
    the characters [, . ( ) ' *] and the double quote. *)
Definition select_list_class : cclass :=
  CUnion CWord (CUnion CSpace
    (COneOf ["," ; "." ; "(" ; ")" ; "'" ; dquote ; "*"]%char)).

(** [[,\s]] *)
Definition comma_or_space : cclass := CUnion (COneOf ",") CSpace.

(** The first pattern of [normalize_time_columns]: group 1 is
    [SELECT\s+], the optional group 2 is a run of [select_list_class]
    followed by [,\s*], group 3 is [re.escape(x_column)], group 4 is
    [\s*[,\s]]. *)
Definition column_pattern (x_column : text) : regex :=
  RSeq (RGroup 1 (RSeq (RLit "SELECT") (RPlus CSpace)))
  (RSeq (ROpt (RGroup 2 (RSeq (RPlus select_list_class)
                          (RSeq (RLit ",") (RStar CSpace)))))
  (RSeq (RGroup 3 (RLit x_column))
        (RGroup 4 (RSeq (RStar CSpace) (RCls comma_or_space))))).

(** [rf'(SELECT\s+)({re.escape(x_column)})(\s*[,\s])'] *)
Definition first_column_pattern (x_column : text) : regex :=
  RSeq (RGroup 1 (RSeq (RLit "SELECT") (RPlus CSpace)))
  (RSeq (RGroup 2 (RLit x_column))
        (RGroup 3 (RSeq (RStar CSpace) (RCls comma_or_space)))).

(** [r'SELECT\s+(\w+)'] *)
Definition select_pattern : regex :=
  RSeq (RLit "SELECT") (RSeq (RPlus CSpace) (RGroup 1 (RPlus CWord))).

Definition replacer (m : rmatch) : text :=
  let prefix_ := group_or_empty (m_groups m) 1 in
  let between := group_or_empty (m_groups m) 2 in
  let col := group_or_empty (m_groups m) 3 in
  let suffix_ := group_or_empty (m_groups m) 4 in
  prefix_ ++ between ++ "strftime(" ++ col ++ ", '%Y-%m-%d') AS " ++ col ++ suffix_.

Definition replacer2 (m : rmatch) : text :=
  let g1 := group_or_empty (m_groups m) 1 in
  let g2 := group_or_empty (m_groups m) 2 in
  let g3 := group_or_empty (m_groups m) 3 in
  g1 ++ "strftime(" ++ g2 ++ ", '%Y-%m-%d') AS " ++ g2 ++ g3.

Definition normalize_time_columns (sql : pyval) (x_column : pyval) : result pyval :=
  if negb (truthy sql) || negb (truthy x_column) then Ok sql
  else
    bind (py_lower x_column) (fun x_lower =>
    if negb (existsb (fun kw => contains kw x_lower) time_keywords) then Ok sql
    else
      bind (py_lower sql) (fun sql_lower =>
      match x_column, sql with
      | VStr x_column, VStr sql =>
          if contains ("strftime(" ++ x_column) sql_lower
             || contains ("strftime( " ++ x_column) sql_lower
          then Ok (VStr sql)
          else
            let result := re_sub_first true (column_pattern x_column) replacer sql in
            let result :=
              if text_eqb result sql
              then re_sub_first true (first_column_pattern x_column) replacer2 sql
              else result in
            Ok (VStr result)
      | _, _ => Raise TypeMismatch
      end)).

(** ** generate_panel *)

Record DashboardGenerator := { datasource_name : pyval }.

Definition grid (x y w h : Z) : pyval :=
  VDict [("x", VInt x); ("y", VInt y); ("w", VInt w); ("h", VInt h)].

Definition legend (placement : text) : pyval :=
  VDict [("displayMode", VStr "list"); ("placement", VStr placement)].

Definition tooltip_single : pyval := VDict [("mode", VStr "single")].

Definition reduce_options (values : bool) : pyval :=
  VDict [("calcs", VList [VStr "lastNotNull"]); ("fields", VStr []);
         ("values", VBool values)].

Definition color_mode (mode : text) : pyval := VDict [("mode", VStr mode)].

Definition threshold_steps (steps : list (text * pyval)) : pyval :=
  VDict [("mode", VStr "absolute");
         ("steps",
          VList (map (fun s => VDict [("color", VStr (fst s)); ("value", snd s)])
                   steps))].

(** [panel["type"] = t; panel["options"] = o; panel["fieldConfig"] = f] *)
Definition with_type (panel : dict) (t : text) (options field_config : pyval) : dict :=
  dict_set (dict_set (dict_set panel "type" (VStr t)) "options" options)
    "fieldConfig" field_config.

(** [panel["targets"][0]["queryText"] = q; panel["targets"][0]["rawQueryText"] = q] *)
Definition set_query (panel : dict) (q : pyval) : dict :=
  match dict_get "targets" panel with
  | Some (VList (VDict target :: others)) =>
      dict_set panel "targets"
        (VList (VDict (dict_set (dict_set target "queryText" q) "rawQueryText" q)
                :: others))
  | _ => panel
  end.

(** The [bar] branch up to the assignment of the query text: the column
    on the x axis and the rewritten query. *)
Definition bar_query (panel_spec : dict) (sql : pyval) : result (pyval * pyval) :=
  let x_col := dict_get_default "x" VNone panel_spec in
  bind (if negb (truthy x_col)
        then match sql with
             | VStr sql_text =>
                 match re_search true select_pattern sql_text with
                 | Some (_, select_match) =>
                     Ok (VStr (group_or_empty (m_groups select_match) 1))
                 | None => Ok x_col
                 end
             | _ => Raise TypeMismatch
             end
        else Ok x_col)
    (fun x_col =>
  bind (if truthy x_col then normalize_time_columns sql x_col else Ok sql)
    (fun normalized_sql =>
  bind (if truthy x_col
        then
          bind (py_lower x_col) (fun x_col_lower =>
          if negb (text_eqb x_col_lower "strftime") then
            let x_text := match x_col with VStr t => t | _ => [] end in
            bind (py_contains ("CAST(" ++ x_text) normalized_sql) (fun has_cast =>
            if negb has_cast then
              bind (py_lower normalized_sql) (fun normalized_lower =>
              if negb (contains ("strftime(" ++ x_text) normalized_lower) then
                match normalized_sql, sql with
                | VStr normalized_text, VStr sql_text =>
                    if text_eqb normalized_text sql_text then
                      Ok (VStr
                            (re_sub_first true (first_column_pattern x_text)
                               (fun m =>
                                  group_or_empty (m_groups m) 1 ++ "CAST("
                                  ++ group_or_empty (m_groups m) 2
                                  ++ " AS VARCHAR) AS "
                                  ++ group_or_empty (m_groups m) 2
                                  ++ group_or_empty (m_groups m) 3)
                               sql_text))
                    else Ok normalized_sql
                | _, _ => Ok normalized_sql
                end
              else Ok normalized_sql)
            else Ok normalized_sql)
          else Ok normalized_sql)
        else Ok normalized_sql)
    (fun normalized_sql => Ok (x_col, normalized_sql)))).

Definition bar_options (x_col : pyval) : pyval :=
  let options := [("legend", legend "bottom"); ("tooltip", tooltip_single)] in
  VDict (if truthy x_col then dict_set options "xField" x_col else options).

Definition line_field_config : pyval :=
  VDict [("defaults",
          VDict [("color", color_mode "palette-classic");
                 ("custom",
                  VDict [("lineWidth", VInt 2); ("fillOpacity", VInt 10);
                         ("pointSize", VInt 5)])]);
         ("overrides", VList [])].

Definition palette_field_config (custom : list (text * pyval)) : pyval :=
  VDict [("defaults",
          VDict [("color", color_mode "palette-classic"); ("custom", VDict custom)]);
         ("overrides", VList [])].

Definition gauge_field_config : pyval :=
  VDict [("defaults",
          VDict [("color", color_mode "thresholds");
                 ("thresholds",
                  threshold_steps [("green", VNone); ("yellow", VInt 50);
                                   ("red", VInt 80)])]);
         ("overrides", VList [])].

(** The branches of [generate_panel] after [bar]: the panel with its
    type, options and field configuration. *)
Definition typed_panel (panel : dict) (panel_type : pyval) : dict :=
  if eq_str panel_type "line" then
    with_type panel "timeseries"
      (VDict [("legend", legend "bottom"); ("tooltip", tooltip_single)])
      line_field_config
  else if eq_str panel_type "stat" then
    with_type panel "stat"
      (VDict [("colorMode", VStr "value"); ("graphMode", VStr "area");
              ("justifyMode", VStr "auto"); ("textMode", VStr "auto");
              ("reduceOptions", reduce_options false)])
      (VDict [("defaults", VDict [("color", color_mode "thresholds")]);
              ("overrides", VList [])])
  else if eq_str panel_type "table" then
    with_type panel "table"
      (VDict [("showHeader", VBool true); ("sortBy", VList [])])
      (VDict [("defaults", VDict []); ("overrides", VList [])])
  else if eq_str panel_type "pie" then
    with_type panel "piechart"
      (VDict [("legend", legend "right"); ("pieType", VStr "pie");
              ("reduceOptions", reduce_options true)])
      (VDict [("defaults", VDict [("color", color_mode "palette-classic")]);
              ("overrides", VList [])])
  else if eq_str panel_type "gauge" then
    with_type panel "gauge"
      (VDict [("reduceOptions", reduce_options false);
              ("showThresholdLabels", VBool false);
              ("showThresholdMarkers", VBool true)])
      gauge_field_config
  else if eq_str panel_type "heatmap" then
    with_type panel "heatmap"
      (VDict [("calculate", VBool false); ("cellGap", VInt 1);
              ("color",
               VDict [("mode", VStr "scheme"); ("scheme", VStr "Oranges");
                      ("steps", VInt 64)]);
              ("legend", VDict [("show", VBool true)]);
              ("tooltip", VDict [("show", VBool true); ("yHistogram", VBool false)]);
              ("yAxis", VDict [("unit", VStr "short")])])
      (VDict [("defaults",
               VDict [("custom",
                       VDict [("hideFrom",
                               VDict [("legend", VBool false);
                                      ("tooltip", VBool false);
                                      ("viz", VBool false)])])]);
              ("overrides", VList [])])
  else if eq_str panel_type "histogram" then
    with_type panel "histogram"
      (VDict [("bucketCount", VInt 30); ("bucketSize", VNone);
              ("combine", VBool false); ("legend", legend "bottom");
              ("tooltip", tooltip_single)])
      (palette_field_config [("fillOpacity", VInt 80); ("lineWidth", VInt 1)])
  else if eq_str panel_type "state_timeline" then
    with_type panel "state-timeline"
      (VDict [("alignValue", VStr "left"); ("legend", legend "bottom");
              ("mergeValues", VBool true); ("rowHeight", VFloat "0.9");
              ("showValue", VStr "auto"); ("tooltip", tooltip_single)])
      (palette_field_config [("fillOpacity", VInt 70); ("lineWidth", VInt 0)])
  else if eq_str panel_type "status_history" then
    with_type panel "status-history"
      (VDict [("colWidth", VFloat "0.9"); ("legend", legend "bottom");
              ("rowHeight", VFloat "0.9"); ("showValue", VStr "auto");
              ("tooltip", tooltip_single)])
      (VDict [("defaults",
               VDict [("color", color_mode "thresholds");
                      ("custom", VDict [("fillOpacity", VInt 70)]);
                      ("thresholds",
                       threshold_steps [("green", VNone); ("red", VInt 1)])]);
              ("overrides", VList [])])
  else if eq_str panel_type "candlestick" then
    with_type panel "candlestick"
      (VDict [("colors",
               VDict [("down", VStr "red"); ("flat", VStr "gray");
                      ("up", VStr "green")]);
              ("includeAllFields", VBool false); ("legend", legend "bottom")])
      (palette_field_config
         [("axisCenteredZero", VBool false); ("axisPlacement", VStr "auto")])
  else if eq_str panel_type "trend" then
    with_type panel "trend"
      (VDict [("legend", legend "bottom"); ("tooltip", tooltip_single)])
      line_field_config
  else if eq_str panel_type "xy" then
    with_type panel "xychart"
      (VDict [("dims", VDict [("x", VNone); ("y", VNone)]);
              ("legend", legend "bottom");
              ("series",
               VList [VDict [("pointSize", VDict [("fixed", VInt 5)]);
                             ("showPoints", VStr "always")]]);
              ("tooltip", tooltip_single)])
      (VDict [("defaults", VDict [("color", color_mode "palette-classic")]);
              ("overrides", VList [])])
  else if eq_str panel_type "bar_gauge" then
    with_type panel "bargauge"
      (VDict [("displayMode", VStr "gradient"); ("minVizHeight", VInt 10);
              ("minVizWidth", VInt 0); ("orientation", VStr "horizontal");
              ("reduceOptions", reduce_options false);
              ("showUnfilled", VBool true)])
      gauge_field_config
  else
    (* Default to table *)
    dict_set (dict_set panel "type" (VStr "table")) "options"
      (VDict [("showHeader", VBool true)]).

Definition generate_panel (self : DashboardGenerator) (panel_spec : pyval)
    (sql : pyval) (grid_pos : pyval) : M (result pyval) :=
  match panel_spec with
  | VDict panel_spec =>
      let panel_type := dict_get_default "type" (VStr "bar") panel_spec in
      let title := dict_get_default "title" (VStr "Panel") panel_spec in
      bindM generate_panel_id (fun id =>
      let panel : dict :=
        [ ("id", VInt id);
          ("title", title);
          ("description", dict_get_default "description" (VStr []) panel_spec);
          ("gridPos", grid_pos);
          ("datasource",
           VDict [("type", VStr "frser-sqlite-datasource");
                  ("uid", datasource_name self)]);
          ("targets",
           VList [VDict [("queryText", sql); ("rawQueryText", sql);
                         ("refId", VStr "A"); ("format", VStr "table")]]) ] in
      if eq_str panel_type "bar" then
        ret (bind (bar_query panel_spec sql) (fun '(x_col, normalized_sql) =>
             Ok (VDict
                   (with_type (set_query panel normalized_sql) "barchart"
                      (bar_options x_col)
                      (VDict [("defaults",
                               VDict [("color", color_mode "palette-classic")]);
                              ("overrides", VList [])])))))
      else ret (Ok (VDict (typed_panel panel panel_type))))
  | _ => ret (Raise TypeMismatch)
  end.

(** ** Dashboards *)

Definition dashboard_document (uid : text) (title : pyval) (tags : list text)
    (refresh time_from : text) (panels : list pyval) : pyval :=
  VDict [ ("uid", VStr uid);
          ("title", title);
          ("tags", VList (map VStr tags));
          ("timezone", VStr "browser");
          ("schemaVersion", VInt 38);
          ("version", VInt 1);
          ("refresh", VStr refresh);
          ("time", VDict [("from", VStr time_from); ("to", VStr "now")]);
          ("panels", VList panels) ].

(** The grid position given to panel number [i] of type [panel_type]
    when the rows above end at [y_pos], and the new [y_pos]. *)
Definition grid_position (i : nat) (y_pos : Z) (panel_type : pyval) : pyval * Z :=
  if eq_str panel_type "table" || eq_str panel_type "line" then
    (* Full width *)
    (grid 0 y_pos 24 8, (y_pos + 8)%Z)
  else
    (* Half width, alternate left/right *)
    let col := Z.of_nat (i mod 2) in
    (grid (col * 12) y_pos 12 8, if (col =? 1)%Z then (y_pos + 8)%Z else y_pos).

(** The [for i, panel_spec in enumerate(panels)] loop. *)
Fixpoint layout_loop (self : DashboardGenerator) (panels : list pyval) (i : nat)
    (y_pos : Z) (done : list pyval) : M (result (list pyval)) :=
  match panels with
  | [] => ret (Ok done)
  | panel_spec :: rest =>
      match panel_spec with
      | VDict spec =>
          let viz := dict_get_default "viz" panel_spec spec in
          let sql := dict_get_default "sql" (VStr []) spec in
          match viz with
          | VDict viz_items =>
              let panel_type := dict_get_default "type" (VStr "bar") viz_items in
              let '(grid_pos, y_pos) := grid_position i y_pos panel_type in
              bindR (generate_panel self viz sql grid_pos)
                (fun panel => layout_loop self rest (S i) y_pos (done ++ [panel]))
          | _ => ret (Raise TypeMismatch)
          end
      | _ => ret (Raise TypeMismatch)
      end
  end.

Definition generate_multi_panel_dashboard (self : DashboardGenerator)
    (panels : list pyval) (title : pyval) : M (result pyval) :=
  bindM generate_uid (fun uid =>
  bindR (layout_loop self panels 0 0%Z [])
    (fun generated =>
       ret (Ok (dashboard_document uid title
                  ["auto-generated"; "analytics"; "overview"] "30s" "now-24h"
                  generated)))).

(** [p_copy = p.copy(); if not p_copy.get("sql"): p_copy["sql"] = sql] *)
Definition enrich (sql : pyval) (p : pyval) : result pyval :=
  match p with
  | VDict p_copy =>
      Ok (VDict (if missing "sql" p_copy then dict_set p_copy "sql" sql else p_copy))
  | _ => Raise TypeMismatch
  end.

Fixpoint enrich_all (sql : pyval) (viz : list pyval) : result (list pyval) :=
  match viz with
  | [] => Ok []
  | p :: rest =>
      bind (enrich sql p) (fun p_copy =>
      bind (enrich_all sql rest) (fun enriched => Ok (p_copy :: enriched)))
  end.

(** The title chosen when none is passed. *)
Definition default_title (question viz : pyval) : result pyval :=
  match viz with
  | VList (_ :: _) => py_slice_to 50 question
  | VDict viz_items =>
      bind (py_slice_to 50 question)
        (fun short => Ok (dict_get_default "title" short viz_items))
  | _ => py_slice_to 50 question
  end.

Definition generate_dashboard (self : DashboardGenerator) (plan : pyval)
    (title : pyval) : M (result pyval) :=
  match plan with
  | VDict plan =>
      let question :=
        dict_get_default "q"
          (dict_get_default "question" (VStr "Analytics Dashboard") plan) plan in
      let sql := dict_get_default "sql" (VStr []) plan in
      let viz := dict_get_default "viz" (VDict []) plan in
      match (if negb (truthy title) then default_title question viz else Ok title) with
      | Raise x => ret (Raise x)
      | Ok title =>
          match viz with
          | VList viz_items =>
              (* Handle multi-panel plans *)
              match enrich_all sql viz_items with
              | Ok enriched_panels =>
                  generate_multi_panel_dashboard self enriched_panels title
              | Raise x => ret (Raise x)
              end
          | _ =>
              (* legacy single panel *)
              bindM generate_uid (fun uid =>
              bindR (if truthy viz && truthy sql
                     then bindR (generate_panel self viz sql (grid 0 0 24 12))
                            (fun panel => ret (Ok [panel]))
                     else ret (Ok []))
                (fun panels =>
                   ret (Ok (dashboard_document uid title
                              ["auto-generated"; "analytics"] "5s" "now-1h"
                              panels))))
          end
      end
  | _ => ret (Raise TypeMismatch)
  end.

(** [generate_from_overview(overview)] *)
Definition generate_from_overview (self : DashboardGenerator) (overview : pyval)
    : M (result pyval) :=
  match overview with
  | VDict overview =>
      let title := dict_get_default "title" (VStr "Data Overview") overview in
      let panels := dict_get_default "panels" (VList []) overview in
      match py_iter panels with
      | Ok panels => generate_multi_panel_dashboard self panels title
      | Raise x => bindM generate_uid (fun _ => ret (Raise x))
      end
  | _ => ret (Raise TypeMismatch)
  end.

End Generator.

(* ================================================================== *)
(** * ingestion/profiler.py: the schema that the validator reads *)
(* ================================================================== *)

Module Profiler.

(** The profile of a column. *)
Record ColumnProfile := {
  name : text;
  dtype : text;
  nullable : bool;
  is_timestamp : bool;
  is_metric : bool;
  is_entity_id : bool;
  is_categorical : bool;
  distinct_count : Z;
  sample_values : list pyval;
  min_value : pyval;
  max_value : pyval
}.

(** The profile of a table (its field [name] is [table_name] here). *)
Record TableProfile := {
  table_name : text;
  row_count : Z;
  columns : list ColumnProfile
}.

(** A [Dict[str, TableProfile]], in insertion order. *)
Definition profiles := list (text * TableProfile).

End Profiler.

(* ================================================================== *)
(** * compiler/validator.py: plans *)
(* ================================================================== *)

Module PlanValidator.
Import Re Validator Toon Serializer Profiler.

Section WithStr.

(** [str(v)] as Python computes it for floats and containers. *)
Variable builtin_str : pyval -> text.

(** [v in names] for a set of strings: a list or a dictionary cannot be
    hashed. *)
Definition in_name_set (v : pyval) (names : list text) : result bool :=
  match v with
  | VStr s => Ok (text_in s names)
  | VList _ | VDict _ => Raise TypeMismatch
  | _ => Ok false
  end.

(** The [for] loop of [validate_table_references].  The names of the
    message are joined in the order of the profiles (the order in which
    Python iterates the set is not fixed by the language). *)
Fixpoint check_tables (tables : list pyval) (available_tables : list text)
    : result unit :=
  match tables with
  | [] => Ok tt
  | table :: rest =>
      bind (in_name_set table available_tables) (fun known =>
      if negb known then
        Raise (ValidationError
                 ("Table '" ++ str_of builtin_str table
                  ++ "' not found. Available tables: "
                  ++ join ", " available_tables))
      else check_tables rest available_tables)
  end.

Definition validate_table_references (tables : pyval) (table_profiles : profiles)
    : result unit :=
  let available_tables := map fst table_profiles in
  bind (py_iter tables) (fun tables => check_tables tables available_tables).

Definition sql_keywords : list text :=
  [ "select"; "from"; "where"; "group"; "by"; "order"; "having";
    "and"; "or"; "not"; "in"; "is"; "null"; "as"; "on"; "join";
    "left"; "right"; "inner"; "outer"; "full"; "cross"; "limit";
    "offset"; "asc"; "desc"; "distinct"; "count"; "sum"; "avg";
    "min"; "max"; "case"; "when"; "then"; "else"; "end"; "like";
    "between"; "exists"; "union"; "all"; "any"; "true"; "false";
    "coalesce"; "cast"; "extract"; "date"; "time"; "timestamp";
    "year"; "month"; "day"; "hour"; "minute"; "second"; "interval" ].

(** The pattern of a string literal: a quote, characters other than a
    quote, a quote. *)
Definition string_literal_pattern : regex :=
  RSeq (RLit [squote]) (RSeq (RStar (CNot (COneOf [squote]))) (RLit [squote])).

(** The pattern of a quoted identifier: a double quote, characters other
    than a double quote, a double quote. *)
Definition quoted_identifier_pattern : regex :=
  RSeq (RLit [dquote]) (RSeq (RStar (CNot (COneOf [dquote]))) (RLit [dquote])).

Definition letters : text := "abcdefghijklmnopqrstuvwxyzABCDEFGHIJKLMNOPQRSTUVWXYZ".

(** The pattern of a word: a boundary, a letter or an underscore,
    then letters, digits and underscores, a boundary; group 1 is the
    word. *)
Definition word_pattern : regex :=
  RSeq RBoundary
    (RSeq (RGroup 1 (RSeq (RCls (COneOf (letters ++ "_")))
                          (RStar (COneOf (letters ++ "0123456789_")))))
          RBoundary).

(** The lower-cased names of all columns of all tables. *)
Definition all_column_names (table_profiles : profiles) : list text :=
  flat_map (fun p => map (fun col => lower (name col)) (columns (snd p)))
    table_profiles.

(** The [for word in words] loop: the words that are no keyword, no
    column, no table and longer than two characters. *)
Definition unknown_references (words : list text) (all_columns : list text)
    (table_profiles : profiles) : list text :=
  List.filter
    (fun word =>
       let word_lower := lower word in
       negb (text_in word_lower sql_keywords)
       && negb (text_in word_lower all_columns)
       && negb (text_in word_lower (map (fun p => lower (fst p)) table_profiles))
       && negb (length word <=? 2))
    words.

Definition validate_column_references (sql : text) (table_profiles : profiles)
    : result unit :=
  let all_columns := all_column_names table_profiles in
  let sql_clean := re_sub false string_literal_pattern [] sql in
  let sql_clean := re_sub false quoted_identifier_pattern [] sql_clean in
  let words := re_findall false word_pattern sql_clean in
  let unknown_refs := unknown_references words all_columns table_profiles in
  if nonempty unknown_refs && (3 <? length unknown_refs) then
    Raise (ValidationError
             ("SQL may reference unknown columns: " ++ join ", " (take 5 unknown_refs)))
  else Ok tt.






End WithStr.

End PlanValidator.

(* ================================================================== *)
(** * orchestration/executor.py *)
(* ================================================================== *)

Module Executor.
Import Re Validator.

(** ** QueryResult *)

(** The result of a query execution.  [error] is [None] or a string;
    [execute_plan] puts there whatever the plan holds under [reason]. *)
Record QueryResult := {
  success : bool;
  data : list dict;
  columns : list text;
  row_count : nat;
  error : pyval
}.

(** The result that every failing path returns. *)
Definition failed (error : pyval) : QueryResult :=
  {| success := false; data := []; columns := []; row_count := 0; error := error |}.

(** ** The database

    What the [with get_connection(...)] block of [execute] obtains from
    DuckDB: the column names of [result.description] and the rows of
    [result.fetchall()], or the text of the exception raised on the
    way. *)
Inductive answer :=
| Rows (names : list text) (rows : list (list pyval))
| Failure (message : text).

(** [dict(zip(columns, row))]: a column that occurs twice keeps its
    first place and its last value. *)
Definition row_dict (columns : list text) (row : list pyval) : dict :=
  fold_left (fun d kv => dict_set d (fst kv) (snd kv)) (combine columns row) [].

(** [l[start:]] *)
Definition py_slice_from {A} (start : Z) (l : list A) : list A :=
  let n := Z.of_nat (length l) in
  let start := if (start <? 0)%Z then Z.max (n + start) 0 else Z.min start n in
  drop (Z.to_nat start) l.

(** The pattern of a name, as [re.match] applies it: word characters up
    to the end of the text (the anchor at the start always holds
    there). *)
Definition name_pattern : regex := RSeq (RPlus CWord) REnd.

Definition line_break : text := ["010"%char].
Definition double_quote : text := ["034"%char].

Section WithDatabase.
Variable database : Type.
(** Connecting, [conn.execute(sql)], reading the result and closing. *)
Variable conn_execute : pyval -> database -> answer * database.

(** The [try] block of [execute]. *)
Definition run_query (sql : pyval) (db : database) : QueryResult * database :=
  match conn_execute sql db with
  | (Rows names rows, db') =>
      let data := map (row_dict names) rows in
      ({| success := true; data := data; columns := names;
          row_count := length data; error := VNone |}, db')
  | (Failure message, db') => (failed (VStr message), db')
  end.

(** [execute(sql, validate)].  An exception of the check other than a
    [ValidationError] is not caught. *)
Definition execute (sql : pyval) (validate : bool) (db : database)
    : result QueryResult * database :=
  if validate then
    match sql with
    | VStr s =>
        match validate_sql_readonly s with
        | Ok _ => let '(r, db') := run_query sql db in (Ok r, db')
        | Raise (ValidationError msg) => (Ok (failed (VStr msg)), db)
        | Raise x => (Raise x, db)
        end
    | _ => (Raise TypeMismatch, db)
    end
  else let '(r, db') := run_query sql db in (Ok r, db').

(** The fallback of [execute_plan] when the plan has no query of its
    own: the query of the first panel, or of a single visualization. *)
Definition fallback_sql (plan : dict) (sql : pyval) : result pyval :=
  match dict_get_default "viz" VNone plan with
  | VList (first :: _) =>
      match first with
      | VDict first =>
          if truthy (dict_get_default "sql" VNone first)
          then Ok (dict_get_default "sql" VNone first)
          else Ok sql
      | _ => Raise TypeMismatch
      end
  | VDict viz =>
      if truthy (dict_get_default "sql" VNone viz)
      then Ok (dict_get_default "sql" VNone viz)
      else Ok sql
  | _ => Ok sql
  end.

Definition execute_plan (plan : dict) (db : database)
    : result QueryResult * database :=
  (* Check if plan is feasible *)
  if negb (truthy (dict_get_default "feasible" (VBool true) plan)) then
    (Ok (failed (dict_get_default "reason" (VStr "Query is not feasible") plan)), db)
  else
    let sql := dict_get_default "sql" VNone plan in
    match (if negb (truthy sql) then fallback_sql plan sql else Ok sql) with
    | Raise x => (Raise x, db)
    | Ok sql =>
        if negb (truthy sql)
        then (Ok (failed (VStr "No SQL query in plan")), db)
        else execute sql true db
    end.

Definition get_table_sample (table_name : text) (limit : Z) (db : database)
    : result QueryResult * database :=
  (* Sanitize table name (basic protection) *)
  match re_match false name_pattern table_name with
  | None => (Ok (failed (VStr "Invalid table name")), db)
  | Some _ =>
      let sql := "SELECT * FROM " ++ table_name ++ " LIMIT " ++ text_of_Z limit in
      execute (VStr sql) false db
  end.

Definition get_column_stats (table_name column_name : text) (db : database)
    : result QueryResult * database :=
  (* Sanitize names *)
  match re_match false name_pattern table_name,
        re_match false name_pattern column_name with
  | Some _, Some _ =>
      let star := "*" in
      let sql :=
        line_break
        ++ "        SELECT" ++ line_break
        ++ "            COUNT(" ++ star ++ ") as total_count," ++ line_break
        ++ "            COUNT(DISTINCT " ++ double_quote ++ column_name
        ++ double_quote ++ ") as distinct_count," ++ line_break
        ++ "            COUNT(" ++ star ++ ") - COUNT(" ++ double_quote
        ++ column_name ++ double_quote ++ ") as null_count" ++ line_break
        ++ "        FROM " ++ table_name ++ line_break
        ++ "        " in
      execute (VStr sql) false db
  | _, _ => (Ok (failed (VStr "Invalid table or column name")), db)
  end.

End WithDatabase.

(** ** QueryLineage *)

(** [self._history] *)
Definition lineage := list dict.

(** [record(question, plan, result)]: the index of the entry and the
    history with the entry. *)
Definition record (question plan : pyval) (result : QueryResult) (history : lineage)
    : Z * lineage :=
  let entry : dict :=
    [ ("question", question);
      ("plan", plan);
      ("success", VBool (success result));
      ("row_count", VInt (Z.of_nat (row_count result)));
      ("error", error result) ] in
  let history := history ++ [entry] in
  ((Z.of_nat (length history) - 1)%Z, history).

(** [self._history[-limit:]] *)
Definition get_history (limit : Z) (history : lineage) : lineage :=
  py_slice_from (- limit) history.

Definition clear (history : lineage) : lineage := [].

End Executor.

(* ================================================================== *)
(** * Vocabulary of the properties *)
(* ================================================================== *)

Module Props.
Import Re Validator Toon Serializer Generator Profiler PlanValidator Executor.

(** ** Read-only policy *)

(** [kw] occurs in [s] with no word character on either side. *)
Definition occurs_at_word_boundary (kw s : text) : Prop :=
  exists pre post,
    s = pre ++ kw ++ post
    /\ is_word_opt (last pre) = false
    /\ is_word_opt (head post) = false.

(** The input after the closing quote [q], if there is one. *)
Fixpoint after_closing (q : ascii) (s : text) : option text :=
  match s with
  | [] => None
  | c :: s' => if char_eqb c q then Some s' else after_closing q s'
  end.

(** Removes the spans [q ... q]: the effect of [re.sub] with the
    pattern that [validate_column_references] uses for literals. *)
Fixpoint remove_quoted (n : nat) (q : ascii) (s : text) : text :=
  match n with
  | O => s
  | S n =>
      match s with
      | [] => []
      | c :: s' =>
          if char_eqb c q
          then match after_closing q s' with
               | Some rest => remove_quoted n q rest
               | None => c :: remove_quoted n q s'
               end
          else c :: remove_quoted n q s'
      end
  end.

(** Single-quoted, then double-quoted spans removed. *)
Definition strip_literals (s : text) : text :=
  let s := remove_quoted (length s) squote s in
  remove_quoted (length s) dquote s.

(** Rejection as the specification words it: a write keyword at a word
    boundary of the query with its literals removed. *)
Definition rejects_after_stripping (sql : text) : bool :=
  negb (is_ok (check_keywords WRITE_KEYWORDS (upper (strip_literals sql)))).

(** ** Panel types *)

Definition known_types : list text :=
  [ "bar"; "line"; "stat"; "table"; "pie"; "gauge"; "heatmap"; "histogram";
    "state_timeline"; "status_history"; "candlestick"; "trend"; "xy";
    "bar_gauge" ].

(** ** Panel documents *)

(** [panel["targets"][0]["queryText"]] *)
Definition query_text (panel : pyval) : option pyval :=
  match panel with
  | VDict p =>
      match dict_get "targets" p with
      | Some (VList (VDict target :: _)) => dict_get "queryText" target
      | _ => None
      end
  | _ => None
  end.

Definition field (k : text) (doc : pyval) : option pyval :=
  match doc with
  | VDict d => dict_get k d
  | _ => None
  end.

Definition panels_of (dashboard : pyval) : list pyval :=
  match field "panels" dashboard with
  | Some (VList l) => l
  | _ => []
  end.

(** The rectangle [(x, y, w, h)] of a panel. *)
Definition rectangle (panel : pyval) : option (Z * Z * Z * Z) :=
  match field "gridPos" panel with
  | Some g =>
      match field "x" g, field "y" g, field "w" g, field "h" g with
      | Some (VInt x), Some (VInt y), Some (VInt w), Some (VInt h) =>
          Some (x, y, w, h)
      | _, _, _, _ => None
      end
  | None => None
  end.

(** Two rectangles share a cell of the grid. *)
Definition overlap (a b : Z * Z * Z * Z) : bool :=
  let '(x1, y1, w1, h1) := a in
  let '(x2, y2, w2, h2) := b in
  (x1 <? x2 + w2)%Z && (x2 <? x1 + w1)%Z && (y1 <? y2 + h2)%Z && (y2 <? y1 + h1)%Z.

(** A panel spec [{"viz": {"type": t}, "sql": "SELECT 1"}]. *)
Definition panel_of_type (t : text) : pyval :=
  VDict [("viz", VDict [("type", VStr t)]); ("sql", VStr "SELECT 1")].

(** A panel document with its [id] blanked. *)
Definition without_id (panel : pyval) : pyval :=
  match panel with
  | VDict p => VDict (dict_set p "id" VNone)
  | _ => panel
  end.

(** A dashboard document with its [uid] and the [id] of every panel
    blanked. *)
Definition without_ids (dashboard : pyval) : pyval :=
  match dashboard with
  | VDict d =>
      VDict (dict_set (dict_set d "uid" VNone) "panels"
               (VList (map without_id (panels_of dashboard))))
  | _ => dashboard
  end.

Definition map_result {A B} (f : A -> B) (r : result A) : result B :=
  match r with
  | Ok a => Ok (f a)
  | Raise x => Raise x
  end.

(** A stream of version-4 UUIDs that counts up. *)
Definition counting_uuids : entropy :=
  fun n => (2 ^ 78 + 2 ^ 63 + N.of_nat n)%N.

Definition test_generator : DashboardGenerator :=
  {| datasource_name := VStr "DuckDB" |}.

(** ** Serialized documents *)

(** The text is of the tagged form [@name{...}]. *)
Definition is_tagged (t : text) : bool := startswith "@" t.

(** ** Matching *)

(** The character before a position that lies [l] after a position whose
    previous character is [prev]. *)
Definition last_or (prev : option ascii) (l : text) : option ascii :=
  match last l with
  | Some c => Some c
  | None => prev
  end.

(** A non-empty run of word characters. *)
Definition is_identifier (k : text) : bool :=
  nonempty k && forallb is_word k.

(** ** Delimiters *)

(** The least number of characters a match of [r] takes. *)
Fixpoint min_len (r : regex) : nat :=
  match r with
  | RLit l => length l
  | RCls _ => 1
  | RStar _ => 0
  | RPlus _ => 1
  | RSeq a b => min_len a + min_len b
  | ROpt _ => 0
  | RGroup _ a => min_len a
  | RBoundary => 0
  | REnd => 0
  end.

(** ** Pairs and the garbage between them *)

(** The characters of [g] are ASCII, and none of them is a word
    character. *)
Definition is_garbage (g : text) : bool :=
  forallb (fun c => is_ascii c && negb (is_word c)) g.

(** What may follow the characters of a value: nothing, whitespace or a
    comma. *)
Definition ends_value (rest : text) : bool :=
  match rest with
  | [] => true
  | c :: _ => is_blank_or_comma c
  end.

(** [g] begins with whitespace or a comma. *)
Definition separated (g : text) : bool := nonempty g && ends_value g.

(** The characters [chars] are read as the value [v], all of them and no
    more, whatever follows the value. *)
Definition reads_as (chars : text) (v : pyval) : Prop :=
  forall rest,
    ends_value rest = true ->
    _parse_value_at (chars ++ rest) 0 = Ok (v, length chars).

(** A pair [key:value] of a document, with the characters in front of
    it. *)
Record pair_text := {
  before : text;
  key : text;
  value_chars : text;
  value : pyval
}.

(** The key is an identifier, the characters of the value are ASCII, do
    not begin or end with whitespace and are read as the value, and what
    stands in front of the pair is garbage. *)
Definition well_formed (p : pair_text) : Prop :=
  is_garbage (before p) = true
  /\ is_identifier (key p) = true
  /\ isascii (value_chars p) = true
  /\ match value_chars p with c :: _ => is_blank c = false | [] => False end
  /\ match last (value_chars p) with Some c => is_space c = false | None => False end
  /\ reads_as (value_chars p) (value p).

Definition render (p : pair_text) : text :=
  before p ++ key p ++ ":" ++ value_chars p.

Definition render_all (ps : list pair_text) : text := concat (map render ps).

(** The dictionary the pairs build, from [result]. *)
Definition assign_all (ps : list pair_text) (result : dict) : dict :=
  fold_left (fun d p => dict_set d (key p) (value p)) ps result.

(** An unquoted value: characters other than whitespace, comma and
    closing delimiters, the first of which does not open a string, an
    object, an array or a tagged object. *)
Definition is_plain_token (tok : text) : bool :=
  match tok with
  | [] => false
  | c :: _ =>
      forallb (cmatch (CNot (CUnion CSpace (COneOf ",}]")))) tok
      && negb (existsb (char_eqb c) ["@"; "{"; "["; dquote; squote]%char)
  end.

(** ** Integers *)

(** The value of the digits [d] read after a prefix of value [acc]. *)
Fixpoint uint_value (d : Decimal.uint) (acc : N) : N :=
  match d with
  | Decimal.Nil => acc
  | Decimal.D0 d => uint_value d (10 * acc)
  | Decimal.D1 d => uint_value d (10 * acc + 1)
  | Decimal.D2 d => uint_value d (10 * acc + 2)
  | Decimal.D3 d => uint_value d (10 * acc + 3)
  | Decimal.D4 d => uint_value d (10 * acc + 4)
  | Decimal.D5 d => uint_value d (10 * acc + 5)
  | Decimal.D6 d => uint_value d (10 * acc + 6)
  | Decimal.D7 d => uint_value d (10 * acc + 7)
  | Decimal.D8 d => uint_value d (10 * acc + 8)
  | Decimal.D9 d => uint_value d (10 * acc + 9)
  end%N.

Definition digits_of (d : Decimal.uint) : text :=
  list_ascii_of_string (NilEmpty.string_of_uint d).

(** ** Escapes *)

(** What [escape] writes for one character. *)
Definition escape_char (c : ascii) : text :=
  if char_eqb c backslash then [backslash; backslash]
  else if char_eqb c dquote then [backslash; dquote]
  else [c].

(** One character with its backslash doubled. *)
Definition double_backslash (c : ascii) : text :=
  if char_eqb c backslash then [backslash; backslash] else [c].

(** ** Flat dictionaries *)

(** A value that the round trip keeps: a boolean, an integer, or an
    ASCII string that the serializer quotes or that, written without
    quotes, is one token that reads as itself. *)
Definition survives (v : pyval) : bool :=
  match v with
  | VBool _ | VInt _ => true
  | VStr s =>
      isascii s
      && (needs_quotes s || (is_plain_token s && eq_str (_parse_value s) s))
  | _ => false
  end.

(** An entry that the round trip keeps. *)
Definition plain_entry (kv : text * pyval) : Prop :=
  is_identifier (fst kv) = true /\ fst kv <> "_type" /\ survives (snd kv) = true.

(** The entries of [d] as pairs of a document: [first_before] in front
    of the first, [other_before] in front of the others, the values as
    [_serialize_value] writes them. *)
Definition as_pairs (builtin_str : pyval -> text) (compact : bool)
    (first_before other_before : text) (d : dict) : list pair_text :=
  match d with
  | [] => []
  | (k, v) :: d' =>
      {| before := first_before; key := k;
         value_chars := _serialize_value builtin_str v 2 compact; value := v |}
      :: map (fun kv =>
                {| before := other_before; key := fst kv;
                   value_chars := _serialize_value builtin_str (snd kv) 2 compact;
                   value := snd kv |}) d'
  end.

(** ** Items of an array *)

(** An item of an array, with the characters in front of it. *)
Record item_text := {
  gap : text;
  item_chars : text;
  item_value : pyval
}.

(** The characters of the item are ASCII, begin with neither
    whitespace nor a comma, do not end with whitespace, and are read as
    the value. *)
Definition well_formed_item (it : item_text) : Prop :=
  isascii (item_chars it) = true
  /\ match item_chars it with
     | c :: _ => is_space c || is_blank_or_comma c = false
     | [] => False
     end
  /\ match last (item_chars it) with Some c => is_space c = false | None => False end
  /\ reads_as (item_chars it) (item_value it).

(** A non-empty run of whitespace and commas. *)
Definition is_separator (g : text) : bool :=
  nonempty g && forallb is_blank_or_comma g.

Definition render_item (it : item_text) : text := gap it ++ item_chars it.

Definition render_items (its : list item_text) : text := concat (map render_item its).

(** ** Entries that are not written *)

Definition is_none (v : pyval) : bool :=
  match v with VNone => true | _ => false end.

(** The dictionary without its entries of value [None]. *)
Definition drop_nones (d : dict) : dict :=
  List.filter (fun kv => negb (is_none (snd kv))) d.

(** ** Generated panels *)

(** The Grafana panel type that [generate_panel] writes for a type of
    the plan. *)
Definition grafana_types : list (text * text) :=
  [ ("bar", "barchart"); ("line", "timeseries"); ("stat", "stat");
    ("table", "table"); ("pie", "piechart"); ("gauge", "gauge");
    ("heatmap", "heatmap"); ("histogram", "histogram");
    ("state_timeline", "state-timeline"); ("status_history", "status-history");
    ("candlestick", "candlestick"); ("trend", "trend"); ("xy", "xychart");
    ("bar_gauge", "bargauge") ].

(** [panel["targets"][0]["rawQueryText"]] *)
Definition raw_query_text (panel : pyval) : option pyval :=
  match panel with
  | VDict p =>
      match dict_get "targets" p with
      | Some (VList (VDict target :: _)) => dict_get "rawQueryText" target
      | _ => None
      end
  | _ => None
  end.

(** The rectangle lies in the grid of 24 columns, on a row of height 8
    that starts at a multiple of 8. *)
Definition in_grid (r : Z * Z * Z * Z) : Prop :=
  let '(x, y, w, h) := r in
  (0 <= x /\ x + w <= 24 /\ (w = 12 \/ w = 24) /\ h = 8 /\ 0 <= y /\ y mod 8 = 0)%Z.

(** ** Layout *)

(** The type that the layout loop reads for a panel spec. *)
Definition layout_type (panel_spec : pyval) : option pyval :=
  match panel_spec with
  | VDict spec =>
      match dict_get_default "viz" panel_spec spec with
      | VDict viz => Some (dict_get_default "type" (VStr "bar") viz)
      | _ => None
      end
  | _ => None
  end.

(** The panel is placed on the full width. *)
Definition is_full_width (panel_spec : pyval) : bool :=
  match layout_type panel_spec with
  | Some t => eq_str t "table" || eq_str t "line"
  | None => false
  end.

Definition row_of (r : Z * Z * Z * Z) : Z := let '(_, y, _, _) := r in y.

(** The identifier that [generate_uid] makes of the UUID [u]. *)
Definition uid_of (u : N) : text := hex_digits 12 ((u mod 2 ^ 128) / 2 ^ 80)%N.

(** The rectangle of the half-width panel number [i]. *)
Definition half_cell (i : nat) : Z * Z * Z * Z :=
  ((12 * Z.of_nat (i mod 2))%Z, (8 * Z.of_nat (i / 2))%Z, 12%Z, 8%Z).

(** The rectangle of the full-width panel number [i]. *)
Definition full_row (i : nat) : Z * Z * Z * Z :=
  (0%Z, (8 * Z.of_nat i)%Z, 24%Z, 8%Z).

(** ** Panels and the specs they are generated from *)

(** [panel_spec.get("viz", panel_spec)], when it is a dictionary *)
Definition spec_viz (panel_spec : pyval) : option dict :=
  match panel_spec with
  | VDict spec =>
      match dict_get_default "viz" panel_spec spec with
      | VDict viz => Some viz
      | _ => None
      end
  | _ => None
  end.

(** [panel_spec.get("sql", "")] *)
Definition spec_sql (panel_spec : pyval) : pyval :=
  match panel_spec with
  | VDict spec => dict_get_default "sql" (VStr []) spec
  | _ => VNone
  end.

(** [panel] is what [generate_panel] returns for the visualization and
    the query of [panel_spec], at some grid position. *)
Definition generated_from (self : DashboardGenerator) (panel_spec panel : pyval)
    : Prop :=
  exists viz grid_pos e,
    spec_viz panel_spec = Some viz
    /\ fst (generate_panel self (VDict viz) (spec_sql panel_spec) grid_pos e) = Ok panel.

Definition is_hex_digit (c : ascii) : bool :=
  existsb (char_eqb c) "0123456789abcdef".

(** The dashboard has a [uid] of twelve hexadecimal digits, and each of
    its panels an [id] from 0 to 999999. *)
Definition well_identified (d : pyval) : Prop :=
  (exists uid,
     field "uid" d = Some (VStr uid)
     /\ length uid = 12 /\ forallb is_hex_digit uid = true)
  /\ Forall (fun panel =>
               exists id, field "id" panel = Some (VInt id)
                          /\ (0 <= id < 1000000)%Z)
       (panels_of d).

(** ** Plans with several panels *)




(** ** Names that the executor lets through *)

(** Nothing, or one newline, is left. *)
Definition at_end (s : text) : bool :=
  match s with
  | [] => true
  | [c] => char_eqb c "010"%char
  | _ => false
  end.

(** The text begins with a word character, and after its leading word
    characters comes the end of the text, or one newline and the
    end. *)
Definition is_name (s : text) : bool :=
  match s with
  | c :: _ => is_word c && at_end (lstrip_with is_word s)
  | [] => false
  end.

(** A database of one table with two rows, whatever the statement. *)
Definition two_rows (sql : pyval) (db : unit) : answer * unit :=
  (Rows ["id"; "name"] [[VInt 1; VStr "a"]; [VInt 2; VStr "b"]], db).

(** ** Substitution *)

(** [re.sub(r, '', s)] on a text whose previous character is [prev],
    for at most [n] matches. *)
Definition sub_from (n : nat) (r : regex) (prev : option ascii) (s : text) : text :=
  let ms := matches_from n false r prev s in
  concat (map (fun sm => fst sm ++ []) ms) ++ after_matches s ms.

(** The pattern of a span between two quotes [q]. *)
Definition quoted_pattern (q : ascii) : regex :=
  RSeq (RLit [q]) (RSeq (RStar (CNot (COneOf [q]))) (RLit [q])).

(** [c in s] *)
Definition has_char (c : ascii) (s : text) : bool := existsb (char_eqb c) s.

(** ** Entries of an object body *)

(** A key stands at the front of [s]: word characters, whitespace, a
    colon. *)
Definition starts_key (s : text) : bool :=
  match s with
  | c :: _ =>
      is_word c
      && match lstrip_with is_space (lstrip_with is_word s) with
         | d :: _ => char_eqb d ":"%char
         | [] => false
         end
  | [] => false
  end.

(** No key stands anywhere in [g]. *)
Fixpoint no_key (g : text) : bool :=
  match g with
  | [] => true
  | _ :: g' => negb (starts_key g) && no_key g'
  end.

(** Characters that [_parse_object_content] does not recognize in front
    of a key: they are ASCII, no key stands among them, and the last of
    them is no word character (it would belong to the key). *)
Definition unrecognized (g : text) : bool :=
  isascii g && no_key g && negb (is_word_opt (last g)).

(** What ends an unquoted value: the end of the text, whitespace, a
    comma, a closing brace or bracket. *)
Definition ends_token (rest : text) : bool :=
  match rest with
  | [] => true
  | c :: _ => is_space c || existsb (char_eqb c) ",}]"
  end.

(** The characters [chars] are read as the value [v], all of them and
    no more, in front of anything that ends an unquoted value. *)
Definition reads_token (chars : text) (v : pyval) : Prop :=
  forall rest,
    ends_token rest = true ->
    _parse_value_at (chars ++ rest) 0 = Ok (v, length chars).

(** The characters [chars] are read as the value [v] whatever follows
    them. *)
Definition reads_always (chars : text) (v : pyval) : Prop :=
  forall rest, _parse_value_at (chars ++ rest) 0 = Ok (v, length chars).

(** An entry of an object body, as the text has it: the characters in
    front of it, the key, the whitespace before the colon, the blanks
    after it, and the characters of the value, with the value they
    stand for. *)
Record entry_text := {
  junk : text;
  entry_key : text;
  before_colon : text;
  after_colon : text;
  entry_chars : text;
  entry_value : pyval
}.

(** Up to the value: unrecognized characters, an identifier, whitespace,
    the colon, blanks; the characters of the value are ASCII. *)
Definition opens_entry (e : entry_text) : Prop :=
  unrecognized (junk e) = true
  /\ is_identifier (entry_key e) = true
  /\ forallb is_space (before_colon e) = true
  /\ forallb is_blank (after_colon e) = true
  /\ isascii (entry_chars e) = true.

(** The value follows: its characters neither begin with a blank nor
    end with whitespace, and are read as the value. *)
Definition valid_entry (e : entry_text) : Prop :=
  opens_entry e
  /\ match entry_chars e with c :: _ => is_blank c = false | [] => False end
  /\ match last (entry_chars e) with Some c => is_space c = false | None => False end
  /\ reads_token (entry_chars e) (entry_value e).

Definition entry_head (e : entry_text) : text :=
  junk e ++ entry_key e ++ before_colon e ++ ":" ++ after_colon e.

Definition render_entry (e : entry_text) : text := entry_head e ++ entry_chars e.

Definition render_entries (es : list entry_text) : text :=
  concat (map render_entry es).

(** The dictionary the entries build, from [result]. *)
Definition assign_entries (es : list entry_text) (result : dict) : dict :=
  fold_left (fun d e => dict_set d (entry_key e) (entry_value e)) es result.

(** Every value is set off from what follows it in the body ([rest] is
    what follows the last entry): it is read whatever follows, or what
    follows ends an unquoted value. *)
Fixpoint set_off (es : list entry_text) (rest : text) : Prop :=
  match es with
  | [] => True
  | e :: es' =>
      (reads_always (entry_chars e) (entry_value e)
       \/ ends_token (render_entries es' ++ rest) = true)
      /\ set_off es' rest
  end.

(** ** Delimiters that are not closed *)





End Props.

(* ================================================================== *)
(** * Properties *)
(* ================================================================== *)

Import Re Validator Toon Serializer Generator Profiler PlanValidator Executor Props.

(** ** Evaluations *)

(** C2.  The round trip fails on a string that looks like a number: the
    document [{a:"123"}] parses to the tree [{"a": "123"}]; the
    serializer writes the string without quotes, in both modes, and
    parsing the result gives [{"a": 123}], an integer. *)
Theorem round_trip_loses_numeric_string :
  forall builtin_str : pyval -> text,
    let x := [("a", VStr "123")] in
    parse_toon ("{a:" ++ [dquote] ++ "123" ++ [dquote] ++ "}") = Ok x
    /\ serialize_document builtin_str (VDict x) 0 true = "{a:123}"
    /\ parse_toon (serialize_document builtin_str (VDict x) 0 true)
       = Ok [("a", VInt 123)]
    /\ parse_toon (serialize_document builtin_str (VDict x) 0 false)
       = Ok [("a", VInt 123)].
Proof.
  intros builtin_str x. subst x. repeat split; vm_compute; reflexivity.
Qed.

(** On the example of the parser's documentation the round trip holds,
    in both modes. *)
Lemma round_trip_example :
  forall builtin_str : pyval -> text,
    let x := [ ("q", VStr "What are delays?"); ("feasible", VBool true);
               ("tables", VList [VStr "shipments"]); ("_type", VStr "plan") ] in
    parse_toon ("@plan{q:" ++ [dquote] ++ "What are delays?" ++ [dquote]
                ++ " feasible:true tables:[shipments]}") = Ok x
    /\ parse_toon (serialize_document builtin_str (VDict x) 0 true) = Ok x
    /\ parse_toon (serialize_document builtin_str (VDict x) 0 false) = Ok x.
Proof.
  intros builtin_str x. subst x. repeat split; vm_compute; reflexivity.
Qed.

(** C3.  The validator knows six panel types only: a panel of any of the
    other eight types of the enumeration, [heatmap] among them, fails
    the panel-type check, although the generator renders it. *)
Theorem heatmap_panel_fails_validation :
  (exists msg,
     validate_visualization
       (VDict [("type", VStr "heatmap"); ("title", VStr "Activity")])
       "SELECT day, hour, count FROM activity_matrix"
     = Raise (ValidationError msg)
     /\ startswith "Invalid visualization type: heatmap. Valid types: " msg = true)
  /\ Forall
       (fun t => is_ok (validate_visualization (VDict [("type", VStr t)]) "SELECT 1")
                 = false)
       [ "heatmap"; "histogram"; "state_timeline"; "status_history";
         "candlestick"; "trend"; "xy"; "bar_gauge" ]
  /\ forall e,
       map_result (field "type")
         (fst (generate_panel test_generator (VDict [("type", VStr "heatmap")])
                 (VStr "SELECT day, hour, count FROM activity_matrix")
                 (grid 0 0 24 8) e))
       = Ok (Some (VStr "heatmap")).
Proof.
  split; [eexists; split; reflexivity|]. split.
  - repeat constructor.
  - intros e. reflexivity.
Qed.

(** Every non-empty type outside the set of the validator is rejected
    with a message that names it, in lower case, and lists the set. *)
Lemma invalid_type_is_named (viz : dict) (t sql : text) :
  dict_get "type" viz = Some (VStr t) ->
  t <> [] ->
  text_in (lower t) valid_types = false ->
  validate_visualization (VDict viz) sql
  = Raise (ValidationError
             ("Invalid visualization type: " ++ lower t
              ++ ". Valid types: " ++ join ", " valid_types)).
Proof.
  intros Ht Hne Hin. unfold validate_visualization, dict_get_default.
  rewrite Ht. cbv zeta. rewrite Hin.
  destruct t as [|c t]; [contradiction|]. reflexivity.
Qed.

(** The six types of the validator pass the panel-type check: a
    failure, if any, is about the axes. *)
Lemma valid_type_passes_type_check (viz : dict) (t sql : text) :
  dict_get "type" viz = Some (VStr t) ->
  text_in (lower t) valid_types = true ->
  validate_visualization (VDict viz) sql = Ok tt
  \/ validate_visualization (VDict viz) sql
     = Raise (ValidationError
                (lower t ++ " chart requires x and/or y axis column specifications")).
Proof.
  intros Ht Hin. unfold validate_visualization, dict_get_default.
  rewrite Ht. cbv zeta. rewrite Hin, andb_false_r.
  destruct (_ && _); [right|left]; reflexivity.
Qed.

(** C4.  With a second occurrence of the column after a comma later in
    the query, the greedy optional group of the pattern runs past the
    select list: the occurrence in GROUP BY is wrapped and the one in
    the select list is left as it was. *)
Theorem bar_rewrite_wraps_group_by_occurrence :
  forall self grid_pos e,
    map_result query_text
      (fst (generate_panel self
              (VDict [("type", VStr "bar"); ("x", VStr "ship_date")])
              (VStr "SELECT ship_date, origin, COUNT(*) FROM shipments GROUP BY origin, ship_date ORDER BY 1")
              grid_pos e))
    = Ok (Some (VStr
        "SELECT ship_date, origin, COUNT(*) FROM shipments GROUP BY origin, strftime(ship_date, '%Y-%m-%d') AS ship_date ORDER BY 1")).
Proof.
  intros self grid_pos e. vm_compute. reflexivity.
Qed.

(** The example of the specification is rewritten as it says. *)
Lemma bar_rewrite_example :
  normalize_time_columns
    (VStr "SELECT ship_date, COUNT(*) FROM shipments GROUP BY ship_date")
    (VStr "ship_date")
  = Ok (VStr
      "SELECT strftime(ship_date, '%Y-%m-%d') AS ship_date, COUNT(*) FROM shipments GROUP BY ship_date").
Proof. vm_compute. reflexivity. Qed.

(** C7.  A half-width panel followed by a table: the row of the
    half-width panel is not closed before the table is placed, and the
    two rectangles overlap. *)
Theorem table_overlaps_half_width_panel :
  forall self title e,
    map_result (fun d => map rectangle (panels_of d))
      (fst (generate_multi_panel_dashboard self
              [panel_of_type "stat"; panel_of_type "table"] title e))
    = Ok [Some (0, 0, 12, 8); Some (0, 0, 24, 8)]%Z
    /\ overlap (0, 0, 12, 8)%Z (0, 0, 24, 8)%Z = true.
Proof.
  intros self title e. split; reflexivity.
Qed.

(** After a table the first half-width panel goes to the right half. *)
Lemma half_width_panel_after_table_goes_right :
  forall self title e,
    map_result (fun d => map rectangle (panels_of d))
      (fst (generate_multi_panel_dashboard self
              [panel_of_type "table"; panel_of_type "stat"; panel_of_type "stat"]
              title e))
    = Ok [Some (0, 0, 24, 8); Some (12, 8, 12, 8); Some (0, 16, 12, 8)]%Z.
Proof. intros self title e. reflexivity. Qed.

(** The widths are as the layout rule says: a table or a line panel
    takes the whole row from the left edge, any other panel a half
    row, left for an even index and right for an odd one, and the row
    is closed after a full-width panel or a right half only. *)
Lemma grid_position_rule (i : nat) (y_pos : Z) (panel_type : pyval) :
  grid_position i y_pos panel_type
  = if eq_str panel_type "table" || eq_str panel_type "line"
    then (grid 0 y_pos 24 8, (y_pos + 8)%Z)
    else if Nat.even i then (grid 0 y_pos 12 8, y_pos)
         else (grid 12 y_pos 12 8, (y_pos + 8)%Z).
Proof.
  unfold grid_position. destruct (_ || _); [reflexivity|].
  destruct (Nat.even i) eqn:E.
  - apply Nat.even_spec in E as [k ->].
    replace ((2 * k) mod 2) with 0; [reflexivity|].
    symmetry. rewrite Nat.mul_comm. apply Nat.Div0.mod_mul.
  - assert (Hodd : Nat.odd i = true) by (rewrite <- Nat.negb_even, E; reflexivity).
    apply Nat.odd_spec in Hodd as [k ->].
    replace ((2 * k + 1) mod 2) with 1; [reflexivity|].
    symmetry. rewrite Nat.add_comm, Nat.mul_comm, Nat.Div0.mod_add. reflexivity.
Qed.

(** ** Basic facts about texts *)

Lemma char_eqb_eq (a b : ascii) : char_eqb a b = true <-> a = b.
Proof. unfold char_eqb. apply Ascii.eqb_eq. Qed.

Lemma char_eqb_refl (a : ascii) : char_eqb a a = true.
Proof. apply char_eqb_eq. reflexivity. Qed.

Lemma text_eqb_eq (a b : text) : text_eqb a b = true <-> a = b.
Proof.
  revert b. induction a as [|x a IH]; intros [|y b]; simpl; try (split; congruence).
  rewrite andb_true_iff, char_eqb_eq, IH. split.
  - intros [-> ->]. reflexivity.
  - intros H. inversion H. auto.
Qed.

Lemma text_eqb_refl (a : text) : text_eqb a a = true.
Proof. apply text_eqb_eq. reflexivity. Qed.

Lemma text_eqb_neq (a b : text) : a <> b -> text_eqb a b = false.
Proof.
  intros H. destruct (text_eqb a b) eqn:E; [|reflexivity].
  apply text_eqb_eq in E. contradiction.
Qed.

Lemma eq_str_false (t : pyval) (k : text) : t <> VStr k -> eq_str t k = false.
Proof.
  intros H. destruct t; simpl; try reflexivity.
  apply text_eqb_neq. intros ->. apply H. reflexivity.
Qed.

(** ** Panel generation *)

(** C6 (amended).  A panel spec whose [type] entry is present and is not
    one of the fourteen known type names is rendered as a plain table
    panel: type [table], options [{showHeader: True}]. *)
Theorem unknown_type_renders_table :
  forall self (panel_spec : dict) sql grid_pos e t,
    dict_get "type" panel_spec = Some t ->
    ~ In t (map VStr known_types) ->
    exists panel,
      fst (generate_panel self (VDict panel_spec) sql grid_pos e) = Ok panel
      /\ field "type" panel = Some (VStr "table")
      /\ field "options" panel = Some (VDict [("showHeader", VBool true)]).
Proof.
  intros self panel_spec sql grid_pos e t Ht Hunknown.
  assert (Hne : forall k, In k known_types -> eq_str t k = false).
  { intros k Hk. apply eq_str_false. intros ->. apply Hunknown.
    apply in_map. exact Hk. }
  unfold generate_panel, dict_get_default. rewrite Ht.
  unfold bindM, generate_panel_id, uuid4, ret, bindM. simpl.
  rewrite (Hne "bar") by (simpl; tauto).
  unfold typed_panel.
  rewrite !Hne by (simpl; tauto).
  eexists. split; [reflexivity|]. split; reflexivity.
Qed.

(** C6 (counterexample).  A panel spec with no [type] entry is not
    rendered as a table: [panel_spec.get(type, bar)] makes it a bar
    chart. *)
Lemma absent_type_renders_bar_chart :
  exists panel,
    fst (generate_panel test_generator (VDict [("title", VStr "Total")])
           (VStr "SELECT 1") (grid 0 0 12 8) counting_uuids) = Ok panel
    /\ field "type" panel = Some (VStr "barchart")
    /\ field "type" panel <> Some (VStr "table").
Proof.
  eexists. split; [vm_compute; reflexivity|]. split; [reflexivity|discriminate].
Qed.

(** Whenever the [type] entry is absent and a panel is returned, it is a
    bar chart. *)
Lemma absent_type_defaults_to_bar :
  forall self (panel_spec : dict) sql grid_pos e panel,
    dict_get "type" panel_spec = None ->
    fst (generate_panel self (VDict panel_spec) sql grid_pos e) = Ok panel ->
    field "type" panel = Some (VStr "barchart").
Proof.
  intros self panel_spec sql grid_pos e panel Ht.
  unfold generate_panel, dict_get_default. rewrite Ht.
  unfold bindM, generate_panel_id, uuid4, ret, bindM. simpl.
  destruct (bar_query panel_spec sql) as [[x_col q]|x]; simpl; [|discriminate].
  intros [= <-]. unfold set_query. simpl. reflexivity.
Qed.

(** ** Random identifiers *)

Lemma without_id_typed_panel (id1 id2 : pyval) (rest : dict) (t : pyval) :
  without_id (VDict (typed_panel (("id", id1) :: rest) t))
  = without_id (VDict (typed_panel (("id", id2) :: rest) t)).
Proof.
  unfold typed_panel, with_type.
  repeat (match goal with |- context [if ?b then _ else _] => destruct b end);
    reflexivity.
Qed.

Lemma generate_panel_up_to_id self panel_spec sql grid_pos (e1 e2 : entropy) :
  map_result without_id (fst (generate_panel self panel_spec sql grid_pos e1))
  = map_result without_id (fst (generate_panel self panel_spec sql grid_pos e2)).
Proof.
  unfold generate_panel. destruct panel_spec; try reflexivity.
  unfold bindM, generate_panel_id, uuid4, ret, bindM. simpl.
  destruct (eq_str _ "bar").
  - simpl. destruct (bar_query items sql) as [[x_col q]|x]; simpl; [|reflexivity].
    reflexivity.
  - simpl. f_equal. apply without_id_typed_panel.
Qed.

Lemma bindR_up_to {A B} (f : A -> A) (gB : B -> B)
    (m : M (result A)) (k1 k2 : A -> M (result B)) (e1 e2 : entropy) :
  map_result f (fst (m e1)) = map_result f (fst (m e2)) ->
  (forall a1 a2 e1' e2', f a1 = f a2 ->
     map_result gB (fst (k1 a1 e1')) = map_result gB (fst (k2 a2 e2'))) ->
  map_result gB (fst (bindR m k1 e1)) = map_result gB (fst (bindR m k2 e2)).
Proof.
  intros Hm Hk. unfold bindR, bindM.
  destruct (m e1) as [r1 e1'], (m e2) as [r2 e2']. simpl in Hm.
  destruct r1 as [a1|x1], r2 as [a2|x2]; simpl in Hm; try discriminate.
  - apply Hk. congruence.
  - unfold ret. simpl. congruence.
Qed.

Lemma layout_loop_up_to_ids self panels :
  forall i y_pos done1 done2 (e1 e2 : entropy),
    map without_id done1 = map without_id done2 ->
    map_result (map without_id) (fst (layout_loop self panels i y_pos done1 e1))
    = map_result (map without_id) (fst (layout_loop self panels i y_pos done2 e2)).
Proof.
  induction panels as [|panel_spec rest IH]; intros i y_pos done1 done2 e1 e2 Hdone.
  - simpl. f_equal. exact Hdone.
  - simpl. destruct panel_spec; try reflexivity.
    destruct (dict_get_default "viz" (VDict items) items); try reflexivity.
    destruct (grid_position i y_pos _) as [grid_pos y_pos'].
    apply (bindR_up_to without_id (map without_id)).
    + apply generate_panel_up_to_id.
    + intros a1 a2 e1' e2' Ha. apply IH.
      rewrite !map_app. simpl. congruence.
Qed.

Lemma without_ids_dashboard_document uid1 uid2 title tags refresh time_from ps1 ps2 :
  map without_id ps1 = map without_id ps2 ->
  without_ids (dashboard_document uid1 title tags refresh time_from ps1)
  = without_ids (dashboard_document uid2 title tags refresh time_from ps2).
Proof.
  intros H. unfold without_ids, dashboard_document, panels_of, field. simpl.
  rewrite H. reflexivity.
Qed.

Lemma multi_panel_up_to_ids self panels title (e1 e2 : entropy) :
  map_result without_ids (fst (generate_multi_panel_dashboard self panels title e1))
  = map_result without_ids (fst (generate_multi_panel_dashboard self panels title e2)).
Proof.
  unfold generate_multi_panel_dashboard. unfold bindM at 1 2.
  unfold generate_uid, bindM, uuid4. cbn [ret fst snd].
  apply (bindR_up_to (map without_id) without_ids).
  - apply layout_loop_up_to_ids. reflexivity.
  - intros a1 a2 e1' e2' Ha. unfold ret. cbn [fst map_result].
    f_equal. apply without_ids_dashboard_document. exact Ha.
Qed.

Lemma generate_dashboard_up_to_ids self plan title (e1 e2 : entropy) :
  map_result without_ids (fst (generate_dashboard self plan title e1))
  = map_result without_ids (fst (generate_dashboard self plan title e2)).
Proof.
  unfold generate_dashboard. destruct plan; try reflexivity.
  destruct (if negb (truthy title) then _ else _) as [title'|x]; [|reflexivity].
  destruct (dict_get_default "viz" (VDict []) items) eqn:Hviz;
    try (unfold bindM at 1 2; unfold generate_uid, bindM, uuid4; cbn [ret fst snd];
         apply (bindR_up_to (map without_id) without_ids);
         [ match goal with
           | |- context [if ?b then _ else _] => destruct b
           end;
           [ apply (bindR_up_to without_id (map without_id));
             [ apply generate_panel_up_to_id
             | intros a1 a2 e1' e2' Ha; simpl; congruence ]
           | reflexivity ]
         | intros a1 a2 e1' e2' Ha; unfold ret; cbn [fst map_result]; f_equal;
           apply without_ids_dashboard_document; exact Ha ]).
  destruct (enrich_all _ _); [apply multi_panel_up_to_ids | reflexivity].
Qed.

(** C9 (amended).  Generation is deterministic up to the random
    identifiers: whatever UUIDs are drawn, two calls of [generate_panel]
    on the same arguments return documents that differ at most in [id],
    two calls of [generate_dashboard] on the same plan return documents
    that differ at most in [uid] and in the [id] of their panels (or
    raise the same exception), and the [id] of a panel is the hash of the
    UUID drawn for it, modulo 1000000. *)
Theorem generation_is_deterministic_up_to_ids :
  forall self,
    (forall panel_spec sql grid_pos e1 e2,
       map_result without_id (fst (generate_panel self panel_spec sql grid_pos e1))
       = map_result without_id (fst (generate_panel self panel_spec sql grid_pos e2)))
    /\ (forall plan title e1 e2,
          map_result without_ids (fst (generate_dashboard self plan title e1))
          = map_result without_ids (fst (generate_dashboard self plan title e2)))
    /\ (forall panel_spec sql grid_pos e,
          map_result (field "id") (fst (generate_panel self panel_spec sql grid_pos e))
          = map_result (fun _ => Some (VInt (Z.abs (hash_uuid (e 0)) mod 1000000)))
              (fst (generate_panel self panel_spec sql grid_pos e))).
Proof.
  intros self. split; [|split].
  - intros. apply generate_panel_up_to_id.
  - intros. apply generate_dashboard_up_to_ids.
  - intros panel_spec sql grid_pos e.
    unfold generate_panel. destruct panel_spec; try reflexivity.
    unfold bindM, generate_panel_id, uuid4, ret, bindM. simpl.
    destruct (eq_str _ "bar").
    + simpl. destruct (bar_query items sql) as [[x_col q]|x]; simpl; [|reflexivity].
      unfold set_query. simpl. reflexivity.
    + simpl. f_equal. unfold typed_panel, with_type.
      repeat (match goal with |- context [if ?b then _ else _] => destruct b end);
        reflexivity.
Qed.

(** C9 (counterexample).  Two successive calls of [generate_panel] with
    the same arguments return different documents: each call draws a
    fresh UUID for the [id]. *)
Lemma two_calls_give_different_ids :
  is_uuid4 (counting_uuids 0) = true
  /\ is_uuid4 (counting_uuids 1) = true
  /\ exists panel1 e' panel2,
       generate_panel test_generator (VDict [("type", VStr "stat")])
         (VStr "SELECT 1") (grid 0 0 12 8) counting_uuids = (Ok panel1, e')
       /\ fst (generate_panel test_generator (VDict [("type", VStr "stat")])
                 (VStr "SELECT 1") (grid 0 0 12 8) e') = Ok panel2
       /\ field "id" panel1 = Some (VInt 131076)
       /\ field "id" panel2 = Some (VInt 131077)
       /\ panel1 <> panel2.
Proof.
  split; [reflexivity|]. split; [reflexivity|].
  eexists _, _, _. split; [reflexivity|]. split; [reflexivity|].
  split; [reflexivity|]. split; [reflexivity|].
  intros H. discriminate H.
Qed.

(** ** The serializer and the caller's dictionary *)

Lemma hdict_get_remove_same (k : text) (items : list (text * hval)) :
  hdict_get k (hdict_remove k items) = None.
Proof.
  unfold hdict_remove. induction items as [|[k' v] items IH]; simpl; [reflexivity|].
  destruct (text_eqb k k') eqn:E; simpl; [exact IH|]. rewrite E. exact IH.
Qed.

Lemma hdict_get_remove_other (k k0 : text) (items : list (text * hval)) :
  k <> k0 -> hdict_get k (hdict_remove k0 items) = hdict_get k items.
Proof.
  intros Hne. unfold hdict_remove.
  induction items as [|[k' v] items IH]; simpl; [reflexivity|].
  destruct (text_eqb k0 k') eqn:E; simpl.
  - apply text_eqb_eq in E. subst k'.
    rewrite (text_eqb_neq k k0) by exact Hne. exact IH.
  - rewrite IH. reflexivity.
Qed.

Lemma hdict_remove_idempotent (k : text) (items : list (text * hval)) :
  hdict_remove k (hdict_remove k items) = hdict_remove k items.
Proof.
  unfold hdict_remove. induction items as [|[k' v] items IH]; simpl; [reflexivity|].
  destruct (text_eqb k k') eqn:E; simpl; [exact IH|]. rewrite E. simpl.
  f_equal. exact IH.
Qed.

(** The tree read from a stored dictionary has an entry exactly where
    the dictionary has one. *)
Lemma snapshot_items_get (f : hval -> option pyval) (k : text)
    (items : list (text * hval)) (d : dict) :
  all_some (map (fun kv => option_map (pair (fst kv)) (f (snd kv))) items) = Some d ->
  dict_get k d = match hdict_get k items with
                 | Some hv => f hv
                 | None => None
                 end.
Proof.
  revert d. induction items as [|[k' hv] items IH]; intros d; simpl.
  - intros [= <-]. reflexivity.
  - destruct (f hv) as [v|] eqn:Hv; simpl; [|discriminate].
    destruct (all_some _) as [d'|] eqn:Hd'; simpl; [|discriminate].
    intros [= <-]. simpl. destruct (text_eqb k k'); [congruence|].
    apply IH. reflexivity.
Qed.

(** ** [_serialize_value] in the shape of the source *)

Lemma serialize_value_list builtin_str arr indent compact :
  _serialize_value builtin_str (VList arr) indent compact
  = _serialize_array builtin_str arr indent compact.
Proof. destruct arr; reflexivity. Qed.

Lemma serialize_value_members builtin_str inner_indent compact d :
  (fix members (d : dict) : list text :=
     match d with
     | [] => []
     | (key, v) :: d' =>
         if text_eqb "_type" key then members d'
         else match v with
              | VNone => members d'
              | _ =>
                  object_part key (_serialize_value builtin_str v inner_indent compact)
                    inner_indent compact
                  :: members d'
              end
     end) d
  = object_parts builtin_str (dict_remove "_type" d) inner_indent compact.
Proof.
  induction d as [|[key v] d IH]; [reflexivity|].
  unfold dict_remove. cbn [List.filter fst].
  destruct (text_eqb "_type" key); cbn [negb]; [exact IH|].
  cbn [object_parts]. destruct v; try exact IH; f_equal; exact IH.
Qed.

Lemma serialize_value_dict builtin_str d indent compact :
  _serialize_value builtin_str (VDict d) indent compact
  = wrap_object builtin_str (dict_get_default "_type" VNone d)
      (_serialize_object builtin_str (dict_remove "_type" d) indent compact)
      indent compact.
Proof.
  cbn [_serialize_value]. rewrite serialize_value_members.
  unfold _serialize_object.
  destruct (dict_remove "_type" d); [destruct compact|]; reflexivity.
Qed.

(** On a tree, [serialize_toon] returns what [_serialize_value] returns:
    the top-level [pop] and the nested [get] build the same text. *)
Lemma serialize_document_value builtin_str data indent compact :
  serialize_document builtin_str data indent compact
  = _serialize_value builtin_str data indent compact.
Proof.
  destruct data; try reflexivity.
  unfold serialize_document. symmetry. apply serialize_value_dict.
Qed.

Lemma wrap_object_untagged builtin_str content indent compact :
  is_tagged (wrap_object builtin_str VNone content indent compact) = false.
Proof. unfold wrap_object. simpl. destruct compact; reflexivity. Qed.

Lemma wrap_object_tagged builtin_str name content indent compact :
  name <> [] ->
  is_tagged (wrap_object builtin_str (VStr name) content indent compact) = true.
Proof.
  intros Hname. unfold wrap_object. simpl.
  destruct name; [contradiction|]. destruct compact; reflexivity.
Qed.

(** C10.  [serialize_toon] mutates its argument.  When the caller's
    dictionary (the object at [l]) has a [_type] entry, then after the
    call the entry is gone from that object, its other entries are as
    they were, and every other object of the store, so every nested
    dictionary with its own [_type], is unchanged.  A first call on a
    dictionary tagged with a non-empty name returns the tagged form; a
    second call leaves the store as it is and never returns the tagged
    form. *)
Theorem serialize_toon_pops_type_tag :
  forall builtin_str recursion_limit (h : heap) (l : loc) items indent compact,
    h !! l = Some (HDict items) ->
    is_Some (hdict_get "_type" items) ->
    let r1 := serialize_toon builtin_str recursion_limit (HRef l) indent compact h in
    let r2 := serialize_toon builtin_str recursion_limit (HRef l) indent compact (fst r1) in
    fst r1 !! l = Some (HDict (hdict_remove "_type" items))
    /\ hdict_get "_type" (hdict_remove "_type" items) = None
    /\ (forall k, k <> "_type" ->
          hdict_get k (hdict_remove "_type" items) = hdict_get k items)
    /\ (forall l', l' <> l -> fst r1 !! l' = h !! l')
    /\ (forall name t1,
          hdict_get "_type" items = Some (HStr name) -> name <> [] ->
          snd r1 = Ok t1 -> is_tagged t1 = true)
    /\ fst r2 = fst r1
    /\ (forall t2, snd r2 = Ok t2 -> is_tagged t2 = false).
Proof.
  intros builtin_str recursion_limit h l items indent compact Hl Htype r1 r2.
  assert (E1 : fst r1 = <[l := HDict (hdict_remove "_type" items)]> h).
  { subst r1. unfold serialize_toon. rewrite Hl. reflexivity. }
  assert (Hl1 : fst r1 !! l = Some (HDict (hdict_remove "_type" items))).
  { rewrite E1. apply lookup_insert_eq. }
  split; [exact Hl1|].
  split; [apply hdict_get_remove_same|].
  split; [intros k Hk; apply hdict_get_remove_other; exact Hk|].
  split; [intros l' Hl'; rewrite E1; apply lookup_insert_ne; congruence|].
  split; [|split].
  - intros name t1 Hname Hne. subst r1. unfold serialize_toon. rewrite Hl. simpl.
    destruct recursion_limit as [|n]; simpl; [discriminate|].
    rewrite Hl.
    destruct (all_some _) as [d|] eqn:Hd; simpl; [|discriminate].
    intros [= <-]. unfold dict_get_default.
    rewrite (snapshot_items_get _ "_type" _ _ Hd), Hname.
    destruct n; apply wrap_object_tagged; exact Hne.
  - subst r2. unfold serialize_toon at 1. rewrite Hl1. simpl.
    rewrite hdict_remove_idempotent, E1. apply insert_insert_eq.
  - intros t2. subst r2. unfold serialize_toon at 1. rewrite Hl1. simpl.
    destruct recursion_limit as [|n]; simpl; [discriminate|].
    rewrite Hl1.
    destruct (all_some _) as [d|] eqn:Hd; simpl; [|discriminate].
    intros [= <-]. unfold dict_get_default.
    rewrite (snapshot_items_get _ "_type" _ _ Hd), hdict_get_remove_same.
    apply wrap_object_untagged.
Qed.

(** A plan whose [viz] entry is a panel object of its own. *)
Lemma serialize_toon_pops_type_tag_witness :
  let h : heap :=
    <[1%positive := HDict [("_type", HStr "plan"); ("viz", HRef 2%positive)]]>
      (<[2%positive := HDict [("_type", HStr "panel"); ("type", HStr "bar")]]> ∅) in
  let r1 := serialize_toon (fun _ => []) 100 (HRef 1%positive) 0 true h in
  let r2 := serialize_toon (fun _ => []) 100 (HRef 1%positive) 0 true (fst r1) in
  snd r1 = Ok "@plan{viz:@panel{type:bar}}"
  /\ snd r2 = Ok "{viz:@panel{type:bar}}"
  /\ fst r1 !! 2%positive = Some (HDict [("_type", HStr "panel"); ("type", HStr "bar")])
  /\ fst r1 !! 1%positive = Some (HDict [("viz", HRef 2%positive)])
  /\ is_tagged "{viz:@panel{type:bar}}" = false.
Proof.
  intros h r1 r2.
  pose proof (serialize_toon_pops_type_tag (fun _ => []) 100 h 1%positive
                [("_type", HStr "plan"); ("viz", HRef 2%positive)] 0 true
                (lookup_insert_eq _ _ _) (ex_intro _ _ eq_refl))
    as (H1 & _ & _ & H4 & _ & _ & H7).
  split; [vm_compute; reflexivity|].
  split; [vm_compute; reflexivity|].
  split; [rewrite H4 by discriminate; vm_compute; reflexivity|].
  split; [exact H1|].
  apply H7. vm_compute. reflexivity.
Defined.

(** A panel of the unknown type [sparkline]. *)
Lemma unknown_type_renders_table_witness :
  exists panel,
    fst (generate_panel test_generator (VDict [("type", VStr "sparkline")])
           (VStr "SELECT 1") (grid 0 0 12 8) counting_uuids) = Ok panel
    /\ field "type" panel = Some (VStr "table")
    /\ field "options" panel = Some (VDict [("showHeader", VBool true)]).
Proof.
  apply (unknown_type_renders_table test_generator [("type", VStr "sparkline")]
           (VStr "SELECT 1") (grid 0 0 12 8) counting_uuids (VStr "sparkline")).
  - reflexivity.
  - simpl. intros H. repeat (destruct H as [H|H]; [discriminate H|]). exact H.
Defined.

(** ** The matcher *)

Lemma last_or_nil prev : last_or prev [] = prev.
Proof. reflexivity. Qed.

Lemma last_or_cons prev c l : last_or prev (c :: l) = last_or (Some c) l.
Proof.
  unfold last_or. destruct l as [|d l]; [reflexivity|].
  rewrite last_cons. destruct (last (d :: l)) eqn:E; [reflexivity|].
  apply last_None in E. discriminate.
Qed.

Lemma last_or_app prev a b : last_or prev (a ++ b) = last_or (last_or prev a) b.
Proof.
  revert prev. induction a as [|c a IH]; intros prev; [reflexivity|].
  simpl. rewrite !last_or_cons. apply IH.
Qed.

Lemma last_or_none l : last_or None l = last l.
Proof. unfold last_or. destruct (last l); reflexivity. Qed.

Lemma lit_app l : forall prev s', lit false l prev (l ++ s') = Some (last_or prev l, s').
Proof.
  induction l as [|c l IH]; intros prev s'; [reflexivity|].
  simpl. unfold char_match. rewrite char_eqb_refl, IH, last_or_cons. reflexivity.
Qed.

Lemma lit_inv l : forall prev s p s',
  lit false l prev s = Some (p, s') -> s = l ++ s' /\ p = last_or prev l.
Proof.
  induction l as [|c l IH]; intros prev s p s'; simpl.
  - intros [= <- <-]. split; reflexivity.
  - destruct s as [|y s]; [discriminate|].
    unfold char_match. destruct (char_eqb c y) eqn:E; [|discriminate].
    apply char_eqb_eq in E. subst y. intros H. apply IH in H as [-> ->].
    rewrite last_or_cons. split; reflexivity.
Qed.

Lemma search_from_some ic r : forall s prev start i m,
  search_from ic r prev start s = Some (i, m) ->
  exists pre suf,
    s = pre ++ suf /\ i = start + length pre
    /\ match_at ic r (last_or prev pre) suf = Some m.
Proof.
  induction s as [|c s IH]; intros prev start i m; simpl.
  - destruct (match_at ic r prev []) eqn:E; [|discriminate].
    intros [= <- <-]. exists [], []. rewrite last_or_nil. simpl. auto with lia.
  - destruct (match_at ic r prev (c :: s)) eqn:E.
    + intros [= <- <-]. exists [], (c :: s). rewrite last_or_nil. simpl. auto with lia.
    + intros H. apply IH in H as (pre & suf & -> & -> & Hm).
      exists (c :: pre), suf. rewrite last_or_cons. simpl. auto with lia.
Qed.

Lemma search_from_none ic r : forall s prev start,
  search_from ic r prev start s = None ->
  forall pre suf, s = pre ++ suf -> match_at ic r (last_or prev pre) suf = None.
Proof.
  induction s as [|c s IH]; intros prev start; simpl.
  - destruct (match_at ic r prev []) eqn:E; [discriminate|].
    intros _ pre suf Hs. symmetry in Hs. apply app_eq_nil in Hs as [-> ->]. exact E.
  - destruct (match_at ic r prev (c :: s)) eqn:E; [discriminate|].
    intros H pre suf Hs. destruct pre as [|d pre].
    + simpl in Hs. subst suf. exact E.
    + simpl in Hs. injection Hs as <- Hs. rewrite last_or_cons.
      apply (IH _ _ H). exact Hs.
Qed.

Lemma is_identifier_head_last k :
  is_identifier k = true ->
  forall prev s, is_word_opt (head (k ++ s)) = true /\ is_word_opt (last_or prev k) = true.
Proof.
  unfold is_identifier. intros H prev s.
  apply andb_true_iff in H as [Hne Hall].
  destruct k as [|c k]; [discriminate|]. split.
  - simpl in *. apply andb_true_iff in Hall as [Hc _]. exact Hc.
  - clear Hne. revert prev c Hall. induction k as [|d k IH]; intros prev c Hall.
    + simpl in *. apply andb_true_iff in Hall as [Hc _]. exact Hc.
    + rewrite last_or_cons. apply IH. simpl in Hall.
      apply andb_true_iff in Hall as [_ Hall]. exact Hall.
Qed.

Lemma keyword_match_at kw prev s :
  is_identifier kw = true ->
  (exists m, match_at false (keyword_pattern kw) prev s = Some m) <->
  is_word_opt prev = false
  /\ exists post, s = kw ++ post /\ is_word_opt (head post) = false.
Proof.
  intros Hkw. unfold match_at, keyword_pattern. simpl. split.
  - intros [m Hm].
    destruct (boundary prev (head s)) eqn:Hb; [|discriminate].
    destruct (lit false kw prev s) as [[p s']|] eqn:Hl; [|discriminate].
    apply lit_inv in Hl as [-> ->].
    destruct (boundary (last_or prev kw) (head s')) eqn:Hb'; [|discriminate].
    destruct (is_identifier_head_last kw Hkw prev s') as [Hh Hlast].
    unfold boundary in Hb, Hb'. rewrite Hh in Hb. rewrite Hlast in Hb'.
    split.
    + destruct (is_word_opt prev); [discriminate|reflexivity].
    + exists s'. split; [reflexivity|].
      destruct (is_word_opt (head s')); [discriminate|reflexivity].
  - intros [Hprev [post [-> Hpost]]].
    destruct (is_identifier_head_last kw Hkw prev post) as [Hh Hlast].
    unfold boundary. rewrite Hh, Hprev. simpl.
    rewrite lit_app, Hlast, Hpost. simpl. eexists. reflexivity.
Qed.

Lemma keyword_search kw s :
  is_identifier kw = true ->
  (exists r, re_search false (keyword_pattern kw) s = Some r) <->
  occurs_at_word_boundary kw s.
Proof.
  intros Hkw. unfold re_search, occurs_at_word_boundary. split.
  - intros [[i m] Hr]. apply search_from_some in Hr as (pre & suf & -> & _ & Hm).
    destruct (proj1 (keyword_match_at kw _ suf Hkw) (ex_intro _ m Hm))
      as [Hprev [post [-> Hpost]]].
    exists pre, post. rewrite last_or_none in Hprev. auto.
  - intros (pre & post & -> & Hpre & Hpost).
    destruct (search_from false (keyword_pattern kw) None 0 (pre ++ kw ++ post)) eqn:E.
    + eexists. reflexivity.
    + exfalso.
      pose proof (search_from_none _ _ _ _ _ E pre (kw ++ post) eq_refl) as Hnone.
      destruct (proj2 (keyword_match_at kw (last_or None pre) (kw ++ post) Hkw)) as [m Hm].
      * rewrite last_or_none. split; [exact Hpre|]. exists post. auto.
      * congruence.
Qed.

(** ** Read-only policy *)

Lemma check_keywords_raises kws s :
  Forall (fun kw => is_identifier kw = true) kws ->
  (exists msg, check_keywords kws s = Raise (ValidationError msg)) <->
  (exists kw, In kw kws /\ occurs_at_word_boundary kw s).
Proof.
  induction kws as [|kw kws IH]; intros Hall; simpl.
  - split; [intros [msg H]; discriminate | intros [kw [[] _]]].
  - inversion Hall as [|? ? Hkw Hrest]; subst.
    destruct (re_search false (keyword_pattern kw) s) as [r|] eqn:E.
    + split; [|intros _; eexists; reflexivity].
      intros _. exists kw. split; [left; reflexivity|].
      apply keyword_search; [exact Hkw|]. exists r. exact E.
    + rewrite (IH Hrest). split.
      * intros [kw' [Hin Hocc]]. exists kw'. auto.
      * intros [kw' [[<-|Hin] Hocc]]; [|exists kw'; auto].
        apply keyword_search in Hocc as [r Hr]; [congruence|exact Hkw].
Qed.

Lemma check_keywords_exn kws s :
  is_ok (check_keywords kws s) = false ->
  exists msg, check_keywords kws s = Raise (ValidationError msg).
Proof.
  induction kws as [|kw kws IH]; simpl; [discriminate|].
  destruct (re_search false (keyword_pattern kw) s); [|exact IH].
  intros _. eexists. reflexivity.
Qed.

(** C1 (amended).  On an ASCII query, [validate_sql_readonly] raises (a
    [ValidationError], nothing else) exactly when the upper-cased query,
    quoted literals included, contains one of the write keywords with no
    word character on either side.  It rejects DROP TABLE x in every
    casing, and it also rejects a SELECT whose only keyword sits inside
    a string literal. *)
Theorem readonly_check_is_lexical :
  (forall sql,
     isascii sql = true ->
     (exists msg, validate_sql_readonly sql = Raise (ValidationError msg)) <->
     (exists kw, In kw WRITE_KEYWORDS /\ occurs_at_word_boundary kw (upper sql)))
  /\ (forall sql,
        is_ok (validate_sql_readonly sql) = false <->
        (exists msg, validate_sql_readonly sql = Raise (ValidationError msg)))
  /\ Forall (fun sql => is_ok (validate_sql_readonly sql) = false)
       [ "DROP TABLE x"; "drop table x"; "Drop Table x";
         "SELECT id FROM t WHERE note = 'update'" ].
Proof.
  split; [|split].
  - intros sql _. unfold validate_sql_readonly. apply check_keywords_raises.
    repeat constructor.
  - intros sql. split.
    + apply check_keywords_exn.
    + intros [msg ->]. reflexivity.
  - repeat constructor.
Qed.

(** The query [Drop Table x]. *)
Lemma readonly_check_is_lexical_witness :
  isascii "Drop Table x" = true
  /\ exists kw,
       In kw WRITE_KEYWORDS /\ occurs_at_word_boundary kw (upper "Drop Table x").
Proof.
  split; [reflexivity|].
  apply (proj1 readonly_check_is_lexical "Drop Table x" eq_refl).
  eexists. reflexivity.
Defined.

(** C1 (counterexample).  The query below has no write keyword once
    its literal is removed, and is rejected all the same: nothing is
    stripped before the scan. *)
Lemma keyword_in_literal_is_rejected :
  let sql := "SELECT id FROM t WHERE note = 'update'" in
  strip_literals sql = "SELECT id FROM t WHERE note = "
  /\ rejects_after_stripping sql = false
  /\ validate_sql_readonly sql
     = Raise (ValidationError
                "SQL contains forbidden keyword: UPDATE. Only SELECT queries are allowed.").
Proof. repeat split; vm_compute; reflexivity. Qed.

(** ** Character classes *)

Ltac by_cases_on_char c :=
  destruct c as [[|] [|] [|] [|] [|] [|] [|] [|]]; vm_compute; congruence.

Lemma is_word_not_space c : is_word c = true -> is_space c = false.
Proof. by_cases_on_char c. Qed.

Lemma is_blank_is_space c : is_blank c = true -> is_space c = true.
Proof. by_cases_on_char c. Qed.

Lemma is_word_not_blank c : is_word c = true -> is_blank c = false.
Proof. by_cases_on_char c. Qed.

Lemma is_word_not_blank_or_comma c : is_word c = true -> is_blank_or_comma c = false.
Proof. by_cases_on_char c. Qed.

Lemma colon_not_word : is_word ":"%char = false.
Proof. reflexivity. Qed.

(** ** Stripping *)

Lemma lstrip_app_keep p u x v :
  p x = false -> lstrip_with p (u ++ x :: v) = lstrip_with p u ++ x :: v.
Proof.
  intros Hx. induction u as [|c u IH]; simpl.
  - rewrite Hx. reflexivity.
  - destruct (p c); [exact IH|reflexivity].
Qed.

Lemma rstrip_app_keep p a x b :
  p x = false -> rstrip_with p (a ++ x :: b) = a ++ x :: rstrip_with p b.
Proof.
  intros Hx. unfold rstrip_with.
  rewrite rev_app_distr. simpl. rewrite <- app_assoc. simpl.
  rewrite (lstrip_app_keep p (rev b) x (rev a) Hx).
  rewrite rev_app_distr. simpl. rewrite rev_involutive, <- app_assoc. reflexivity.
Qed.

Lemma lstrip_suffix p s : exists t, s = t ++ lstrip_with p s.
Proof.
  induction s as [|c s [t IH]]; simpl.
  - exists []. reflexivity.
  - destruct (p c).
    + exists (c :: t). simpl. f_equal. exact IH.
    + exists []. reflexivity.
Qed.

Lemma rstrip_prefix p s : exists t, s = rstrip_with p s ++ t.
Proof.
  unfold rstrip_with. destruct (lstrip_suffix p (rev s)) as [t Ht].
  exists (rev t). rewrite <- rev_app_distr, <- Ht, rev_involutive. reflexivity.
Qed.

Lemma rstrip_In p s x : In x (rstrip_with p s) -> In x s.
Proof.
  intros H. destruct (rstrip_prefix p s) as [t Ht]. rewrite Ht.
  apply in_or_app. left. exact H.
Qed.

Lemma strip_keep c s :
  is_space c = false -> strip (c :: s) = c :: rstrip_with is_space s.
Proof.
  intros Hc. unfold strip. simpl. rewrite Hc.
  apply (rstrip_app_keep is_space [] c s Hc).
Qed.

Lemma rstrip_nil p : rstrip_with p [] = [].
Proof. reflexivity. Qed.

Lemma rstrip_snoc_keep p a x : p x = false -> rstrip_with p (a ++ [x]) = a ++ [x].
Proof. intros Hx. rewrite rstrip_app_keep by exact Hx. reflexivity. Qed.

(** ** Greedy repetition *)

Lemma star_longest {A} ic c (w : text) : forall prev rest (k : option ascii -> text -> option A) res,
  forallb (cls_match ic c) w = true ->
  match rest with x :: _ => cls_match ic c x = false | [] => True end ->
  k (last_or prev w) rest = Some res ->
  star ic c prev (w ++ rest) k = Some res.
Proof.
  induction w as [|a w IH]; intros prev rest k res Hw Hrest Hk; simpl.
  - rewrite last_or_nil in Hk. destruct rest as [|x rest]; simpl; [exact Hk|].
    rewrite Hrest. exact Hk.
  - simpl in Hw. apply andb_true_iff in Hw as [Ha Hw]. rewrite Ha.
    rewrite last_or_cons in Hk. rewrite (IH _ _ _ _ Hw Hrest Hk). reflexivity.
Qed.

Lemma take_app_sub (a b : text) : take (length (a ++ b) - length b) (a ++ b) = a.
Proof.
  rewrite length_app. replace (length a + length b - length b) with (length a) by lia.
  apply take_app_length.
Qed.

Lemma key_match key rest :
  is_identifier key = true ->
  re_match false key_pattern (key ++ ":" ++ rest)
  = Some {| m_text := key ++ ":"; m_groups := [(1, key)]; m_rest := rest |}.
Proof.
  unfold is_identifier. intros H. apply andb_true_iff in H as [Hne Hall].
  destruct key as [|c key]; [discriminate|]. simpl in Hall.
  apply andb_true_iff in Hall as [Hc Hall].
  unfold re_match, match_at, key_pattern.
  cbn [run]. cbn [app]. unfold cls_match at 1. cbn [cmatch]. rewrite Hc.
  erewrite star_longest; [reflexivity|exact Hall|reflexivity|].
  cbn [star app cls_match cmatch]. cbn [lit char_match]. simpl.
  unfold set_group. rewrite length_app. cbn [length].
  replace (S (length key + S (length rest)) - length rest) with (length (c :: key ++ ":"))
    by (cbn [length]; rewrite length_app; simpl; lia).
  replace (length key + S (length rest) - length rest) with (length (c :: key))
    by (simpl; lia).
  replace (c :: key ++ ":"%char :: rest) with ((c :: key ++ ":") ++ rest) at 1
    by (simpl; rewrite <- app_assoc; reflexivity).
  rewrite take_app_length.
  change (c :: key ++ ":"%char :: rest) with ((c :: key) ++ ":"%char :: rest).
  rewrite take_app_length. reflexivity.
Qed.

Lemma key_no_match c s : is_word c = false -> re_match false key_pattern (c :: s) = None.
Proof.
  intros Hc. unfold re_match, match_at, key_pattern. cbn [run].
  unfold cls_match. cbn [cmatch]. rewrite Hc. reflexivity.
Qed.

(** ** Missing delimiters *)

Lemma is_identifier_cons key :
  is_identifier key = true ->
  exists c key', key = c :: key' /\ is_word c = true.
Proof.
  unfold is_identifier. intros H. apply andb_true_iff in H as [Hne Hall].
  destruct key as [|c key']; [discriminate|]. simpl in Hall.
  apply andb_true_iff in Hall as [Hc _]. eauto.
Qed.

Lemma parse_value_at_eq n start s :
  parse_value_at n start s
  = value_at
      (fun content =>
         match n with
         | O => Raise OutOfFuel
         | S n => object_loop n 0 (strip content) []
         end)
      (fun content =>
         match n with
         | O => Raise OutOfFuel
         | S n => array_loop n 0 (strip content) []
         end)
      start s.
Proof. destruct n; reflexivity. Qed.

(** ** Top level *)

Lemma length_snoc_sub {A} (l : list A) (x : A) : length (l ++ [x]) - 1 = length l.
Proof. rewrite length_app. simpl. lia. Qed.

Lemma parse_toon_braces content :
  parse_toon ("{" ++ content ++ "}") = _parse_object_content content.
Proof.
  unfold parse_toon.
  assert (Estrip : strip ("{" ++ content ++ "}") = "{" ++ content ++ "}").
  { cbn [app]. rewrite strip_keep by reflexivity.
    rewrite rstrip_snoc_keep by reflexivity. reflexivity. }
  rewrite Estrip.
  change (re_match false document_pattern ("{" ++ content ++ "}")) with (@None rmatch).
  assert (Hend : endswith "}" ("{" ++ content ++ "}") = true).
  { unfold endswith. rewrite !rev_app_distr. reflexivity. }
  rewrite Hend. cbn [startswith app char_eqb andb].
  change (startswith "{" ("{"%char :: content ++ "}")) with true. cbn iota.
  f_equal. cbn [length]. rewrite Nat.sub_succ, Nat.sub_0_r.
  rewrite length_app, Nat.add_1_r. simpl. rewrite drop_0. apply take_app_length.
Qed.

(** ** Tagged documents *)

(** Greedy repetition gives back one character when the continuation
    fails at the very end and succeeds one character before it. *)
Lemma star_all_but_last {A} ic (w : text) : forall prev x (k : option ascii -> text -> option A) res,
  (forall p, k p [] = None) ->
  k (last_or prev w) [x] = Some res ->
  star ic CAny prev (w ++ [x]) k = Some res.
Proof.
  assert (Hany : forall c, cls_match ic CAny c = true).
  { intros c. unfold cls_match. destruct ic; reflexivity. }
  induction w as [|a w IH]; intros prev x k res Hnil Hk; cbn [app star].
  - rewrite Hany, Hnil. exact Hk.
  - rewrite Hany. rewrite last_or_cons in Hk. rewrite (IH _ _ _ _ Hnil Hk). reflexivity.
Qed.

Lemma document_match tag content :
  is_identifier tag = true -> content <> [] ->
  exists m,
    re_match false document_pattern ("@" ++ tag ++ "{" ++ content ++ "}") = Some m
    /\ group_or_empty (m_groups m) 1 = tag
    /\ group_or_empty (m_groups m) 2 = content.
Proof.
  intros Htag Hcontent.
  unfold is_identifier in Htag. apply andb_true_iff in Htag as [Hne Hall].
  destruct tag as [|t0 tag]; [discriminate|]. cbn [forallb] in Hall.
  apply andb_true_iff in Hall as [Ht0 Hall].
  destruct content as [|c0 content]; [contradiction|].
  unfold re_match, match_at, document_pattern.
  cbn [run lit app]. unfold char_match at 1. cbn [char_eqb]. rewrite char_eqb_refl.
  cbn [lit]. unfold cls_match at 1. cbn [cmatch]. rewrite Ht0.
  erewrite star_longest; [|exact Hall|reflexivity|]; cycle 1.
  - cbn [star app cls_match cmatch lit]. unfold char_match. cbn [char_eqb].
    change (is_space "{") with false. cbn iota.
    rewrite char_eqb_refl. cbn iota.
    apply star_all_but_last; [reflexivity|].
    rewrite char_eqb_refl. reflexivity.
  - eexists. split; [reflexivity|]. cbn [m_groups]. split.
    + unfold group_or_empty, set_group. cbn [group Nat.eqb].
      cbn [length]. rewrite length_app. cbn [length].
      replace (S (length tag + S (S (length (content ++ "}")))) - S (S (length (content ++ "}"))))
        with (length (t0 :: tag)) by (simpl; lia).
      change (t0 :: tag ++ "{"%char :: c0 :: content ++ "}")
        with ((t0 :: tag) ++ "{"%char :: c0 :: content ++ "}").
      rewrite take_app_length. reflexivity.
    + unfold group_or_empty, set_group. cbn [group Nat.eqb].
      cbn [length]. rewrite length_app. cbn [length].
      replace (S (length content + 1) - 1) with (length (c0 :: content)) by (simpl; lia).
      change (c0 :: content ++ "}") with ((c0 :: content) ++ "}").
      rewrite take_app_length. reflexivity.
Qed.

Lemma parse_toon_tagged tag content :
  is_identifier tag = true -> content <> [] ->
  parse_toon ("@" ++ tag ++ "{" ++ content ++ "}")
  = bind (_parse_object_content content)
      (fun result => Ok (dict_set result "_type" (VStr tag))).
Proof.
  intros Htag Hcontent. unfold parse_toon.
  assert (Estrip : strip ("@" ++ tag ++ "{" ++ content ++ "}")
                   = "@" ++ tag ++ "{" ++ content ++ "}").
  { cbn [app]. rewrite strip_keep by reflexivity. f_equal.
    replace (tag ++ "{"%char :: content ++ "}")
      with ((tag ++ "{"%char :: content) ++ "}")
      by (rewrite <- app_assoc; reflexivity).
    apply rstrip_snoc_keep. reflexivity. }
  rewrite Estrip.
  destruct (document_match tag content Htag Hcontent) as (m & -> & -> & ->).
  reflexivity.
Qed.


(** ** What a match consumes *)

Lemma lit_consumes ic l : forall prev s p s',
  lit ic l prev s = Some (p, s') ->
  exists pre, s = pre ++ s' /\ length pre = length l.
Proof.
  induction l as [|c l IH]; intros prev s p s'; simpl.
  - intros [= <- <-]. exists []. split; reflexivity.
  - destruct s as [|y s]; [discriminate|].
    destruct (char_match ic c y); [|discriminate].
    intros H. apply IH in H as (pre & -> & Hlen).
    exists (y :: pre). simpl. auto.
Qed.

Lemma star_consumes {A} ic c : forall s prev (k : option ascii -> text -> option A) res,
  star ic c prev s k = Some res ->
  exists p pre s', s = pre ++ s' /\ k p s' = Some res.
Proof.
  induction s as [|x s IH]; intros prev k res; simpl.
  - intros H. exists prev, [], []. auto.
  - destruct (cls_match ic c x).
    + destruct (star ic c (Some x) s k) as [r|] eqn:E.
      * intros [= <-]. apply IH in E as (p & pre & s' & -> & Hk).
        exists p, (x :: pre), s'. auto.
      * intros H. exists prev, [], (x :: s). auto.
    + intros H. exists prev, [], (x :: s). auto.
Qed.

Lemma run_consumes {A} ic r :
  forall prev s g (k : option ascii -> text -> groups -> option A) res,
    run ic r prev s g k = Some res ->
    exists p pre s' g',
      s = pre ++ s' /\ min_len r <= length pre /\ k p s' g' = Some res.
Proof.
  induction r as [l|c|c|c|a IHa b IHb|a IHa|n a IHa| |];
    intros prev s g k res; cbn [run min_len].
  - destruct (lit ic l prev s) as [[p s']|] eqn:E; [|discriminate].
    intros H. apply lit_consumes in E as (pre & -> & Hlen).
    exists p, pre, s', g. split; [reflexivity|]. split; [lia|exact H].
  - destruct s as [|x s]; [discriminate|].
    destruct (cls_match ic c x); [|discriminate].
    intros H. exists (Some x), [x], s, g. simpl. auto.
  - intros H. apply star_consumes in H as (p & pre & s' & -> & Hk).
    exists p, pre, s', g. split; [reflexivity|]. split; [lia|exact Hk].
  - destruct s as [|x s]; [discriminate|].
    destruct (cls_match ic c x); [|discriminate].
    intros H. apply star_consumes in H as (p & pre & s' & -> & Hk).
    exists p, (x :: pre), s', g. split; [reflexivity|]. split; [simpl; lia|exact Hk].
  - intros H. apply IHa in H as (p1 & pre1 & s1 & g1 & -> & Hlen1 & H).
    apply IHb in H as (p2 & pre2 & s2 & g2 & -> & Hlen2 & H).
    exists p2, (pre1 ++ pre2), s2, g2. rewrite <- app_assoc, length_app.
    split; [reflexivity|]. split; [lia|exact H].
  - destruct (run ic a prev s g k) as [r|] eqn:E.
    + intros [= <-]. apply IHa in E as (p & pre & s' & g' & -> & _ & H).
      exists p, pre, s', g'. split; [reflexivity|]. split; [lia|exact H].
    + intros H. exists prev, [], s, g. split; [reflexivity|]. split; [simpl; lia|exact H].
  - intros H. apply IHa in H as (p & pre & s' & g' & -> & Hlen & H).
    eexists p, pre, s', _. split; [reflexivity|]. split; [exact Hlen|exact H].
  - destruct (boundary prev (head s)); [|discriminate].
    intros H. exists prev, [], s, g. split; [reflexivity|]. split; [simpl; lia|exact H].
  - destruct s as [|c [|d s]].
    + intros H. exists prev, [], [], g. split; [reflexivity|]. split; [simpl; lia|exact H].
    + destruct (char_eqb c "010"%char); [|discriminate].
      intros H. exists prev, [], [c], g. split; [reflexivity|]. split; [simpl; lia|exact H].
    + discriminate.
Qed.

(** A match takes a prefix of the input, of at least [min_len r]
    characters, and leaves the rest. *)
Lemma match_at_consumes ic r prev s m :
  match_at ic r prev s = Some m ->
  s = m_text m ++ m_rest m /\ min_len r <= m_end m.
Proof.
  unfold match_at. intros H.
  apply run_consumes in H as (p & pre & s' & g' & -> & Hlen & [= <-]).
  unfold m_end. cbn [m_text m_rest]. rewrite take_app_sub. auto.
Qed.

(** ** Positions are relative to the start index *)

Lemma find_matching_from_shift opening closing k : forall n s i depth in_string,
  length s <= n ->
  find_matching_from opening closing s (i + k) depth in_string
  = option_map (fun e => e + k) (find_matching_from opening closing s i depth in_string).
Proof.
  induction n as [|n IH]; intros s i depth in_string Hlen.
  - destruct s; [reflexivity|simpl in Hlen; lia].
  - destruct s as [|char s']; [reflexivity|]. simpl in Hlen.
    cbn [find_matching_from].
    replace (i + k + 1) with (i + 1 + k) by lia.
    replace (i + k + 2) with (i + 2 + k) by lia.
    destruct in_string as [string_char|].
    + destruct (char_eqb char backslash && nonempty s').
      * destruct s' as [|c2 s'']; [reflexivity|]. apply IH. simpl in Hlen. lia.
      * destruct (char_eqb char string_char); apply IH; lia.
    + destruct (char_eqb char dquote || char_eqb char squote); [apply IH; lia|].
      destruct (char_eqb char opening); [apply IH; lia|].
      destruct (char_eqb char closing); [|apply IH; lia].
      destruct (depth - 1 =? 0)%Z; [reflexivity|apply IH; lia].
Qed.

Lemma string_end_from_shift quote k : forall n s i,
  length s <= n ->
  string_end_from quote s (i + k) = option_map (fun e => e + k) (string_end_from quote s i).
Proof.
  induction n as [|n IH]; intros s i Hlen.
  - destruct s; [reflexivity|simpl in Hlen; lia].
  - destruct s as [|c s']; [reflexivity|]. simpl in Hlen.
    cbn [string_end_from].
    replace (i + k + 1) with (i + 1 + k) by lia.
    replace (i + k + 2) with (i + 2 + k) by lia.
    destruct (char_eqb c backslash && nonempty s').
    + destruct s' as [|c2 s'']; [reflexivity|]. apply IH. simpl in Hlen. lia.
    + destruct (char_eqb c quote); [reflexivity|apply IH; lia].
Qed.

Lemma find_brace_at_shift k i s e :
  find_brace_at i s = Ok e -> find_brace_at (i + k) s = Ok (e + k).
Proof.
  unfold find_brace_at.
  rewrite (find_matching_from_shift _ _ k (length s)) by lia.
  destruct (find_matching_from _ _ s i 0%Z None); [|discriminate].
  intros [= <-]. reflexivity.
Qed.

Lemma find_bracket_at_shift k i s e :
  find_bracket_at i s = Ok e -> find_bracket_at (i + k) s = Ok (e + k).
Proof.
  unfold find_bracket_at.
  rewrite (find_matching_from_shift _ _ k (length s)) by lia.
  destruct (find_matching_from _ _ s i 0%Z None); [|discriminate].
  intros [= <-]. reflexivity.
Qed.

Lemma find_string_end_at_shift k i s q e :
  find_string_end_at i s q = Ok e -> find_string_end_at (i + k) s q = Ok (e + k).
Proof.
  unfold find_string_end_at.
  replace (i + k + 1) with (i + 1 + k) by lia.
  rewrite (string_end_from_shift _ k (length (drop 1 s))) by lia.
  destruct (string_end_from q (drop 1 s) (i + 1)); [|discriminate].
  intros [= <-]. reflexivity.
Qed.

Lemma bind_ok {A B} (r : result A) (f : A -> result B) b :
  bind r f = Ok b -> exists a, r = Ok a /\ f a = Ok b.
Proof. destruct r as [a|x]; simpl; [eauto|discriminate]. Qed.

(** A value that is read with start index [start] is read, with the
    same number of characters consumed, with any later start index, and
    by any parsers of the inner content that return at least the same
    results. *)
Lemma value_at_ok_shift po pa po' pa' start k s r :
  (forall c d, po c = Ok d -> po' c = Ok d) ->
  (forall c l, pa c = Ok l -> pa' c = Ok l) ->
  value_at po pa start s = Ok r ->
  value_at po' pa' (start + k) s = Ok r.
Proof.
  intros Hpo Hpa. unfold value_at.
  set (ws := span is_blank s).
  replace (start + k + ws) with (start + ws + k) by lia.
  set (i := start + ws).
  destruct (drop ws s) as [|char s'] eqn:Es.
  - intros [= <-]. do 2 f_equal. lia.
  - destruct (if char_eqb char "@" then re_match false tag_pattern (char :: s') else None)
      as [type_match|] eqn:Etag.
    + assert (Hend : 3 <= m_end type_match).
      { destruct (char_eqb char "@"); [|discriminate].
        apply match_at_consumes in Etag as [_ H]. exact H. }
      replace (i + k + m_end type_match - 1) with (i + m_end type_match - 1 + k) by lia.
      intros H. apply bind_ok in H as (e & He & H).
      apply bind_ok in H as (obj & Hobj & [= <-]).
      rewrite (find_brace_at_shift k _ _ _ He). cbn [bind].
      replace (e + k - (i + m_end type_match - 1 + k + 1))
        with (e - (i + m_end type_match - 1 + 1)) by lia.
      rewrite (Hpo _ _ Hobj). cbn [bind]. do 2 f_equal. lia.
    + destruct (char_eqb char "{").
      { intros H. apply bind_ok in H as (e & He & H).
        apply bind_ok in H as (obj & Hobj & [= <-]).
        rewrite (find_brace_at_shift k _ _ _ He). cbn [bind].
        replace (e + k - (i + k + 1)) with (e - (i + 1)) by lia.
        rewrite (Hpo _ _ Hobj). cbn [bind]. do 2 f_equal. lia. }
      destruct (char_eqb char "[").
      { intros H. apply bind_ok in H as (e & He & H).
        apply bind_ok in H as (arr & Harr & [= <-]).
        rewrite (find_bracket_at_shift k _ _ _ He). cbn [bind].
        replace (e + k - (i + k + 1)) with (e - (i + 1)) by lia.
        rewrite (Hpa _ _ Harr). cbn [bind]. do 2 f_equal. lia. }
      destruct (char_eqb char dquote).
      { intros H. apply bind_ok in H as (e & He & [= <-]).
        rewrite (find_string_end_at_shift k _ _ _ _ He). cbn [bind].
        replace (e + k - (i + k + 1)) with (e - (i + 1)) by lia.
        do 2 f_equal. lia. }
      destruct (char_eqb char squote).
      { intros H. apply bind_ok in H as (e & He & [= <-]).
        rewrite (find_string_end_at_shift k _ _ _ _ He). cbn [bind].
        replace (e + k - (i + k + 1)) with (e - (i + 1)) by lia.
        do 2 f_equal. lia. }
      intros H. exact H.
Qed.

(** ** More fuel changes no result *)

Lemma fuel_ok_mono : forall n,
  (forall m start s r, n <= m ->
     parse_value_at n start s = Ok r -> parse_value_at m start s = Ok r)
  /\ (forall m i s acc r, n <= m ->
        object_loop n i s acc = Ok r -> object_loop m i s acc = Ok r)
  /\ (forall m i s acc r, n <= m ->
        array_loop n i s acc = Ok r -> array_loop m i s acc = Ok r).
Proof.
  induction n as [|n (IHv & IHo & IHa)].
  - split; [|split].
    + intros m start s r _. rewrite !parse_value_at_eq.
      replace start with (start + 0) at 2 by lia.
      apply value_at_ok_shift; discriminate.
    + intros m i s acc r _. destruct m; cbn [object_loop];
        destruct (drop (span is_blank s) s); (discriminate || auto).
    + intros m i s acc r _. destruct m; cbn [array_loop];
        destruct (drop (span is_blank s) s); (discriminate || auto).
  - split; [|split].
    + intros m start s r Hm. destruct m as [|m]; [lia|].
      rewrite !parse_value_at_eq.
      replace start with (start + 0) at 2 by lia.
      apply value_at_ok_shift.
      * intros c d. apply IHo. lia.
      * intros c l. apply IHa. lia.
    + intros m i s acc r Hm. destruct m as [|m]; [lia|].
      cbn [object_loop].
      destruct (drop (span is_blank s) s) as [|c s_next]; [auto|].
      destruct (re_match false key_pattern (c :: s_next)) as [key_match0|].
      * intros H. apply bind_ok in H as ([value consumed] & Hv & H).
        rewrite (IHv m _ _ _ ltac:(lia) Hv). cbn [bind].
        apply IHo; [lia|exact H].
      * apply IHo. lia.
    + intros m i s acc r Hm. destruct m as [|m]; [lia|].
      cbn [array_loop].
      destruct (drop (span is_blank s) s) as [|c s_next]; [auto|].
      intros H. apply bind_ok in H as ([value consumed] & Hv & H).
      rewrite (IHv m _ _ _ ltac:(lia) Hv). cbn [bind].
      apply IHa; [lia|exact H].
Qed.

Lemma parse_value_at_more_fuel n m start s r :
  n <= m -> parse_value_at n start s = Ok r -> parse_value_at m start s = Ok r.
Proof. intros Hm. apply (proj1 (fuel_ok_mono n)). exact Hm. Qed.

(** ** Garbage where a key is expected *)

Lemma object_loop_blank n i c s acc :
  is_blank c = true -> object_loop n i (c :: s) acc = object_loop n (i + 1) s acc.
Proof.
  intros Hc. destruct n; cbn [object_loop span]; rewrite Hc;
    replace (i + S (span is_blank s)) with (i + 1 + span is_blank s) by lia;
    reflexivity.
Qed.

Lemma is_garbage_cons c g :
  is_garbage (c :: g) = true -> is_word c = false /\ is_garbage g = true.
Proof.
  unfold is_garbage. simpl. intros H. apply andb_true_iff in H as [Hc Hg].
  apply andb_true_iff in Hc as [_ Hc].
  split; [|exact Hg]. destruct (is_word c); [discriminate|reflexivity].
Qed.

(** A run of garbage in front of [s] is skipped: the loop gives on
    [g ++ s] what it gives on [s]. *)
Lemma object_loop_garbage g : forall n i s acc R,
  is_garbage g = true ->
  length (g ++ s) <= n ->
  (forall n' i', length s <= n' -> object_loop n' i' s acc = Ok R) ->
  object_loop n i (g ++ s) acc = Ok R.
Proof.
  induction g as [|c g IH]; intros n i s acc R Hg Hlen Hs.
  - apply Hs. exact Hlen.
  - apply is_garbage_cons in Hg as [Hc Hg]. cbn [app] in *. simpl in Hlen.
    destruct (is_blank c) eqn:Hb.
    + rewrite object_loop_blank by exact Hb. apply IH; [exact Hg|lia|exact Hs].
    + destruct n as [|n]; [lia|].
      cbn [object_loop span]. rewrite Hb. rewrite drop_0.
      rewrite key_no_match by exact Hc.
      apply IH; [exact Hg|lia|exact Hs].
Qed.

Lemma span_head_false p c s : p c = false -> span p (c :: s) = 0.
Proof. intros H. simpl. rewrite H. reflexivity. Qed.

(** A well-formed pair is read and assigned, and the loop goes on after
    the separators that follow it. *)
Lemma object_loop_pair n i k chars v rest acc R :
  is_identifier k = true ->
  match chars with c :: _ => is_blank c = false | [] => False end ->
  reads_as chars v ->
  ends_value rest = true ->
  length (k ++ ":" ++ chars ++ rest) <= n ->
  (forall n' i', length rest <= n' ->
     object_loop n' i' (drop (span is_blank_or_comma rest) rest) (dict_set acc k v)
     = Ok R) ->
  object_loop n i (k ++ ":" ++ chars ++ rest) acc = Ok R.
Proof.
  intros Hk Hchars Hreads Hrest Hlen Hnext.
  destruct (is_identifier_cons k Hk) as (k0 & k' & Ek & Hk0).
  destruct chars as [|c0 chars']; [contradiction|].
  assert (Hspan : span is_blank (k ++ ":" ++ (c0 :: chars') ++ rest) = 0).
  { rewrite Ek. apply span_head_false. apply is_word_not_blank. exact Hk0. }
  assert (Hcons : exists x xs, k ++ ":" ++ (c0 :: chars') ++ rest = x :: xs).
  { rewrite Ek. eexists _, _. reflexivity. }
  destruct Hcons as (x & xs & Hcons).
  assert (Hlen' : length k + 1 + length ((c0 :: chars') ++ rest) <= n).
  { rewrite !length_app in Hlen. rewrite length_app. simpl in *. lia. }
  destruct n as [|n]; [lia|].
  cbn [object_loop]. rewrite !Hspan, !drop_0.
  rewrite (key_match k ((c0 :: chars') ++ rest) Hk). rewrite Hcons.
  cbn [m_rest m_groups]. unfold group_or_empty. cbn [group Nat.eqb].
  assert (Hspan2 : span is_blank ((c0 :: chars') ++ rest) = 0)
    by (apply span_head_false; exact Hchars).
  rewrite !Hspan2, !drop_0.
  set (i2 := i + 0 + _ + 0).
  assert (Hv : parse_value_at n i2 ((c0 :: chars') ++ rest) = Ok (v, length (c0 :: chars'))).
  { specialize (Hreads rest Hrest). unfold _parse_value_at in Hreads.
    rewrite drop_0 in Hreads.
    apply (parse_value_at_more_fuel (length ((c0 :: chars') ++ rest))); [lia|].
    rewrite parse_value_at_eq in Hreads. rewrite parse_value_at_eq.
    change i2 with (0 + i2).
    apply (value_at_ok_shift _ _ _ _ 0 i2 _ _ (fun _ _ H => H) (fun _ _ H => H) Hreads). }
  rewrite Hv. cbn [bind].
  rewrite drop_app_length.
  apply Hnext. rewrite length_app in Hlen'. lia.
Qed.

Lemma is_garbage_app a b :
  is_garbage (a ++ b) = true <-> is_garbage a = true /\ is_garbage b = true.
Proof. unfold is_garbage. rewrite forallb_app. apply andb_true_iff. Qed.

Lemma is_garbage_drop k g : is_garbage g = true -> is_garbage (drop k g) = true.
Proof.
  intros H. rewrite <- (take_drop k g) in H. apply is_garbage_app in H. tauto.
Qed.

Lemma span_le p s : span p s <= length s.
Proof. induction s as [|c s IH]; simpl; [lia|]. destruct (p c); simpl; lia. Qed.

Lemma span_app_stop p g s :
  match s with c :: _ => p c = false | [] => True end ->
  span p (g ++ s) = span p g.
Proof.
  intros Hs. induction g as [|c g IH]; simpl.
  - destruct s as [|c s]; [reflexivity|]. simpl. rewrite Hs. reflexivity.
  - destruct (p c); [rewrite IH|]; reflexivity.
Qed.

Lemma render_all_cons p ps trailing :
  render_all (p :: ps) ++ trailing
  = before p ++ key p ++ ":" ++ value_chars p ++ (render_all ps ++ trailing).
Proof.
  unfold render_all. cbn [map concat]. unfold render.
  rewrite <- !app_assoc. reflexivity.
Qed.

Lemma ends_value_render_all ps trailing :
  Forall (fun p => well_formed p /\ separated (before p) = true) ps ->
  ends_value trailing = true ->
  ends_value (render_all ps ++ trailing) = true.
Proof.
  intros Hps Ht. destruct ps as [|p ps]; [exact Ht|].
  inversion Hps as [|? ? [_ Hsep] _]; subst.
  rewrite render_all_cons. unfold separated in Hsep.
  destruct (before p) as [|c g]; [discriminate|]. exact Hsep.
Qed.

Lemma object_loop_nil n i acc : object_loop n i [] acc = Ok acc.
Proof. destruct n; reflexivity. Qed.

(** The loop over separated pairs with garbage in front of each, and
    garbage after the last. *)
Lemma object_loop_pairs ps : forall trailing n i acc,
  Forall (fun p => well_formed p /\ separated (before p) = true) ps ->
  is_garbage trailing = true ->
  ends_value trailing = true ->
  length (render_all ps ++ trailing) <= n ->
  object_loop n i
    (drop (span is_blank_or_comma (render_all ps ++ trailing))
       (render_all ps ++ trailing))
    acc
  = Ok (assign_all ps acc).
Proof.
  induction ps as [|p ps IH]; intros trailing n i acc Hps Hg Hend Hlen.
  - cbn [render_all map concat app] in *. cbn [assign_all fold_left].
    rewrite <- (app_nil_r (drop _ trailing)).
    apply object_loop_garbage.
    + apply is_garbage_drop. exact Hg.
    + rewrite app_nil_r, length_drop. lia.
    + intros n' i' _. apply object_loop_nil.
  - inversion Hps as [|? ? [Hwf Hsep] Hps']; subst.
    destruct Hwf as (Hbefore & Hkey & _ & Hfirst & Hlast & Hreads).
    destruct (is_identifier_cons (key p) Hkey) as (k0 & k' & Ek & Hk0).
    rewrite render_all_cons in *.
    rewrite span_app_stop
      by (rewrite Ek; apply is_word_not_blank_or_comma; exact Hk0).
    rewrite drop_app_le by apply span_le.
    apply object_loop_garbage.
    + apply is_garbage_drop. exact Hbefore.
    + rewrite length_app, length_drop. rewrite length_app in Hlen. lia.
    + intros n' i' Hn'. apply (object_loop_pair _ _ _ _ (value p)); try assumption.
      * apply ends_value_render_all; assumption.
      * intros n'' i'' Hn''. cbn [assign_all fold_left].
        apply IH; assumption.
Qed.

(** The rendered pairs end with a character that is not whitespace. *)
Lemma render_all_anchor ps : forall p,
  well_formed p ->
  Forall (fun p => well_formed p /\ separated (before p) = true) ps ->
  exists A y, render_all (p :: ps) = A ++ [y] /\ is_space y = false.
Proof.
  induction ps as [|q ps IH]; intros p Hp Hps.
  - destruct Hp as (_ & _ & _ & _ & Hlast & _).
    destruct (last (value_chars p)) as [y|] eqn:El; [|contradiction].
    apply last_Some in El as [chars' El].
    exists (before p ++ key p ++ ":" ++ chars'), y. split; [|exact Hlast].
    unfold render_all. cbn [map concat]. unfold render. rewrite El, app_nil_r.
    rewrite <- !app_assoc. reflexivity.
  - inversion Hps as [|? ? [Hq _] Hps']; subst.
    destruct (IH q Hq Hps') as (A & y & HA & Hy).
    exists (render p ++ A), y. split; [|exact Hy].
    change (render_all (p :: q :: ps)) with (render p ++ render_all (q :: ps)).
    rewrite HA, app_assoc. reflexivity.
Qed.

Lemma rstrip_garbage trailing :
  is_garbage trailing = true -> ends_value trailing = true ->
  is_garbage (rstrip_with is_space trailing) = true
  /\ ends_value (rstrip_with is_space trailing) = true.
Proof.
  intros Hg Hend. destruct (rstrip_prefix is_space trailing) as [t Ht].
  split.
  - rewrite Ht in Hg. apply is_garbage_app in Hg. tauto.
  - destruct (rstrip_with is_space trailing) as [|x r]; [reflexivity|].
    rewrite Ht in Hend. exact Hend.
Qed.

(** The body of an object made of well-formed pairs with garbage
    around them. *)
Lemma object_content_pairs (first : pair_text) (others : list pair_text)
    (trailing : text) :
  well_formed first ->
  Forall (fun p => well_formed p /\ separated (before p) = true) others ->
  is_garbage trailing = true ->
  ends_value trailing = true ->
  _parse_object_content (render_all (first :: others) ++ trailing)
  = Ok (assign_all (first :: others) []).
Proof.
  intros Hfirst Hothers Hg Hend.
  unfold _parse_object_content.
  pose proof Hfirst as (Hbefore & Hkey & Hascii & Hchars & Hlast & Hreads).
  destruct (is_identifier_cons (key first) Hkey) as (k0 & k' & Ek & Hk0).
  set (first0 := {| before := []; key := key first;
                    value_chars := value_chars first; value := value first |}).
  assert (Hfirst0 : well_formed first0) by (repeat split; assumption).
  destruct (render_all_anchor others first0 Hfirst0 Hothers) as (A & y & HA & Hy).
  destruct (rstrip_garbage trailing Hg Hend) as [Hg' Hend'].
  set (trailing' := rstrip_with is_space trailing) in *.
  set (g := lstrip_with is_space (before first)).
  assert (Hgg : is_garbage g = true).
  { destruct (lstrip_suffix is_space (before first)) as [t Ht].
    rewrite Ht in Hbefore. apply is_garbage_app in Hbefore. tauto. }
  assert (Estrip : strip (render_all (first :: others) ++ trailing)
                   = g ++ render_all (first0 :: others) ++ trailing').
  { unfold strip.
    assert (E1 : render_all (first :: others) ++ trailing
                 = before first ++ render_all (first0 :: others) ++ trailing).
    { rewrite !render_all_cons. reflexivity. }
    rewrite E1.
    assert (E2 : exists x xs, render_all (first0 :: others) ++ trailing = x :: xs
                              /\ is_space x = false).
    { rewrite render_all_cons. cbn [before key first0 app]. rewrite Ek.
      eexists _, _. split; [reflexivity|]. apply is_word_not_space. exact Hk0. }
    destruct E2 as (x & xs & E2 & Hx). rewrite E2.
    rewrite lstrip_app_keep by exact Hx. rewrite <- E2.
    rewrite HA. rewrite <- !app_assoc. cbn [app].
    rewrite (app_assoc _ A), rstrip_app_keep by exact Hy.
    rewrite <- app_assoc. reflexivity. }
  rewrite Estrip. rewrite render_all_cons. cbn [before key value_chars first0 app].
  apply object_loop_garbage; [exact Hgg|lia|].
  intros n' i' Hn'.
  apply (object_loop_pair _ _ _ _ (value first)); try assumption.
  - apply ends_value_render_all; assumption.
  - intros n'' i'' Hn''. cbn [assign_all fold_left].
    apply object_loop_pairs; assumption.
Qed.

Lemma blank_or_comma_cases c :
  is_blank_or_comma c = true ->
  c = " "%char \/ c = "009"%char \/ c = "010"%char \/ c = "013"%char \/ c = ","%char.
Proof.
  destruct c as [[|] [|] [|] [|] [|] [|] [|] [|]]; vm_compute; intros H;
    try discriminate H; auto 6.
Qed.

Lemma ends_value_not_token rest :
  ends_value rest = true ->
  match rest with
  | x :: _ => cls_match false (CNot (CUnion CSpace (COneOf ",}]"))) x = false
  | [] => True
  end.
Proof.
  destruct rest as [|c rest]; [trivial|]. simpl. intros H.
  destruct (blank_or_comma_cases c H) as [->|[->|[->|[->| ->]]]]; reflexivity.
Qed.

Lemma token_match tok rest :
  tok <> [] ->
  forallb (cmatch (CNot (CUnion CSpace (COneOf ",}]")))) tok = true ->
  ends_value rest = true ->
  re_match false token_pattern (tok ++ rest)
  = Some {| m_text := tok; m_groups := [(1, tok)]; m_rest := rest |}.
Proof.
  intros Hne Hall Hrest. destruct tok as [|c tok]; [contradiction|].
  cbn [forallb] in Hall. apply andb_true_iff in Hall as [Hc Hall].
  unfold re_match, match_at, token_pattern. cbn [run app].
  unfold cls_match at 1. rewrite Hc.
  erewrite star_longest;
    [reflexivity|exact Hall|apply ends_value_not_token; exact Hrest|].
  unfold set_group. cbn [length].
  replace (S (length (tok ++ rest)) - length rest) with (length (c :: tok))
    by (rewrite length_app; simpl; lia).
  change (c :: tok ++ rest) with ((c :: tok) ++ rest).
  rewrite take_app_length. reflexivity.
Qed.

(** Every unquoted token is read as the value [_parse_value] gives
    it. *)
Lemma reads_as_plain_token tok :
  is_plain_token tok = true -> reads_as tok (_parse_value tok).
Proof.
  unfold is_plain_token. destruct tok as [|c tok]; [discriminate|].
  intros H. apply andb_true_iff in H as [Hall Hhead].
  intros rest Hrest. unfold _parse_value_at. rewrite drop_0, parse_value_at_eq.
  assert (Hc : is_space c = false).
  { cbn [forallb cmatch] in Hall. apply andb_true_iff in Hall as [Hc _].
    destruct (is_space c); [discriminate|reflexivity]. }
  assert (Hb : is_blank c = false).
  { destruct (is_blank c) eqn:E; [|reflexivity].
    apply is_blank_is_space in E. congruence. }
  cbn [existsb] in Hhead. rewrite !negb_orb in Hhead.
  repeat (apply andb_true_iff in Hhead as [? Hhead]).
  clear Hhead.
  repeat match goal with
         | H : negb _ = true |- _ => apply negb_true_iff in H
         end.
  unfold value_at. cbn [app span]. rewrite Hb, drop_0.
  unfold char_eqb in *.
  repeat match goal with H : Ascii.eqb _ _ = false |- _ => rewrite H; clear H end.
  change (c :: tok ++ rest) with ((c :: tok) ++ rest).
  rewrite token_match; [reflexivity|discriminate|exact Hall|exact Hrest].
Qed.

(** ** The fuel is enough *)

Ltac bound_min :=
  match goal with
  | |- context [Nat.min ?a ?b] =>
      pose proof (Nat.le_min_r a b); pose proof (Nat.le_min_l a b);
      generalize dependent (Nat.min a b); intros; lia
  end.

Lemma find_matching_from_bound opening closing : forall n s i depth in_string e,
  length s <= n ->
  find_matching_from opening closing s i depth in_string = Some e ->
  e < i + length s.
Proof.
  induction n as [|n IH]; intros s i depth in_string e Hlen.
  - destruct s; [discriminate|simpl in Hlen; lia].
  - destruct s as [|char s']; [discriminate|]. simpl in Hlen.
    cbn [find_matching_from length].
    destruct in_string as [string_char|].
    + destruct (char_eqb char backslash && nonempty s').
      * destruct s' as [|c2 s'']; [discriminate|]. simpl in Hlen. cbn [length].
        intros H. apply IH in H; lia.
      * destruct (char_eqb char string_char); intros H; apply IH in H; lia.
    + destruct (char_eqb char dquote || char_eqb char squote);
        [intros H; apply IH in H; lia|].
      destruct (char_eqb char opening); [intros H; apply IH in H; lia|].
      destruct (char_eqb char closing); [|intros H; apply IH in H; lia].
      destruct (depth - 1 =? 0)%Z; [intros [= <-]; lia|intros H; apply IH in H; lia].
Qed.

Lemma find_matching_from_lower opening closing : forall n s i depth in_string e,
  length s <= n ->
  find_matching_from opening closing s i depth in_string = Some e ->
  i <= e.
Proof.
  induction n as [|n IH]; intros s i depth in_string e Hlen.
  - destruct s; [discriminate|simpl in Hlen; lia].
  - destruct s as [|char s']; [discriminate|]. simpl in Hlen.
    cbn [find_matching_from].
    destruct in_string as [string_char|].
    + destruct (char_eqb char backslash && nonempty s').
      * destruct s' as [|c2 s'']; [discriminate|]. simpl in Hlen.
        intros H. apply IH in H; lia.
      * destruct (char_eqb char string_char); intros H; apply IH in H; lia.
    + destruct (char_eqb char dquote || char_eqb char squote);
        [intros H; apply IH in H; lia|].
      destruct (char_eqb char opening); [intros H; apply IH in H; lia|].
      destruct (char_eqb char closing); [|intros H; apply IH in H; lia].
      destruct (depth - 1 =? 0)%Z; [intros [= <-]; lia|intros H; apply IH in H; lia].
Qed.

(** The closing delimiter of a text that begins with the opening one
    lies after it. *)
Lemma find_brace_at_after i s' e : find_brace_at i ("{"%char :: s') = Ok e -> i < e.
Proof.
  unfold find_brace_at. cbn [find_matching_from].
  change (char_eqb "{" dquote || char_eqb "{" squote) with false.
  change (char_eqb "{" "{") with true. cbn iota.
  destruct (find_matching_from _ _ s' (i + 1) _ None) eqn:E; [|discriminate].
  intros [= <-]. apply find_matching_from_lower with (n := length s') in E; lia.
Qed.

Lemma find_bracket_at_after i s' e : find_bracket_at i ("["%char :: s') = Ok e -> i < e.
Proof.
  unfold find_bracket_at. cbn [find_matching_from].
  change (char_eqb "[" dquote || char_eqb "[" squote) with false.
  change (char_eqb "[" "[") with true. cbn iota.
  destruct (find_matching_from _ _ s' (i + 1) _ None) eqn:E; [|discriminate].
  intros [= <-]. apply find_matching_from_lower with (n := length s') in E; lia.
Qed.

Lemma find_brace_at_bound i s e : find_brace_at i s = Ok e -> e < i + length s.
Proof.
  unfold find_brace_at.
  destruct (find_matching_from _ _ s i 0%Z None) eqn:E; [|discriminate].
  intros [= <-]. eapply find_matching_from_bound; [reflexivity|exact E].
Qed.

Lemma find_bracket_at_bound i s e : find_bracket_at i s = Ok e -> e < i + length s.
Proof.
  unfold find_bracket_at.
  destruct (find_matching_from _ _ s i 0%Z None) eqn:E; [|discriminate].
  intros [= <-]. eapply find_matching_from_bound; [reflexivity|exact E].
Qed.

Lemma find_brace_at_exn i s x : find_brace_at i s = Raise x -> x <> OutOfFuel.
Proof.
  unfold find_brace_at. destruct (find_matching_from _ _ _ _ _ _); [discriminate|].
  intros [= <-]. discriminate.
Qed.

Lemma find_bracket_at_exn i s x : find_bracket_at i s = Raise x -> x <> OutOfFuel.
Proof.
  unfold find_bracket_at. destruct (find_matching_from _ _ _ _ _ _); [discriminate|].
  intros [= <-]. discriminate.
Qed.

Lemma find_string_end_at_exn i s q x :
  find_string_end_at i s q = Raise x -> x <> OutOfFuel.
Proof.
  unfold find_string_end_at. destruct (string_end_from _ _ _); [discriminate|].
  intros [= <-]. discriminate.
Qed.

(** [value_at] runs out of fuel only if a parser of an inner content
    does, and an inner content is at least two characters shorter than
    the text it is cut from. *)
Lemma value_at_enough po pa start s :
  (forall c, length c + 2 <= length s -> po c <> Raise OutOfFuel) ->
  (forall c, length c + 2 <= length s -> pa c <> Raise OutOfFuel) ->
  value_at po pa start s <> Raise OutOfFuel.
Proof.
  intros Hpo Hpa. unfold value_at.
  pose proof (length_drop s (span is_blank s)) as Hdrop.
  set (i := start + span is_blank s).
  destruct (drop (span is_blank s) s) as [|char s'] eqn:Es; [discriminate|].
  cbn [length] in Hdrop.
  destruct (if char_eqb char "@" then re_match false tag_pattern (char :: s') else None)
    as [type_match|] eqn:Etag.
  - assert (Hm : char :: s' = m_text type_match ++ m_rest type_match
                 /\ 3 <= m_end type_match).
    { destruct (char_eqb char "@"); [|discriminate].
      apply match_at_consumes in Etag. exact Etag. }
    destruct Hm as [Hm Hend].
    assert (Hlen : m_end type_match + length (m_rest type_match) = S (length s')).
    { change (S (length s')) with (length (char :: s')). rewrite Hm, length_app.
      reflexivity. }
    destruct (find_brace_at _ _) as [e|x] eqn:Ef; cbn [bind].
    + apply find_brace_at_bound in Ef. rewrite length_drop in Ef. cbn [length] in Ef.
      match goal with |- context [po ?c] => assert (Hc : length c + 2 <= length s) end.
      { rewrite length_take, length_drop. cbn [length]. bound_min. }
      specialize (Hpo _ Hc). destruct (po _) as [obj|y]; cbn [bind]; congruence.
    + apply find_brace_at_exn in Ef. congruence.
  - destruct (char_eqb char "{") eqn:Eopen.
    { apply char_eqb_eq in Eopen. subst char.
      destruct (find_brace_at _ _) as [e|x] eqn:Ef; cbn [bind].
      + pose proof (find_brace_at_after _ _ _ Ef) as Hafter.
        apply find_brace_at_bound in Ef. cbn [length] in Ef.
        match goal with |- context [po ?c] => assert (Hc : length c + 2 <= length s) end.
        { rewrite length_take, length_drop. cbn [length]. bound_min. }
        specialize (Hpo _ Hc). destruct (po _) as [obj|y]; cbn [bind]; congruence.
      + apply find_brace_at_exn in Ef. congruence. }
    destruct (char_eqb char "[") eqn:Eopen2.
    { apply char_eqb_eq in Eopen2. subst char.
      destruct (find_bracket_at _ _) as [e|x] eqn:Ef; cbn [bind].
      + pose proof (find_bracket_at_after _ _ _ Ef) as Hafter.
        apply find_bracket_at_bound in Ef. cbn [length] in Ef.
        match goal with |- context [pa ?c] => assert (Hc : length c + 2 <= length s) end.
        { rewrite length_take, length_drop. cbn [length]. bound_min. }
        specialize (Hpa _ Hc). destruct (pa _) as [arr|y]; cbn [bind]; congruence.
      + apply find_bracket_at_exn in Ef. congruence. }
    destruct (char_eqb char dquote).
    { destruct (find_string_end_at _ _ _) as [e|x] eqn:Ef; cbn [bind]; [discriminate|].
      apply find_string_end_at_exn in Ef. congruence. }
    destruct (char_eqb char squote).
    { destruct (find_string_end_at _ _ _) as [e|x] eqn:Ef; cbn [bind]; [discriminate|].
      apply find_string_end_at_exn in Ef. congruence. }
    destruct (re_match false token_pattern (char :: s')); discriminate.
Qed.

Lemma strip_length s : length (strip s) <= length s.
Proof.
  unfold strip.
  destruct (rstrip_prefix is_space (lstrip_with is_space s)) as [t Ht].
  destruct (lstrip_suffix is_space s) as [u Hu].
  rewrite Hu at 2. rewrite Ht at 2. rewrite !length_app. lia.
Qed.

Lemma fuel_enough : forall n,
  (forall start s, length s <= S n -> parse_value_at n start s <> Raise OutOfFuel)
  /\ (forall i s acc, length s <= n -> object_loop n i s acc <> Raise OutOfFuel)
  /\ (forall i s acc, length s <= n -> array_loop n i s acc <> Raise OutOfFuel).
Proof.
  induction n as [|n (IHv & IHo & IHa)].
  - split; [|split].
    + intros start s Hlen. rewrite parse_value_at_eq.
      apply value_at_enough; intros c Hc; lia.
    + intros i s acc Hlen. destruct s; [|simpl in Hlen; lia]. discriminate.
    + intros i s acc Hlen. destruct s; [|simpl in Hlen; lia]. discriminate.
  - split; [|split].
    + intros start s Hlen. rewrite parse_value_at_eq.
      apply value_at_enough; intros c Hc.
      * apply IHo. pose proof (strip_length c). lia.
      * apply IHa. pose proof (strip_length c). lia.
    + intros i s acc Hlen. cbn [object_loop].
      pose proof (length_drop s (span is_blank s)) as Hdrop.
      destruct (drop (span is_blank s) s) as [|c s_next] eqn:Es; [discriminate|].
      cbn [length] in Hdrop.
      destruct (re_match false key_pattern (c :: s_next)) as [key_match0|] eqn:Ek.
      * apply match_at_consumes in Ek as [Hm Hend].
        change (2 <= m_end key_match0) in Hend.
        assert (Hrest : length (m_rest key_match0) + 2 <= S (length s_next)).
        { change (S (length s_next)) with (length (c :: s_next)).
          rewrite Hm, length_app. unfold m_end in Hend. lia. }
        destruct (parse_value_at n _ _) as [[value0 consumed]|x] eqn:Ev; cbn [bind].
        -- apply IHo. rewrite !length_drop. lia.
        -- intros [= ->]. revert Ev. apply IHv. rewrite length_drop. lia.
      * apply IHo. lia.
    + intros i s acc Hlen. cbn [array_loop].
      pose proof (length_drop s (span is_blank s)) as Hdrop.
      destruct (drop (span is_blank s) s) as [|c s_next] eqn:Es; [discriminate|].
      cbn [length] in Hdrop.
      destruct (parse_value_at n _ _) as [[value0 consumed]|x] eqn:Ev; cbn [bind].
      * apply IHa. rewrite !length_drop. cbn [length].
        destruct (0 <? consumed) eqn:E; [apply Nat.ltb_lt in E|]; lia.
      * intros [= ->]. revert Ev. apply IHv. cbn [length]. lia.
Qed.

(** The parser never stops for lack of fuel: what [parse_toon] returns
    is a tree or a [ToonParseError] of the source. *)
Theorem parse_toon_total (t : text) : parse_toon t <> Raise OutOfFuel.
Proof.
  assert (Hobj : forall content, _parse_object_content content <> Raise OutOfFuel).
  { intros content. unfold _parse_object_content.
    apply (proj1 (proj2 (fuel_enough _))). reflexivity. }
  unfold parse_toon.
  destruct (re_match false document_pattern (strip t)).
  - specialize (Hobj (group_or_empty (m_groups r) 2)).
    destruct (_parse_object_content _); cbn [bind]; congruence.
  - destruct (startswith "{" (strip t) && endswith "}" (strip t));
      [apply Hobj|discriminate].
Qed.

Lemma parse_value_at_total (t : text) (start : nat) :
  _parse_value_at t start <> Raise OutOfFuel.
Proof.
  unfold _parse_value_at. apply (proj1 (fuel_enough _)).
  rewrite length_drop. lia.
Qed.

(** ** Where the delimiter searches stop *)

Lemma find_matching_from_closing opening closing : forall s i depth in_string e,
  find_matching_from opening closing s i depth in_string = Some e ->
  i <= e /\ s !! (e - i) = Some closing.
Proof.
  intros s. remember (length s) as n eqn:Hn.
  assert (Hlen : length s <= n) by lia. clear Hn. revert s Hlen.
  induction n as [|n IH]; intros s Hlen i depth in_string e.
  - destruct s; [discriminate|simpl in Hlen; lia].
  - destruct s as [|char s']; [discriminate|]. simpl in Hlen.
    cbn [find_matching_from].
    assert (Hstep : forall d st,
              find_matching_from opening closing s' (i + 1) d st = Some e ->
              i <= e /\ (char :: s') !! (e - i) = Some closing).
    { intros d st H. apply IH in H as [Hle Hat]; [|lia]. split; [lia|].
      replace (e - i) with (S (e - (i + 1))) by lia. exact Hat. }
    destruct in_string as [string_char|].
    + destruct (char_eqb char backslash && nonempty s').
      * destruct s' as [|c2 s'']; [discriminate|]. simpl in Hlen.
        intros H. apply IH in H as [Hle Hat]; [|lia]. split; [lia|].
        replace (e - i) with (S (S (e - (i + 2)))) by lia. exact Hat.
      * destruct (char_eqb char string_char); apply Hstep.
    + destruct (char_eqb char dquote || char_eqb char squote); [apply Hstep|].
      destruct (char_eqb char opening); [apply Hstep|].
      destruct (char_eqb char closing) eqn:Hc; [|apply Hstep].
      destruct (depth - 1 =? 0)%Z; [|apply Hstep].
      intros [= <-]. split; [lia|]. rewrite Nat.sub_diag. simpl.
      apply char_eqb_eq in Hc. congruence.
Qed.

Lemma lookup_drop_sub {A} (t : list A) start e :
  start <= e -> drop start t !! (e - start) = t !! e.
Proof. intros H. rewrite lookup_drop. f_equal. lia. Qed.

(** The index that [_find_matching_brace] and [_find_matching_bracket]
    return lies in the text, not before [start], and holds the closing
    delimiter; it lies after [start] when the text has the opening
    delimiter there. *)
Theorem find_matching_returns_closing :
  forall t start e,
    (_find_matching_brace t start = Ok e ->
     start <= e < length t /\ t !! e = Some "}"%char
     /\ (t !! start = Some "{"%char -> start < e))
    /\ (_find_matching_bracket t start = Ok e ->
        start <= e < length t /\ t !! e = Some "]"%char
        /\ (t !! start = Some "["%char -> start < e)).
Proof.
  intros t start e. split.
  - unfold _find_matching_brace. intros H.
    pose proof (find_brace_at_bound _ _ _ H) as Hb.
    assert (Hat : start <= e /\ drop start t !! (e - start) = Some "}"%char).
    { unfold find_brace_at in H.
      destruct (find_matching_from _ _ _ _ _ _) eqn:E; [|discriminate].
      injection H as <-. eapply find_matching_from_closing. exact E. }
    destruct Hat as [Hle Hat]. rewrite lookup_drop_sub in Hat by exact Hle.
    apply lookup_lt_Some in Hat as Hlt. repeat split; try lia; [exact Hat|].
    intros Hstart. destruct (drop start t) as [|c s'] eqn:Ed.
    { apply (f_equal length) in Ed. rewrite length_drop in Ed. simpl in Ed.
      apply lookup_lt_Some in Hstart. lia. }
    assert (c = "{"%char) as ->.
    { pose proof (lookup_drop t start 0) as Hl. rewrite Ed, Nat.add_0_r in Hl.
      simpl in Hl. unfold text in *. rewrite Hstart in Hl. injection Hl as ->.
      reflexivity. }
    eapply find_brace_at_after. exact H.
  - unfold _find_matching_bracket. intros H.
    pose proof (find_bracket_at_bound _ _ _ H) as Hb.
    assert (Hat : start <= e /\ drop start t !! (e - start) = Some "]"%char).
    { unfold find_bracket_at in H.
      destruct (find_matching_from _ _ _ _ _ _) eqn:E; [|discriminate].
      injection H as <-. eapply find_matching_from_closing. exact E. }
    destruct Hat as [Hle Hat]. rewrite lookup_drop_sub in Hat by exact Hle.
    apply lookup_lt_Some in Hat as Hlt. repeat split; try lia; [exact Hat|].
    intros Hstart. destruct (drop start t) as [|c s'] eqn:Ed.
    { apply (f_equal length) in Ed. rewrite length_drop in Ed. simpl in Ed.
      apply lookup_lt_Some in Hstart. lia. }
    assert (c = "["%char) as ->.
    { pose proof (lookup_drop t start 0) as Hl. rewrite Ed, Nat.add_0_r in Hl.
      simpl in Hl. unfold text in *. rewrite Hstart in Hl. injection Hl as ->.
      reflexivity. }
    eapply find_bracket_at_after. exact H.
Qed.

Lemma string_end_from_quote quote : forall s i e,
  string_end_from quote s i = Some e ->
  i <= e /\ s !! (e - i) = Some quote.
Proof.
  intros s. remember (length s) as n eqn:Hn.
  assert (Hlen : length s <= n) by lia. clear Hn. revert s Hlen.
  induction n as [|n IH]; intros s Hlen i e.
  - destruct s; [discriminate|simpl in Hlen; lia].
  - destruct s as [|c s']; [discriminate|]. simpl in Hlen.
    cbn [string_end_from].
    destruct (char_eqb c backslash && nonempty s').
    + destruct s' as [|c2 s'']; [discriminate|]. simpl in Hlen.
      intros H. apply IH in H as [Hle Hat]; [|lia]. split; [lia|].
      replace (e - i) with (S (S (e - (i + 2)))) by lia. exact Hat.
    + destruct (char_eqb c quote) eqn:Hc.
      * intros [= <-]. split; [lia|]. rewrite Nat.sub_diag. simpl.
        apply char_eqb_eq in Hc. congruence.
      * intros H. apply IH in H as [Hle Hat]; [|lia]. split; [lia|].
        replace (e - i) with (S (e - (i + 1))) by lia. exact Hat.
Qed.

(** The index that [_find_string_end] returns lies after [start], in
    the text, and holds the quote character. *)
Theorem find_string_end_returns_quote :
  forall t start quote e,
    _find_string_end t start quote = Ok e ->
    start < e < length t /\ t !! e = Some quote.
Proof.
  intros t start quote e. unfold _find_string_end, find_string_end_at.
  destruct (string_end_from _ _ _) eqn:E; [|discriminate]. intros [= <-].
  apply string_end_from_quote in E as [Hle Hat].
  rewrite drop_drop in Hat. unfold text in *.
  rewrite (lookup_drop t (start + 1)) in Hat.
  replace (start + 1 + (n - (start + 1))) with n in Hat by lia.
  apply lookup_lt_Some in Hat as Hlt. repeat split; try lia. exact Hat.
Qed.

Lemma find_string_end_returns_quote_witness :
  _find_string_end ("k:" ++ [dquote] ++ "a b" ++ [dquote] ++ " x") 2 dquote = Ok 6
  /\ 2 < 6 < length ("k:" ++ [dquote] ++ "a b" ++ [dquote] ++ " x")
  /\ ("k:" ++ [dquote] ++ "a b" ++ [dquote] ++ " x") !! 6 = Some dquote.
Proof.
  split; [reflexivity|].
  apply (find_string_end_returns_quote _ 2 dquote 6). reflexivity.
Defined.

Lemma find_matching_returns_closing_witness :
  (2 <= 12 < length "x {a:{b:1} c} y" /\ "x {a:{b:1} c} y" !! 12 = Some "}"%char
   /\ ("x {a:{b:1} c} y" !! 2 = Some "{"%char -> 2 < 12))
  /\ (0 <= 8 < length "[1,[2],3]" /\ "[1,[2],3]" !! 8 = Some "]"%char
      /\ ("[1,[2],3]" !! 0 = Some "["%char -> 0 < 8)).
Proof.
  split.
  - apply (proj1 (find_matching_returns_closing "x {a:{b:1} c} y" 2 12)). reflexivity.
  - apply (proj2 (find_matching_returns_closing "[1,[2],3]" 0 8)). reflexivity.
Defined.

(** ** Stripping *)

Lemma lstrip_all p ws s :
  forallb p ws = true -> lstrip_with p (ws ++ s) = lstrip_with p s.
Proof.
  induction ws as [|c ws IH]; simpl; [reflexivity|].
  intros H. apply andb_true_iff in H as [Hc Hws]. rewrite Hc. exact (IH Hws).
Qed.

Lemma rstrip_all p s ws :
  forallb p ws = true -> rstrip_with p (s ++ ws) = rstrip_with p s.
Proof.
  intros H. unfold rstrip_with. rewrite rev_app_distr, lstrip_all; [reflexivity|].
  rewrite forallb_forall in *. intros x Hx. apply H. apply in_rev. exact Hx.
Qed.

Lemma lstrip_decompose p s :
  exists w, s = w ++ lstrip_with p s /\ forallb p w = true
            /\ match lstrip_with p s with c :: _ => p c = false | [] => True end.
Proof.
  induction s as [|c s (w & Hs & Hw & Hh)]; simpl.
  - exists []. repeat split.
  - destruct (p c) eqn:Hc.
    + exists (c :: w). simpl. rewrite Hc, Hw. repeat split; [f_equal; exact Hs|exact Hh].
    + exists []. repeat split. exact Hc.
Qed.

Lemma rstrip_decompose p s :
  exists w, s = rstrip_with p s ++ w /\ forallb p w = true
            /\ match last (rstrip_with p s) with Some c => p c = false | None => True end.
Proof.
  unfold rstrip_with. destruct (lstrip_decompose p (rev s)) as (w & Hs & Hw & Hh).
  exists (rev w). split; [|split].
  - rewrite <- rev_app_distr, <- Hs, rev_involutive. reflexivity.
  - rewrite forallb_forall in *. intros x Hx. apply Hw. apply in_rev. exact Hx.
  - destruct (lstrip_with p (rev s)) as [|c l]; [exact I|].
    simpl. rewrite last_snoc. exact Hh.
Qed.

(** Whitespace around a text does not change what [strip] returns. *)
Lemma strip_surrounded pre s post :
  forallb is_space pre = true -> forallb is_space post = true ->
  strip (pre ++ s ++ post) = strip s.
Proof.
  intros Hpre Hpost. unfold strip. rewrite lstrip_all by exact Hpre.
  destruct (lstrip_decompose is_space s) as (w & Hs & Hw & Hh).
  destruct (lstrip_with is_space s) as [|c m] eqn:E.
  - rewrite app_nil_r in Hs. subst w.
    replace (lstrip_with is_space (s ++ post)) with (@nil ascii); [reflexivity|].
    symmetry. rewrite lstrip_all by exact Hw.
    rewrite <- (app_nil_r post). rewrite lstrip_all by exact Hpost. reflexivity.
  - rewrite Hs at 1. rewrite <- app_assoc, lstrip_all by exact Hw.
    cbn [app lstrip_with]. rewrite Hh.
    change (c :: m ++ post) with ((c :: m) ++ post).
    apply rstrip_all. exact Hpost.
Qed.

Lemma strip_idempotent s : strip (strip s) = strip s.
Proof.
  destruct (lstrip_decompose is_space s) as (w & Hs & Hw & Hh).
  destruct (rstrip_decompose is_space (lstrip_with is_space s)) as (w' & Hs' & Hw' & _).
  fold (strip s) in Hs'.
  rewrite <- (strip_surrounded w (strip s) w' Hw Hw').
  rewrite <- Hs', <- Hs. reflexivity.
Qed.

(** ** Documents *)

(** Whitespace around a document is ignored. *)
Theorem parse_toon_ignores_surrounding_whitespace :
  forall pre t post,
    forallb is_space pre = true ->
    forallb is_space post = true ->
    parse_toon (pre ++ t ++ post) = parse_toon t.
Proof.
  intros pre t post Hpre Hpost. unfold parse_toon.
  rewrite strip_surrounded by assumption. reflexivity.
Qed.

Lemma parse_toon_ignores_surrounding_whitespace_witness :
  parse_toon (" " ++ "{a:1}" ++ ["010"%char]) = parse_toon "{a:1}".
Proof.
  apply (parse_toon_ignores_surrounding_whitespace " " "{a:1}" ["010"%char]);
    reflexivity.
Defined.

Lemma parse_value_strip t : _parse_value (strip t) = _parse_value t.
Proof. unfold _parse_value. rewrite strip_idempotent. reflexivity. Qed.

Lemma document_no_match t :
  match t with c :: _ => c <> "@"%char | [] => True end ->
  re_match false document_pattern t = None.
Proof.
  intros H. unfold re_match, match_at, document_pattern. cbn [run lit].
  destruct t as [|c t]; [reflexivity|].
  unfold char_match. destruct (char_eqb "@" c) eqn:E; [|reflexivity].
  apply char_eqb_eq in E. congruence.
Qed.

Lemma dict_get_set_same d k v : dict_get k (dict_set d k v) = Some v.
Proof.
  induction d as [|[k' v'] d IH]; simpl.
  - rewrite text_eqb_refl. reflexivity.
  - destruct (text_eqb k k') eqn:E; simpl; rewrite E; [reflexivity|exact IH].
Qed.

Lemma dict_get_set_other d k k0 v :
  k <> k0 -> dict_get k (dict_set d k0 v) = dict_get k d.
Proof.
  intros Hne. induction d as [|[k' v'] d IH]; simpl.
  - rewrite (text_eqb_neq k k0) by exact Hne. reflexivity.
  - destruct (text_eqb k0 k') eqn:E; simpl.
    + apply text_eqb_eq in E. subst k'.
      rewrite (text_eqb_neq k k0) by exact Hne. reflexivity.
    + rewrite IH. reflexivity.
Qed.

(** The result of a tagged document holds the tag under [_type],
    whatever the body says about [_type], and the entries of the body
    under every other key. *)
Theorem tagged_document_carries_its_tag :
  forall tag content d,
    is_identifier tag = true ->
    content <> [] ->
    parse_toon ("@" ++ tag ++ "{" ++ content ++ "}") = Ok d ->
    dict_get "_type" d = Some (VStr tag)
    /\ exists body,
         _parse_object_content content = Ok body
         /\ forall k, k <> "_type" -> dict_get k d = dict_get k body.
Proof.
  intros tag content d Htag Hcontent. rewrite parse_toon_tagged by assumption.
  destruct (_parse_object_content content) as [body|x]; [|discriminate].
  cbn [bind]. intros [= <-]. split; [apply dict_get_set_same|].
  exists body. split; [reflexivity|]. intros k Hk. apply dict_get_set_other. exact Hk.
Qed.

Lemma tagged_document_carries_its_tag_witness :
  dict_get "_type" [("_type", VStr "plan"); ("a", VInt 1)] = Some (VStr "plan")
  /\ exists body,
       _parse_object_content "_type:query a:1" = Ok body
       /\ forall k, k <> "_type" ->
            dict_get k [("_type", VStr "plan"); ("a", VInt 1)] = dict_get k body.
Proof.
  apply (tagged_document_carries_its_tag "plan" "_type:query a:1").
  - reflexivity.
  - discriminate.
  - reflexivity.
Defined.

(** ** Integers *)

Lemma uint_value_of_lu d : forall d',
  DecimalPos.Unsigned.of_lu (Decimal.revapp d d') = uint_value d (DecimalPos.Unsigned.of_lu d').
Proof.
  induction d; intros d'; simpl; try reflexivity; rewrite IHd; simpl DecimalPos.Unsigned.of_lu;
    f_equal; lia.
Qed.

Lemma uint_value_to_uint p : uint_value (Pos.to_uint p) 0 = Npos p.
Proof.
  rewrite <- DecimalPos.Unsigned.of_to, DecimalPos.Unsigned.of_uint_alt. unfold Decimal.rev.
  rewrite uint_value_of_lu. reflexivity.
Qed.

Lemma int_digits_digits d : forall acc b,
  int_digits (digits_of d) (Z.of_N acc) b
  = match d with
    | Decimal.Nil => if b then Some (Z.of_N acc) else None
    | _ => Some (Z.of_N (uint_value d acc))
    end.
Proof.
  unfold digits_of.
  induction d; intros acc b;
    cbn [NilEmpty.string_of_uint list_ascii_of_string uint_value];
    [reflexivity|..];
    cbn [int_digits];
    match goal with
    | |- context [is_digit ?c] => change (is_digit c) with true
    end; cbn iota;
    match goal with
    | |- context [digit_value ?c] =>
        let v := eval vm_compute in (digit_value c) in
        change (digit_value c) with v
    end;
    match goal with
    | |- int_digits _ ?z true = Some (Z.of_N (uint_value _ ?n)) =>
        replace z with (Z.of_N n) by lia
    end;
    rewrite IHd; destruct d; reflexivity.
Qed.

Lemma digits_of_digits d : forallb is_digit (digits_of d) = true.
Proof. unfold digits_of. induction d; simpl; auto. Qed.

Lemma digits_of_nonempty d : d <> Decimal.Nil -> digits_of d <> [].
Proof. unfold digits_of. destruct d; simpl; congruence. Qed.

Lemma is_digit_not_space c : is_digit c = true -> is_space c = false.
Proof.
  destruct c as [[|] [|] [|] [|] [|] [|] [|] [|]]; vm_compute; congruence.
Qed.

(** A text that neither begins nor ends with whitespace is its own
    [strip]. *)
Lemma strip_fixed s :
  match s with c :: _ => is_space c = false | [] => True end ->
  match last s with Some c => is_space c = false | None => True end ->
  strip s = s.
Proof.
  intros Hhead Hlast. destruct s as [|c m]; [reflexivity|].
  rewrite strip_keep by exact Hhead. f_equal.
  destruct (rstrip_decompose is_space m) as (w & Hm & Hw & _).
  destruct w as [|x w]; [rewrite app_nil_r in Hm; congruence|].
  exfalso. rewrite Hm in Hlast.
  change (c :: rstrip_with is_space m ++ x :: w)
    with ((c :: rstrip_with is_space m) ++ x :: w) in Hlast.
  destruct (exists_last (l := x :: w)) as (w' & y & Ew); [discriminate|].
  rewrite Ew, app_assoc, last_snoc in Hlast.
  assert (Hy : In y (x :: w)) by (rewrite Ew; apply in_or_app; right; left; reflexivity).
  rewrite forallb_forall in Hw. rewrite (Hw y Hy) in Hlast. discriminate.
Qed.

Lemma strip_digits s : forallb is_digit s = true -> strip s = s.
Proof.
  intros H. rewrite forallb_forall in H. apply strip_fixed.
  - destruct s as [|c m]; [exact I|]. apply is_digit_not_space, H. left. reflexivity.
  - destruct (last s) as [c|] eqn:E; [|exact I].
    apply is_digit_not_space, H. apply last_Some in E as [l' ->].
    apply in_or_app. right. left. reflexivity.
Qed.

Lemma strip_minus_digits s :
  forallb is_digit s = true -> strip ("-"%char :: s) = "-"%char :: s.
Proof.
  intros H. rewrite forallb_forall in H. apply strip_fixed; [reflexivity|].
  destruct (last ("-"%char :: s)) as [c|] eqn:E; [|exact I].
  destruct s as [|x s']; [injection E as <-; reflexivity|].
  rewrite last_cons_cons in E. apply is_digit_not_space, H.
  apply last_Some in E as [l' ->]. apply in_or_app. right. left. reflexivity.
Qed.

Lemma parse_value_digits s z :
  s <> [] -> forallb is_digit s = true ->
  int_digits s 0%Z false = Some z ->
  _parse_value s = VInt z.
Proof.
  intros Hne Hall Hz. unfold _parse_value, py_int.
  rewrite !strip_digits by exact Hall.
  destruct s as [|c s']; [contradiction|]. cbn [forallb] in Hall.
  apply andb_true_iff in Hall as [Hc _].
  destruct c as [[|] [|] [|] [|] [|] [|] [|] [|]]; try discriminate Hc;
    cbn [text_eqb char_eqb Ascii.eqb Bool.eqb andb orb]; rewrite Hz; reflexivity.
Qed.

Lemma parse_value_minus_digits s z :
  s <> [] -> forallb is_digit s = true ->
  int_digits s 0%Z false = Some z ->
  _parse_value ("-"%char :: s) = VInt (- z).
Proof.
  intros Hne Hall Hz. unfold _parse_value, py_int.
  rewrite !strip_minus_digits by exact Hall.
  cbn [text_eqb char_eqb Ascii.eqb Bool.eqb andb orb]. rewrite Hz. reflexivity.
Qed.

Lemma text_of_Z_pos p : text_of_Z (Zpos p) = digits_of (Pos.to_uint p).
Proof.
  unfold text_of_Z, digits_of. cbn [Z.to_int NilZero.string_of_int].
  unfold NilZero.string_of_uint.
  pose proof (DecimalPos.Unsigned.to_uint_nonnil p) as H.
  destruct (Pos.to_uint p); [contradiction|..]; reflexivity.
Qed.

Lemma text_of_Z_neg p : text_of_Z (Zneg p) = "-"%char :: digits_of (Pos.to_uint p).
Proof.
  unfold text_of_Z, digits_of. cbn [Z.to_int NilZero.string_of_int].
  unfold NilZero.string_of_uint.
  pose proof (DecimalPos.Unsigned.to_uint_nonnil p) as H.
  destruct (Pos.to_uint p); [contradiction|..]; reflexivity.
Qed.

Lemma int_digits_to_uint p :
  int_digits (digits_of (Pos.to_uint p)) 0%Z false = Some (Zpos p).
Proof.
  change 0%Z with (Z.of_N 0). rewrite int_digits_digits.
  pose proof (DecimalPos.Unsigned.to_uint_nonnil p) as H.
  rewrite uint_value_to_uint.
  destruct (Pos.to_uint p); [contradiction|..]; reflexivity.
Qed.

Lemma parse_value_text_of_Z (z : Z) : _parse_value (text_of_Z z) = VInt z.
Proof.
  destruct z as [|p|p].
  - reflexivity.
  - rewrite text_of_Z_pos. apply parse_value_digits.
    + apply digits_of_nonempty, DecimalPos.Unsigned.to_uint_nonnil.
    + apply digits_of_digits.
    + apply int_digits_to_uint.
  - rewrite text_of_Z_neg. apply (parse_value_minus_digits _ (Zpos p)).
    + apply digits_of_nonempty, DecimalPos.Unsigned.to_uint_nonnil.
    + apply digits_of_digits.
    + apply int_digits_to_uint.
Qed.

Lemma digit_is_token_char c :
  is_digit c = true ->
  cmatch (CNot (CUnion CSpace (COneOf ",}]"))) c = true
  /\ existsb (char_eqb c) ["@"; "{"; "["; dquote; squote]%char = false
  /\ is_ascii c = true.
Proof.
  destruct c as [[|] [|] [|] [|] [|] [|] [|] [|]]; vm_compute; intros H;
    try discriminate H; auto.
Qed.

Lemma digits_plain_token s :
  s <> [] -> forallb is_digit s = true ->
  is_plain_token s = true /\ is_plain_token ("-"%char :: s) = true.
Proof.
  intros Hne Hall.
  assert (Htok : forallb (cmatch (CNot (CUnion CSpace (COneOf ",}]")))) s = true).
  { rewrite forallb_forall in *. intros c Hc. apply digit_is_token_char, Hall, Hc. }
  split.
  - destruct s as [|c s']; [contradiction|]. unfold is_plain_token. rewrite Htok.
    cbn [forallb] in Hall. apply andb_true_iff in Hall as [Hc _].
    destruct (digit_is_token_char c Hc) as (_ & -> & _). reflexivity.
  - unfold is_plain_token. cbn [forallb]. rewrite Htok. reflexivity.
Qed.

Lemma text_of_Z_plain_token z : is_plain_token (text_of_Z z) = true.
Proof.
  destruct z as [|p|p]; [reflexivity|..].
  - rewrite text_of_Z_pos. apply digits_plain_token.
    + apply digits_of_nonempty, DecimalPos.Unsigned.to_uint_nonnil.
    + apply digits_of_digits.
  - rewrite text_of_Z_neg. apply digits_plain_token.
    + apply digits_of_nonempty, DecimalPos.Unsigned.to_uint_nonnil.
    + apply digits_of_digits.
Qed.

Lemma text_of_Z_ascii z : isascii (text_of_Z z) = true.
Proof.
  assert (H : forall d, isascii (digits_of d) = true).
  { intros d. unfold isascii. pose proof (digits_of_digits d) as Hd.
    rewrite forallb_forall in *. intros c Hc. apply digit_is_token_char, Hd, Hc. }
  destruct z as [|p|p]; [reflexivity|..].
  - rewrite text_of_Z_pos. apply H.
  - rewrite text_of_Z_neg. unfold isascii. cbn [forallb]. apply H.
Qed.

Lemma reads_as_integer z : reads_as (text_of_Z z) (VInt z).
Proof.
  rewrite <- (parse_value_text_of_Z z).
  apply reads_as_plain_token, text_of_Z_plain_token.
Qed.

Lemma reads_as_boolean (b : bool) :
  reads_as (if b then "true" else "false") (VBool b).
Proof.
  destruct b.
  - exact (reads_as_plain_token "true" eq_refl).
  - exact (reads_as_plain_token "false" eq_refl).
Qed.

(** Integers and booleans survive the round trip as values: what
    [_serialize_value] writes for them, followed by the end of the
    text, whitespace or a comma, is read back by [_parse_value_at] as
    the same value, all of it and no more. *)
Theorem numbers_and_booleans_round_trip :
  forall builtin_str indent compact rest,
    ends_value rest = true ->
    (forall z : Z,
       _parse_value_at (_serialize_value builtin_str (VInt z) indent compact ++ rest) 0
       = Ok (VInt z, length (_serialize_value builtin_str (VInt z) indent compact)))
    /\ (forall b : bool,
          _parse_value_at (_serialize_value builtin_str (VBool b) indent compact ++ rest) 0
          = Ok (VBool b, length (_serialize_value builtin_str (VBool b) indent compact))).
Proof.
  intros builtin_str indent compact rest Hrest. split.
  - intros z. apply reads_as_integer. exact Hrest.
  - intros b. apply reads_as_boolean. exact Hrest.
Qed.

Lemma numbers_and_booleans_round_trip_witness :
  _parse_value_at ("-2048" ++ ", x") 0 = Ok (VInt (-2048), 5)
  /\ _parse_value_at ("false" ++ ", x") 0 = Ok (VBool false, 5).
Proof.
  destruct (numbers_and_booleans_round_trip (fun _ => []) 0 true ", x" eq_refl)
    as [Hz Hb].
  split; [exact (Hz (-2048)%Z)|exact (Hb false)].
Defined.

(** ** Quoted strings *)

Lemma char_eqb_sym a b : char_eqb a b = char_eqb b a.
Proof.
  destruct (char_eqb a b) eqn:E.
  - apply char_eqb_eq in E. subst. symmetry. apply char_eqb_refl.
  - destruct (char_eqb b a) eqn:E'; [|reflexivity].
    apply char_eqb_eq in E'. subst. rewrite char_eqb_refl in E. discriminate.
Qed.

(** Replacing one character is a map over the characters. *)
Lemma replace_fuel_single c new : forall s n,
  length s <= n ->
  replace_fuel n [c] new s
  = flat_map (fun x => if char_eqb x c then new else [x]) s.
Proof.
  induction s as [|x s IH]; intros n Hn.
  - destruct n; reflexivity.
  - destruct n as [|n]; [simpl in Hn; lia|]. simpl in Hn.
    cbn [replace_fuel startswith flat_map length drop].
    rewrite (char_eqb_sym c x), andb_true_r.
    destruct (char_eqb x c); rewrite IH by lia; reflexivity.
Qed.

Lemma escape_flat_map s : escape s = flat_map escape_char s.
Proof.
  unfold escape, replace. rewrite !replace_fuel_single by lia.
  induction s as [|x s IH]; [reflexivity|].
  cbn [flat_map]. rewrite flat_map_app, IH. f_equal.
  unfold escape_char. destruct (char_eqb x backslash) eqn:E.
  - reflexivity.
  - cbn [flat_map app]. destruct (char_eqb x dquote); reflexivity.
Qed.

Lemma escape_char_head c s :
  startswith [dquote] (escape_char c ++ s) = false.
Proof.
  unfold escape_char. destruct (char_eqb c backslash) eqn:E; [reflexivity|].
  destruct (char_eqb c dquote) eqn:E'; [reflexivity|].
  cbn [app startswith]. rewrite char_eqb_sym, E'. reflexivity.
Qed.

Lemma escaped_head s t :
  match t with c :: _ => char_eqb dquote c = false | [] => True end ->
  startswith [dquote] (flat_map escape_char s ++ t) = false.
Proof.
  intros Ht. destruct s as [|c s].
  - destruct t as [|x t]; [reflexivity|]. cbn [flat_map app startswith].
    rewrite Ht. reflexivity.
  - cbn [flat_map]. rewrite <- app_assoc. apply escape_char_head.
Qed.

Lemma escape_char_cases x :
  (x = backslash /\ escape_char x = [backslash; backslash]
   /\ double_backslash x = [backslash; backslash])
  \/ (x = dquote /\ escape_char x = [backslash; dquote] /\ double_backslash x = [x])
  \/ (char_eqb x backslash = false /\ char_eqb x dquote = false
      /\ escape_char x = [x] /\ double_backslash x = [x]).
Proof.
  unfold escape_char, double_backslash.
  destruct (char_eqb x backslash) eqn:E.
  - left. apply char_eqb_eq in E. auto.
  - destruct (char_eqb x dquote) eqn:E'.
    + right. left. apply char_eqb_eq in E'. auto.
    + right. right. auto.
Qed.

Lemma unquote_escaped : forall s n,
  length (flat_map escape_char s) <= n ->
  replace_fuel n [backslash; dquote] [dquote] (flat_map escape_char s)
  = flat_map double_backslash s.
Proof.
  induction s as [|x s IH]; intros n Hn.
  - destruct n; reflexivity.
  - cbn [flat_map] in *. rewrite length_app in Hn.
    destruct (escape_char_cases x) as [(-> & He & Hd)|[(-> & He & Hd)|(E & E' & He & Hd)]];
      rewrite He in Hn |- *; rewrite Hd; cbn [app length] in *.
    + destruct n as [|[|n]]; [lia|lia|].
      pose proof (escaped_head s [] I) as Hh. rewrite app_nil_r in Hh.
      set (F := flat_map escape_char s) in *.
      cbn [replace_fuel].
      change (startswith [backslash; dquote] (backslash :: backslash :: F))
        with (char_eqb backslash backslash && (char_eqb dquote backslash
              && startswith [] F)).
      change (char_eqb dquote backslash) with false. rewrite andb_false_r.
      change (startswith [backslash; dquote] (backslash :: F))
        with (char_eqb backslash backslash && startswith [dquote] F).
      rewrite Hh, andb_false_r. rewrite IH by lia. reflexivity.
    + destruct n as [|n]; [lia|].
      cbn [replace_fuel startswith length drop]. rewrite !char_eqb_refl.
      cbn [andb app]. rewrite IH by lia. reflexivity.
    + destruct n as [|n]; [lia|].
      cbn [replace_fuel startswith]. rewrite (char_eqb_sym backslash x), E.
      cbn [andb]. rewrite IH by lia. reflexivity.
Qed.

Lemma halve_backslashes : forall s n,
  length (flat_map double_backslash s) <= n ->
  replace_fuel n [backslash; backslash] [backslash] (flat_map double_backslash s) = s.
Proof.
  induction s as [|x s IH]; intros n Hn.
  - destruct n; reflexivity.
  - cbn [flat_map] in *. rewrite length_app in Hn.
    destruct (escape_char_cases x) as [(-> & _ & Hd)|[(-> & _ & Hd)|(E & _ & _ & Hd)]];
      rewrite Hd in Hn |- *; cbn [app length] in *.
    + destruct n as [|n]; [lia|].
      cbn [replace_fuel startswith length drop]. rewrite !char_eqb_refl.
      cbn [andb app]. rewrite IH by lia. reflexivity.
    + destruct n as [|n]; [lia|].
      cbn [replace_fuel startswith].
      change (char_eqb backslash dquote) with false.
      cbn [andb]. rewrite IH by lia. reflexivity.
    + destruct n as [|n]; [lia|].
      cbn [replace_fuel startswith]. rewrite (char_eqb_sym backslash x), E.
      cbn [andb]. rewrite IH by lia. reflexivity.
Qed.

(** [unescape] undoes [escape]. *)
Lemma unescape_escape s : unescape dquote (escape s) = s.
Proof.
  unfold unescape, replace. rewrite escape_flat_map.
  rewrite !unquote_escaped by lia.
  apply halve_backslashes. lia.
Qed.

Lemma string_end_escaped rest : forall s i,
  string_end_from dquote (flat_map escape_char s ++ dquote :: rest) i
  = Some (i + length (flat_map escape_char s)).
Proof.
  induction s as [|x s IH]; intros i.
  - cbn [flat_map app string_end_from length].
    change (char_eqb dquote backslash) with false. rewrite char_eqb_refl.
    cbn [andb]. f_equal. lia.
  - cbn [flat_map]. rewrite <- app_assoc, length_app.
    destruct (escape_char_cases x) as [(-> & He & _)|[(-> & He & _)|(E & E' & He & _)]];
      rewrite He; cbn [app length string_end_from].
    + rewrite char_eqb_refl. cbn [nonempty andb]. rewrite IH. f_equal. lia.
    + rewrite char_eqb_refl. cbn [nonempty andb]. rewrite IH. f_equal. lia.
    + rewrite E, E'. cbn [andb]. rewrite IH. f_equal. lia.
Qed.

(** A quoted string is read back, whatever follows the closing
    quote. *)
Lemma quoted_string_read_back s rest :
  _parse_value_at ([dquote] ++ escape s ++ [dquote] ++ rest) 0
  = Ok (VStr s, length ([dquote] ++ escape s ++ [dquote])).
Proof.
  unfold _parse_value_at. rewrite drop_0, parse_value_at_eq.
  unfold value_at. cbn [app span].
  change (is_blank dquote) with false. cbn iota. rewrite drop_0, Nat.add_0_r.
  change (char_eqb dquote "@") with false.
  change (char_eqb dquote "{") with false.
  change (char_eqb dquote "[") with false.
  rewrite char_eqb_refl. cbn iota.
  unfold find_string_end_at.
  change (drop 1 (dquote :: escape s ++ dquote :: rest))
    with (escape s ++ dquote :: rest).
  rewrite escape_flat_map, string_end_escaped. cbn [bind].
  replace (0 + 1 + length (flat_map escape_char s) - (0 + 1))
    with (length (flat_map escape_char s)) by lia.
  rewrite take_app_length, <- escape_flat_map, unescape_escape.
  do 2 f_equal. cbn [length]. rewrite length_app. cbn [length]. lia.
Qed.

(** A string that the serializer quotes survives the round trip as a
    value: what [_serialize_value] writes for it is read back by
    [_parse_value_at] as the same string, whatever follows. *)
Theorem quoted_strings_round_trip :
  forall builtin_str s indent compact rest,
    needs_quotes s = true ->
    _parse_value_at (_serialize_value builtin_str (VStr s) indent compact ++ rest) 0
    = Ok (VStr s, length (_serialize_value builtin_str (VStr s) indent compact)).
Proof.
  intros builtin_str s indent compact rest Hq. cbn [_serialize_value]. rewrite Hq.
  rewrite <- !app_assoc. apply quoted_string_read_back.
Qed.

Lemma quoted_strings_round_trip_witness :
  let s := "say " ++ [dquote] ++ "hi" ++ [dquote] ++ " c:" ++ [backslash] in
  _parse_value_at
    (_serialize_value (fun _ => []) (VStr s) 0 true ++ "}") 0
  = Ok (VStr s, length (_serialize_value (fun _ => []) (VStr s) 0 true)).
Proof.
  apply (quoted_strings_round_trip (fun _ => [])). reflexivity.
Defined.

(** ** The round trip of flat dictionaries *)

Lemma join_cons_concat sep p ps :
  join sep (p :: ps) = p ++ concat (map (fun q => sep ++ q) ps).
Proof.
  revert p. induction ps as [|q ps IH]; intros p.
  - simpl. rewrite app_nil_r. reflexivity.
  - change (join sep (p :: q :: ps)) with (p ++ sep ++ join sep (q :: ps)).
    rewrite IH. cbn [map concat]. rewrite <- app_assoc. reflexivity.
Qed.

Lemma dict_get_absent k (d : dict) :
  ~ In k (map fst d) -> dict_get k d = None.
Proof.
  induction d as [|[k' v] d IH]; simpl; [reflexivity|].
  intros H. rewrite text_eqb_neq by (intros ->; tauto). apply IH. tauto.
Qed.

Lemma dict_remove_absent k (d : dict) :
  ~ In k (map fst d) -> dict_remove k d = d.
Proof.
  unfold dict_remove. induction d as [|[k' v] d IH]; simpl; [reflexivity|].
  intros H. rewrite text_eqb_neq by (intros ->; tauto). simpl. f_equal. apply IH. tauto.
Qed.

Lemma dict_set_absent (d : dict) k v :
  ~ In k (map fst d) -> dict_set d k v = d ++ [(k, v)].
Proof.
  induction d as [|[k' v'] d IH]; simpl; [reflexivity|].
  intros H. rewrite text_eqb_neq by (intros ->; tauto). f_equal. apply IH. tauto.
Qed.

Lemma assign_all_fresh ps : forall acc,
  NoDup (map fst acc ++ map key ps) ->
  assign_all ps acc = acc ++ map (fun p => (key p, value p)) ps.
Proof.
  unfold assign_all.
  induction ps as [|p ps IH]; intros acc Hnd; simpl.
  - rewrite app_nil_r. reflexivity.
  - assert (Hfresh : ~ In (key p) (map fst acc)).
    { simpl in Hnd. apply NoDup_app in Hnd as (_ & Hdis & _).
      intros Hin. apply (Hdis (key p)); [apply list_elem_of_In; exact Hin|].
      left. }
    rewrite dict_set_absent by exact Hfresh.
    rewrite IH.
    + rewrite <- app_assoc. reflexivity.
    + rewrite map_app. simpl. rewrite <- app_assoc. exact Hnd.
Qed.

Lemma token_char_not_space c :
  cmatch (CNot (CUnion CSpace (COneOf ",}]"))) c = true -> is_space c = false.
Proof.
  cbn [cmatch]. intros H. apply negb_true_iff, orb_false_iff in H as [H _]. exact H.
Qed.

Lemma not_space_not_blank c : is_space c = false -> is_blank c = false.
Proof.
  intros H. destruct (is_blank c) eqn:E; [|reflexivity].
  apply is_blank_is_space in E. congruence.
Qed.

Lemma plain_token_ends tok :
  is_plain_token tok = true ->
  match tok with x :: _ => is_blank x = false | [] => False end
  /\ match last tok with Some x => is_space x = false | None => False end.
Proof.
  unfold is_plain_token. destruct tok as [|c tok]; [discriminate|].
  intros H. apply andb_true_iff in H as [Hall _].
  rewrite forallb_forall in Hall. split.
  - apply not_space_not_blank, token_char_not_space, Hall. left. reflexivity.
  - destruct (last (c :: tok)) as [x|] eqn:E.
    + apply token_char_not_space, Hall. apply last_Some in E as [l' ->].
      apply in_or_app. right. left. reflexivity.
    + apply last_None in E. discriminate.
Qed.

Lemma escape_ascii s : isascii s = true -> isascii (escape s) = true.
Proof.
  rewrite escape_flat_map. unfold isascii.
  induction s as [|x s IH]; [reflexivity|]. cbn [forallb flat_map].
  intros H. apply andb_true_iff in H as [Hx Hs]. rewrite forallb_app, (IH Hs), andb_true_r.
  destruct (escape_char_cases x) as [(-> & -> & _)|[(-> & -> & _)|(_ & _ & -> & _)]];
    cbn [forallb]; rewrite ?Hx; reflexivity.
Qed.

(** What the serializer writes for a value that survives is ASCII,
    does not begin or end with whitespace, and reads as the value. *)
Lemma survives_serialized builtin_str v indent compact :
  survives v = true ->
  let chars := _serialize_value builtin_str v indent compact in
  isascii chars = true
  /\ match chars with x :: _ => is_blank x = false | [] => False end
  /\ match last chars with Some x => is_space x = false | None => False end
  /\ reads_as chars v.
Proof.
  destruct v as [|b|z|f|s|l|d]; try discriminate; intros Hv; cbn [_serialize_value].
  - destruct b; repeat split; try reflexivity.
    + exact (reads_as_boolean true).
    + exact (reads_as_boolean false).
  - split; [apply text_of_Z_ascii|].
    destruct (plain_token_ends _ (text_of_Z_plain_token z)) as [H1 H2].
    repeat split; [exact H1|exact H2|apply reads_as_integer].
  - cbn [survives] in Hv. apply andb_true_iff in Hv as [Hascii Hv].
    destruct (needs_quotes s) eqn:Hq.
    + split; [|split; [|split]].
      * unfold isascii in *. cbn [app forallb]. rewrite forallb_app.
        pose proof (escape_ascii s Hascii) as He. unfold isascii in He.
        rewrite He. reflexivity.
      * reflexivity.
      * rewrite app_assoc, last_snoc. reflexivity.
      * intros rest _. rewrite <- !app_assoc.
        rewrite (quoted_string_read_back s rest). reflexivity.
    + cbn [orb] in Hv. apply andb_true_iff in Hv as [Htok Heq].
      split; [exact Hascii|].
      destruct (plain_token_ends _ Htok) as [H1 H2].
      repeat split; [exact H1|exact H2|].
      assert (E : _parse_value s = VStr s).
      { destruct (_parse_value s); try discriminate Heq.
        apply text_eqb_eq in Heq. congruence. }
      rewrite <- E. apply reads_as_plain_token. exact Htok.
Qed.

Lemma plain_entries_untyped (d : dict) :
  Forall plain_entry d -> ~ In "_type" (map fst d).
Proof.
  induction 1 as [|kv d (_ & Hk & _) _ IH]; simpl; [tauto|].
  intros [E|Hin]; [congruence|tauto].
Qed.

Lemma object_parts_plain builtin_str (d : dict) inner_indent compact :
  Forall plain_entry d ->
  object_parts builtin_str d inner_indent compact
  = map (fun kv =>
           object_part (fst kv)
             (_serialize_value builtin_str (snd kv) inner_indent compact)
             inner_indent compact) d.
Proof.
  induction 1 as [|[k v] d (_ & _ & Hv) _ IH]; [reflexivity|].
  cbn [object_parts map fst snd]. rewrite IH.
  destruct v; try reflexivity. discriminate Hv.
Qed.

Lemma serialize_document_plain builtin_str (d : dict) compact :
  Forall plain_entry d ->
  serialize_document builtin_str (VDict d) 0 compact
  = wrap_object builtin_str VNone
      (join_parts compact
         (map (fun kv =>
                 object_part (fst kv)
                   (_serialize_value builtin_str (snd kv) 2 compact) 2 compact) d))
      0 compact.
Proof.
  intros Hd. pose proof (plain_entries_untyped d Hd) as Hu.
  unfold serialize_document, dict_get_default.
  rewrite dict_get_absent, dict_remove_absent by exact Hu.
  unfold _serialize_object. destruct d as [|kv d]; [destruct compact; reflexivity|].
  rewrite object_parts_plain by exact Hd. reflexivity.
Qed.

Lemma serialize_document_tagged builtin_str (d : dict) tag compact :
  Forall plain_entry d -> tag <> [] ->
  serialize_document builtin_str (VDict (d ++ [("_type", VStr tag)])) 0 compact
  = wrap_object builtin_str (VStr tag)
      (join_parts compact
         (map (fun kv =>
                 object_part (fst kv)
                   (_serialize_value builtin_str (snd kv) 2 compact) 2 compact) d))
      0 compact.
Proof.
  intros Hd Htag. pose proof (plain_entries_untyped d Hd) as Hu.
  unfold serialize_document, dict_get_default.
  assert (Eget : dict_get "_type" (d ++ [("_type", VStr tag)]) = Some (VStr tag)).
  { transitivity (dict_get "_type" (dict_set d "_type" (VStr tag)));
      [|apply dict_get_set_same].
    f_equal. symmetry. apply dict_set_absent. exact Hu. }
  assert (Erem : dict_remove "_type" (d ++ [("_type", VStr tag)]) = d).
  { unfold dict_remove. rewrite List.filter_app. cbn [List.filter fst].
    rewrite text_eqb_refl. cbn [negb]. rewrite app_nil_r.
    apply (dict_remove_absent "_type" d Hu). }
  rewrite Eget, Erem.
  unfold _serialize_object. destruct d as [|kv d]; [destruct compact; reflexivity|].
  rewrite object_parts_plain by exact Hd. reflexivity.
Qed.

(** The content of the braces, as pairs. *)
Lemma compact_content_pairs builtin_str (d : dict) :
  join_parts true
    (map (fun kv =>
            object_part (fst kv) (_serialize_value builtin_str (snd kv) 2 true) 2 true)
       d)
  = render_all (as_pairs builtin_str true [] " " d).
Proof.
  unfold join_parts. destruct d as [|[k v] d]; [reflexivity|].
  cbn [map fst snd as_pairs]. rewrite join_cons_concat.
  unfold render_all. cbn [map concat]. unfold render at 1, object_part at 1.
  cbn [before key value_chars app]. f_equal.
  rewrite !map_map. f_equal.
Qed.

Lemma indented_content_pairs builtin_str (d : dict) :
  d <> [] ->
  [newline] ++
  join_parts false
    (map (fun kv =>
            object_part (fst kv) (_serialize_value builtin_str (snd kv) 2 false) 2 false)
       d)
  = render_all (as_pairs builtin_str false (newline :: "  ") (newline :: "  ") d).
Proof.
  unfold join_parts. destruct d as [|[k v] d]; [contradiction|]. intros _.
  cbn [map fst snd as_pairs]. rewrite join_cons_concat.
  unfold render_all. cbn [map concat]. unfold render at 1, object_part at 1.
  cbn [before key value_chars app spaces repeat]. do 3 f_equal.
  rewrite <- !app_assoc. do 3 f_equal.
  rewrite !map_map. f_equal.
Qed.

Lemma as_pairs_entries builtin_str compact b0 b (d : dict) :
  map (fun p => (key p, value p)) (as_pairs builtin_str compact b0 b d) = d.
Proof.
  destruct d as [|[k v] d]; [reflexivity|]. cbn [as_pairs map key value].
  f_equal. rewrite map_map. cbn [key value].
  induction d as [|[k' v'] d IH]; [reflexivity|]. cbn [map fst snd]. f_equal. exact IH.
Qed.

Lemma as_pairs_keys builtin_str compact b0 b (d : dict) :
  map key (as_pairs builtin_str compact b0 b d) = map fst d.
Proof.
  rewrite <- (as_pairs_entries builtin_str compact b0 b d) at 2.
  rewrite map_map. reflexivity.
Qed.

Lemma plain_entry_well_formed builtin_str compact b k v :
  plain_entry (k, v) -> is_garbage b = true ->
  well_formed {| before := b; key := k;
                 value_chars := _serialize_value builtin_str v 2 compact;
                 value := v |}.
Proof.
  intros (Hk & _ & Hv) Hb.
  destruct (survives_serialized builtin_str v 2 compact Hv) as (H1 & H2 & H3 & H4).
  repeat split; assumption.
Qed.

Lemma as_pairs_well_formed builtin_str compact b0 b (k : text) (v : pyval) (d : dict) :
  Forall plain_entry ((k, v) :: d) ->
  is_garbage b0 = true -> is_garbage b = true -> separated b = true ->
  exists first others,
    as_pairs builtin_str compact b0 b ((k, v) :: d) = first :: others
    /\ well_formed first
    /\ Forall (fun p => well_formed p /\ separated (before p) = true) others.
Proof.
  intros Hd Hb0 Hb Hsep. inversion Hd as [|? ? Hkv Hd']; subst.
  eexists _, _. split; [reflexivity|]. split.
  - apply plain_entry_well_formed; assumption.
  - clear Hd Hkv. induction Hd' as [|[k' v'] d Hkv _ IH]; [constructor|].
    cbn [map]. constructor; [|exact IH]. split; [|exact Hsep].
    apply plain_entry_well_formed; assumption.
Qed.

(** The body of the braces of a flat dictionary parses to the
    dictionary. *)
Lemma flat_content_parses builtin_str compact b0 b trailing (d : dict) :
  d <> [] ->
  Forall plain_entry d -> NoDup (map fst d) ->
  is_garbage b0 = true -> is_garbage b = true -> separated b = true ->
  is_garbage trailing = true -> ends_value trailing = true ->
  _parse_object_content (render_all (as_pairs builtin_str compact b0 b d) ++ trailing)
  = Ok d.
Proof.
  intros Hne Hd Hnd Hb0 Hb Hsep Ht Hte. destruct d as [|[k v] d]; [contradiction|].
  destruct (as_pairs_well_formed builtin_str compact b0 b k v d Hd Hb0 Hb Hsep)
    as (first & others & E & Hfirst & Hothers).
  pose proof (as_pairs_entries builtin_str compact b0 b ((k, v) :: d)) as Hentries.
  pose proof (as_pairs_keys builtin_str compact b0 b ((k, v) :: d)) as Hkeys.
  rewrite E in *.
  rewrite (object_content_pairs first others trailing Hfirst Hothers Ht Hte).
  f_equal. rewrite assign_all_fresh; [exact Hentries|].
  change (NoDup (map key (first :: others))). rewrite Hkeys. exact Hnd.
Qed.

Lemma render_nonempty builtin_str compact b0 b (d : dict) trailing :
  d <> [] -> render_all (as_pairs builtin_str compact b0 b d) ++ trailing <> [].
Proof.
  destruct d as [|[k v] d]; [contradiction|]. intros _.
  cbn [as_pairs]. rewrite render_all_cons. cbn [before key value_chars].
  intros H. apply app_eq_nil in H as [_ H]. apply app_eq_nil in H as [_ H].
  discriminate H.
Qed.

(** The round trip holds for flat dictionaries: when the keys are
    distinct identifiers other than [_type] and the values are
    booleans, integers and strings that survive as values, parsing what
    [serialize_toon] writes gives the dictionary back, in both modes;
    and with a tag in last place, a non-empty dictionary comes back
    with its tag. *)
Theorem flat_dictionaries_round_trip :
  forall builtin_str (d : dict) compact,
    Forall plain_entry d ->
    NoDup (map fst d) ->
    parse_toon (serialize_document builtin_str (VDict d) 0 compact) = Ok d
    /\ forall tag,
         is_identifier tag = true -> d <> [] ->
         parse_toon
           (serialize_document builtin_str (VDict (d ++ [("_type", VStr tag)])) 0
              compact)
         = Ok (d ++ [("_type", VStr tag)]).
Proof.
  intros builtin_str d compact Hd Hnd. split.
  - rewrite serialize_document_plain by exact Hd.
    destruct d as [|kv d']; [destruct compact; reflexivity|].
    set (d := kv :: d') in *. assert (Hne : d <> []) by discriminate.
    unfold wrap_object. cbn [truthy]. destruct compact.
    + rewrite parse_toon_braces, compact_content_pairs.
      rewrite <- (app_nil_r (render_all _)).
      apply flat_content_parses; try assumption; reflexivity.
    + cbn [spaces repeat app].
      change ("{"%char :: newline :: ?x) with ("{" ++ newline :: x).
      replace (newline :: join_parts false
                 (map (fun kv0 => object_part (fst kv0)
                         (_serialize_value builtin_str (snd kv0) 2 false) 2 false) d)
               ++ newline :: "}")
        with (([newline] ++ join_parts false
                 (map (fun kv0 => object_part (fst kv0)
                         (_serialize_value builtin_str (snd kv0) 2 false) 2 false) d)
               ++ [newline]) ++ "}")
        by (cbn [app]; rewrite <- app_assoc; reflexivity).
      rewrite parse_toon_braces, app_assoc, indented_content_pairs by exact Hne.
      apply flat_content_parses; try assumption; reflexivity.
  - intros tag Htag Hne.
    assert (Htag' : tag <> []) by (intros ->; discriminate Htag).
    pose proof (plain_entries_untyped d Hd) as Hu.
    rewrite serialize_document_tagged by assumption.
    unfold wrap_object.
    assert (Ht : truthy (VStr tag) = true) by (destruct tag; [contradiction|reflexivity]).
    rewrite Ht. cbn [str_of]. destruct compact.
    + rewrite compact_content_pairs.
      rewrite <- (app_nil_r (render_all _)).
      etransitivity;
        [apply parse_toon_tagged; [exact Htag|apply render_nonempty; exact Hne]|].
      rewrite flat_content_parses by (try assumption; reflexivity).
      cbn [bind]. rewrite dict_set_absent by exact Hu. reflexivity.
    + cbn [spaces repeat app].
      replace ("{"%char :: newline :: join_parts false
                 (map (fun kv0 => object_part (fst kv0)
                         (_serialize_value builtin_str (snd kv0) 2 false) 2 false) d)
               ++ newline :: "}")
        with ("{" ++ (([newline] ++ join_parts false
                 (map (fun kv0 => object_part (fst kv0)
                         (_serialize_value builtin_str (snd kv0) 2 false) 2 false) d))
               ++ [newline]) ++ "}")
        by (cbn [app]; rewrite <- app_assoc; reflexivity).
      rewrite indented_content_pairs by exact Hne.
      etransitivity;
        [apply parse_toon_tagged; [exact Htag|apply render_nonempty; exact Hne]|].
      rewrite flat_content_parses by (try assumption; reflexivity).
      cbn [bind]. rewrite dict_set_absent by exact Hu. reflexivity.
Qed.

Lemma flat_dictionaries_round_trip_witness :
  let d := [ ("q", VStr "What are delays?"); ("feasible", VBool true);
             ("limit", VInt 10); ("table", VStr "shipments") ] in
  parse_toon (serialize_document (fun _ => []) (VDict d) 0 true) = Ok d
  /\ parse_toon
       (serialize_document (fun _ => []) (VDict (d ++ [("_type", VStr "plan")])) 0 true)
     = Ok (d ++ [("_type", VStr "plan")]).
Proof.
  intros d.
  assert (Hd : Forall plain_entry d).
  { repeat constructor; discriminate. }
  assert (Hnd : NoDup (map fst d)).
  { subst d. cbn [map fst].
    repeat (apply NoDup_cons_2;
            [rewrite list_elem_of_In; cbn [In]; intros H;
             repeat (destruct H as [H|H]; [discriminate H|]); exact H|]).
    apply NoDup_nil_2. }
  destruct (flat_dictionaries_round_trip (fun _ => []) d true Hd Hnd) as [H1 H2].
  split; [exact H1|]. apply (H2 "plan"); [reflexivity|discriminate].
Defined.

(** ** The fuel does not matter *)

(** What [value_at] returns, other than for lack of fuel, it returns
    with any parsers of the inner content that agree on such results. *)
Lemma value_at_mono po pa po' pa' start s r :
  (forall c r, po c = r -> r <> Raise OutOfFuel -> po' c = r) ->
  (forall c r, pa c = r -> r <> Raise OutOfFuel -> pa' c = r) ->
  value_at po pa start s = r -> r <> Raise OutOfFuel ->
  value_at po' pa' start s = r.
Proof.
  intros Hpo Hpa <-. unfold value_at.
  destruct (drop (span is_blank s) s) as [|char s']; [reflexivity|].
  destruct (if char_eqb char "@" then re_match false tag_pattern (char :: s') else None)
    as [type_match|].
  - destruct (find_brace_at _ _) as [e|x]; cbn [bind]; [|reflexivity].
    destruct (po _) as [obj|x] eqn:E; cbn [bind]; intros Hr.
    + rewrite (Hpo _ _ E) by discriminate. reflexivity.
    + rewrite (Hpo _ _ E) by (intros [= ->]; apply Hr; reflexivity). reflexivity.
  - destruct (char_eqb char "{").
    { destruct (find_brace_at _ _) as [e|x]; cbn [bind]; [|reflexivity].
      destruct (po _) as [obj|x] eqn:E; cbn [bind]; intros Hr.
      + rewrite (Hpo _ _ E) by discriminate. reflexivity.
      + rewrite (Hpo _ _ E) by (intros [= ->]; apply Hr; reflexivity). reflexivity. }
    destruct (char_eqb char "[").
    { destruct (find_bracket_at _ _) as [e|x]; cbn [bind]; [|reflexivity].
      destruct (pa _) as [arr|x] eqn:E; cbn [bind]; intros Hr.
      + rewrite (Hpa _ _ E) by discriminate. reflexivity.
      + rewrite (Hpa _ _ E) by (intros [= ->]; apply Hr; reflexivity). reflexivity. }
    reflexivity.
Qed.

Lemma fuel_mono : forall n,
  (forall m start s r, n <= m ->
     parse_value_at n start s = r -> r <> Raise OutOfFuel ->
     parse_value_at m start s = r)
  /\ (forall m i s acc r, n <= m ->
        object_loop n i s acc = r -> r <> Raise OutOfFuel ->
        object_loop m i s acc = r)
  /\ (forall m i s acc r, n <= m ->
        array_loop n i s acc = r -> r <> Raise OutOfFuel ->
        array_loop m i s acc = r).
Proof.
  induction n as [|n (IHv & IHo & IHa)].
  - split; [|split].
    + intros m start s r _. rewrite !parse_value_at_eq.
      apply value_at_mono; intros c r' <- Hr'; contradiction.
    + intros m i s acc r _ <-. destruct m; cbn [object_loop];
        destruct (drop (span is_blank s) s); (reflexivity || contradiction).
    + intros m i s acc r _ <-. destruct m; cbn [array_loop];
        destruct (drop (span is_blank s) s); (reflexivity || contradiction).
  - split; [|split].
    + intros m start s r Hm. destruct m as [|m]; [lia|].
      rewrite !parse_value_at_eq. apply value_at_mono.
      * intros c r'. apply IHo. lia.
      * intros c r'. apply IHa. lia.
    + intros m i s acc r Hm <-. destruct m as [|m]; [lia|].
      cbn [object_loop].
      destruct (drop (span is_blank s) s) as [|c s_next]; [reflexivity|].
      destruct (re_match false key_pattern (c :: s_next)) as [key_match0|].
      * destruct (parse_value_at n _ _) as [[value0 consumed]|x] eqn:Ev;
          cbn [bind]; intros Hr.
        -- rewrite (IHv m _ _ _ ltac:(lia) Ev) by discriminate. cbn [bind].
           apply IHo; [lia|reflexivity|exact Hr].
        -- rewrite (IHv m _ _ _ ltac:(lia) Ev) by (intros [= ->]; apply Hr; reflexivity).
           reflexivity.
      * apply IHo; [lia|reflexivity].
    + intros m i s acc r Hm <-. destruct m as [|m]; [lia|].
      cbn [array_loop].
      destruct (drop (span is_blank s) s) as [|c s_next]; [reflexivity|].
      destruct (parse_value_at n _ _) as [[value0 consumed]|x] eqn:Ev;
        cbn [bind]; intros Hr.
      * rewrite (IHv m _ _ _ ltac:(lia) Ev) by discriminate. cbn [bind].
        apply IHa; [lia|reflexivity|exact Hr].
      * rewrite (IHv m _ _ _ ltac:(lia) Ev) by (intros [= ->]; apply Hr; reflexivity).
        reflexivity.
Qed.

(** With enough fuel for the text, the fuel does not matter. *)
Lemma parse_value_at_fuel n m start s :
  length s <= S n -> length s <= S m ->
  parse_value_at n start s = parse_value_at m start s.
Proof.
  intros Hn Hm. destruct (Nat.le_ge_cases n m) as [Hle|Hle].
  - symmetry. apply (proj1 (fuel_mono n) m _ _ _ Hle eq_refl).
    apply (proj1 (fuel_enough n)). exact Hn.
  - apply (proj1 (fuel_mono m) n _ _ _ Hle eq_refl).
    apply (proj1 (fuel_enough m)). exact Hm.
Qed.

Lemma object_loop_fuel n m i s acc :
  length s <= n -> length s <= m ->
  object_loop n i s acc = object_loop m i s acc.
Proof.
  intros Hn Hm. destruct (Nat.le_ge_cases n m) as [Hle|Hle].
  - symmetry. apply (proj1 (proj2 (fuel_mono n)) m _ _ _ _ Hle eq_refl).
    apply (proj1 (proj2 (fuel_enough n))). exact Hn.
  - apply (proj1 (proj2 (fuel_mono m)) n _ _ _ _ Hle eq_refl).
    apply (proj1 (proj2 (fuel_enough m))). exact Hm.
Qed.

Lemma array_loop_fuel n m i s acc :
  length s <= n -> length s <= m ->
  array_loop n i s acc = array_loop m i s acc.
Proof.
  intros Hn Hm. destruct (Nat.le_ge_cases n m) as [Hle|Hle].
  - symmetry. apply (proj2 (proj2 (fuel_mono n)) m _ _ _ _ Hle eq_refl).
    apply (proj2 (proj2 (fuel_enough n))). exact Hn.
  - apply (proj2 (proj2 (fuel_mono m)) n _ _ _ _ Hle eq_refl).
    apply (proj2 (proj2 (fuel_enough m))). exact Hm.
Qed.

(** ** Arrays *)

Lemma array_loop_nil n i acc : array_loop n i [] acc = Ok acc.
Proof. destruct n; reflexivity. Qed.

Lemma span_all p g s :
  forallb p g = true ->
  match s with c :: _ => p c = false | [] => True end ->
  span p (g ++ s) = length g.
Proof.
  intros Hg Hs. rewrite span_app_stop by exact Hs.
  induction g as [|c g IH]; [reflexivity|]. simpl in *.
  apply andb_true_iff in Hg as [-> Hg]. rewrite IH by exact Hg. reflexivity.
Qed.

Lemma render_items_cons it its :
  render_items (it :: its) = gap it ++ item_chars it ++ render_items its.
Proof. unfold render_items. cbn [map concat]. unfold render_item. apply eq_sym, app_assoc. Qed.

Lemma ends_value_render_items its :
  Forall (fun it => well_formed_item it /\ is_separator (gap it) = true) its ->
  ends_value (render_items its) = true.
Proof.
  intros H. destruct its as [|it its]; [reflexivity|].
  inversion H as [|? ? [_ Hsep] _]; subst. rewrite render_items_cons.
  unfold is_separator in Hsep. destruct (gap it) as [|c g]; [discriminate|].
  cbn [nonempty forallb andb] in Hsep. apply andb_true_iff in Hsep as [Hc _]. exact Hc.
Qed.

(** The loop over the items: each one is read and appended. *)
Lemma array_loop_items its : forall it n i acc,
  forallb is_blank_or_comma (gap it) = true ->
  well_formed_item it ->
  Forall (fun it => well_formed_item it /\ is_separator (gap it) = true) its ->
  length (render_items (it :: its)) <= n ->
  array_loop n i
    (drop (span is_blank_or_comma (render_items (it :: its))) (render_items (it :: its)))
    acc
  = Ok (acc ++ map item_value (it :: its)).
Proof.
  induction its as [|it' its IH]; intros it n i acc Hgap Hit Hits Hlen.
  - destruct Hit as (_ & Hfirst & _ & Hreads).
    rewrite render_items_cons in *. cbn [render_items map concat] in *.
    rewrite app_nil_r in *.
    destruct it as [g chars0 v]. cbn [gap item_chars item_value] in *.
    destruct chars0 as [|c chars]; [contradiction|].
    apply orb_false_iff in Hfirst as [Hsp Hboc].
    rewrite span_all by assumption. rewrite drop_app_length.
    destruct n as [|n]; [rewrite length_app in Hlen; simpl in Hlen; lia|].
    cbn [array_loop].
    rewrite (span_head_false is_blank c chars (not_space_not_blank c Hsp)), drop_0.
    assert (Hv : parse_value_at n (i + 0) (c :: chars)
                 = Ok (v, length (c :: chars))).
    { specialize (Hreads [] eq_refl). rewrite app_nil_r in Hreads.
      unfold _parse_value_at in Hreads. rewrite drop_0 in Hreads.
      rewrite (parse_value_at_fuel n (length (c :: chars)))
        by (rewrite length_app in Hlen; simpl in *; lia).
      rewrite parse_value_at_eq in Hreads. rewrite parse_value_at_eq.
      change (i + 0) with (0 + (i + 0)).
      apply (value_at_ok_shift _ _ _ _ 0 (i + 0) _ _ (fun _ _ H => H) (fun _ _ H => H)
               Hreads). }
    rewrite Hv. cbn [bind length Nat.ltb Nat.leb].
    change (drop (S (length chars)) (c :: chars)) with (drop (length chars) chars).
    rewrite drop_all. cbn [span drop]. rewrite array_loop_nil. reflexivity.
  - inversion Hits as [|? ? [Hit' Hsep'] Hits']; subst.
    pose proof (ends_value_render_items (it' :: its) Hits) as Hend.
    destruct Hit as (_ & Hfirst & _ & Hreads).
    rewrite (render_items_cons it (it' :: its)) in *.
    set (T := render_items (it' :: its)) in *.
    destruct it as [g chars0 v]. cbn [gap item_chars item_value] in *.
    destruct chars0 as [|c chars]; [contradiction|].
    apply orb_false_iff in Hfirst as [Hsp Hboc].
    rewrite span_all by assumption. rewrite drop_app_length.
    rewrite !length_app in Hlen. cbn [length] in Hlen.
    destruct n as [|n]; [lia|].
    cbn [array_loop].
    change ((c :: chars) ++ T) with (c :: chars ++ T).
    rewrite (span_head_false is_blank c (chars ++ T) (not_space_not_blank c Hsp)), drop_0.
    assert (Hv : parse_value_at n (i + 0) (c :: chars ++ T)
                 = Ok (v, length (c :: chars))).
    { specialize (Hreads T Hend).
      unfold _parse_value_at in Hreads. rewrite drop_0 in Hreads.
      rewrite (parse_value_at_fuel n (length ((c :: chars) ++ T)))
        by (cbn [app length]; rewrite ?length_app; lia).
      rewrite parse_value_at_eq in Hreads. rewrite parse_value_at_eq.
      change (i + 0) with (0 + (i + 0)).
      apply (value_at_ok_shift _ _ _ _ 0 (i + 0) _ _ (fun _ _ H => H) (fun _ _ H => H)
               Hreads). }
    rewrite Hv. cbn [bind length Nat.ltb Nat.leb].
    change (drop (S (length chars)) (c :: chars ++ T))
      with (drop (length chars) (chars ++ T)).
    rewrite drop_app_length.
    unfold is_separator in Hsep'. apply andb_true_iff in Hsep' as [_ Hgap'].
    rewrite (IH it' n _ (acc ++ [v]) Hgap' Hit' Hits') by (change (length T <= n); lia).
    rewrite <- app_assoc. reflexivity.
Qed.

Lemma last_render_items its : forall it,
  well_formed_item it ->
  Forall (fun it => well_formed_item it /\ is_separator (gap it) = true) its ->
  match last (render_items (it :: its)) with
  | Some c => is_space c = false
  | None => False
  end.
Proof.
  induction its as [|it' its IH]; intros it Hit Hits; rewrite render_items_cons.
  - cbn [render_items map concat]. rewrite app_nil_r, last_app.
    destruct Hit as (_ & _ & Hlast & _).
    destruct (last (item_chars it)); [exact Hlast|contradiction].
  - inversion Hits as [|? ? [Hit' _] Hits']; subst.
    specialize (IH it' Hit' Hits'). rewrite app_assoc, last_app.
    destruct (last (render_items (it' :: its))); [exact IH|contradiction].
Qed.

(** [_parse_array] reads every item of an array whose items are
    separated by whitespace and commas, whatever whitespace surrounds
    them; a content of whitespace only is the empty array. *)
Theorem array_items_are_read :
  forall (first : item_text) (others : list item_text) (pre post : text),
    gap first = [] ->
    well_formed_item first ->
    Forall (fun it => well_formed_item it /\ is_separator (gap it) = true) others ->
    forallb is_space pre = true ->
    forallb is_space post = true ->
    _parse_array (pre ++ render_items (first :: others) ++ post)
    = Ok (map item_value (first :: others))
    /\ _parse_array (pre ++ post) = Ok [].
Proof.
  intros first others pre post Hgap Hfirst Hothers Hpre Hpost. split.
  - unfold _parse_array. rewrite strip_surrounded by assumption.
    assert (Hhead : exists c r, render_items (first :: others) = c :: r
                                /\ is_space c = false /\ is_blank_or_comma c = false).
    { rewrite render_items_cons, Hgap. destruct Hfirst as (_ & Hc & _).
      destruct (item_chars first) as [|c r]; [contradiction|].
      apply orb_false_iff in Hc as [Hsp Hboc]. eexists _, _. split; [reflexivity|].
      split; assumption. }
    destruct Hhead as (c & r & Ehead & Hsp & Hboc).
    assert (Hstrip : strip (render_items (first :: others)) = render_items (first :: others)).
    { apply strip_fixed.
      - rewrite Ehead. exact Hsp.
      - pose proof (last_render_items others first Hfirst Hothers) as H.
        destruct (last (render_items (first :: others))); [exact H|exact I]. }
    rewrite Hstrip.
    assert (Hspan : span is_blank_or_comma (render_items (first :: others)) = 0).
    { rewrite Ehead. apply span_head_false. exact Hboc. }
    assert (Hg : forallb is_blank_or_comma (gap first) = true)
      by (rewrite Hgap; reflexivity).
    pose proof (array_loop_items others first
                  (length (render_items (first :: others))) 0 []
                  Hg Hfirst Hothers (Nat.le_refl _)) as H.
    rewrite Hspan, drop_0 in H. exact H.
  - unfold _parse_array.
    rewrite <- (app_nil_l post), strip_surrounded by assumption. reflexivity.
Qed.

Lemma array_items_are_read_witness :
  _parse_array (" " ++ "1, two ,3" ++ " ") = Ok [VInt 1; VStr "two"; VInt 3]
  /\ _parse_array (" " ++ " ") = Ok [].
Proof.
  apply (array_items_are_read
           {| gap := []; item_chars := "1"; item_value := VInt 1 |}
           [ {| gap := ", "; item_chars := "two"; item_value := VStr "two" |};
             {| gap := " ,"; item_chars := "3"; item_value := VInt 3 |} ]
           " " " ").
  - reflexivity.
  - exact (conj eq_refl (conj eq_refl (conj eq_refl (reads_as_plain_token "1" eq_refl)))).
  - constructor; [|constructor; [|constructor]].
    + exact (conj (conj eq_refl (conj eq_refl (conj eq_refl
               (reads_as_plain_token "two" eq_refl)))) eq_refl).
    + exact (conj (conj eq_refl (conj eq_refl (conj eq_refl
               (reads_as_plain_token "3" eq_refl)))) eq_refl).
  - reflexivity.
  - reflexivity.
Defined.

(** ** Entries of value None *)

Lemma object_parts_drop_nones builtin_str (d : dict) inner_indent compact :
  object_parts builtin_str (drop_nones d) inner_indent compact
  = object_parts builtin_str d inner_indent compact.
Proof.
  unfold drop_nones. induction d as [|[k v] d IH]; [reflexivity|].
  cbn [List.filter snd]. destruct v; cbn [is_none negb object_parts]; rewrite IH;
    reflexivity.
Qed.

Lemma serialize_object_drop_nones builtin_str (d : dict) indent compact :
  _serialize_object builtin_str (drop_nones d) indent compact
  = _serialize_object builtin_str d indent compact.
Proof.
  unfold _serialize_object.
  pose proof (object_parts_drop_nones builtin_str d (indent + 2) compact) as H.
  destruct (drop_nones d) as [|kv d'] eqn:E.
  - destruct d as [|kv d]; [reflexivity|]. rewrite <- H.
    destruct compact; reflexivity.
  - destruct d as [|kv0 d]; [discriminate E|]. rewrite H. reflexivity.
Qed.

Lemma dict_remove_drop_nones k (d : dict) :
  dict_remove k (drop_nones d) = drop_nones (dict_remove k d).
Proof.
  unfold dict_remove, drop_nones. induction d as [|[k' v] d IH]; [reflexivity|].
  cbn [List.filter fst snd].
  destruct (negb (is_none v)) eqn:Ev, (negb (text_eqb k k')) eqn:Ek;
    cbn [List.filter fst snd]; rewrite ?Ev, ?Ek, IH; reflexivity.
Qed.

Lemma dict_get_drop_nones k (d : dict) :
  NoDup (map fst d) ->
  dict_get_default k VNone (drop_nones d) = dict_get_default k VNone d.
Proof.
  unfold dict_get_default, drop_nones.
  induction d as [|[k' v] d IH]; [reflexivity|]. cbn [map fst].
  intros Hnd. apply NoDup_cons in Hnd as [Hk' Hnd]. specialize (IH Hnd).
  cbn [List.filter snd dict_get].
  destruct (text_eqb k k') eqn:Ek.
  - apply text_eqb_eq in Ek. subst k'.
    destruct v; cbn [is_none negb dict_get]; rewrite ?text_eqb_refl; try reflexivity.
    rewrite dict_get_absent; [reflexivity|].
    intros Hin. apply Hk'. apply list_elem_of_In.
    apply in_map_iff in Hin as ([k1 v1] & <- & Hin).
    apply List.filter_In in Hin as [Hin _]. apply in_map_iff. exists (k1, v1). auto.
  - destruct (negb (is_none v)); cbn [dict_get]; rewrite ?Ek; exact IH.
Qed.

(** Entries of value [None] are not written: the text is the one of the
    dictionary without them. *)
Theorem none_entries_are_not_written :
  forall builtin_str (d : dict) indent compact,
    NoDup (map fst d) ->
    serialize_document builtin_str (VDict d) indent compact
    = serialize_document builtin_str (VDict (drop_nones d)) indent compact.
Proof.
  intros builtin_str d indent compact Hnd. unfold serialize_document.
  rewrite dict_get_drop_nones by exact Hnd.
  rewrite dict_remove_drop_nones, serialize_object_drop_nones. reflexivity.
Qed.

Lemma none_entries_are_not_written_witness :
  serialize_document (fun _ => [])
    (VDict [("a", VInt 1); ("b", VNone); ("c", VStr "x")]) 0 true
  = serialize_document (fun _ => []) (VDict [("a", VInt 1); ("c", VStr "x")]) 0 true.
Proof.
  apply (none_entries_are_not_written (fun _ => [])
           [("a", VInt 1); ("b", VNone); ("c", VStr "x")] 0 true).
  cbn [map fst].
  repeat (apply NoDup_cons_2;
          [rewrite list_elem_of_In; cbn [In]; intros H;
           repeat (destruct H as [H|H]; [discriminate H|]); exact H|]).
  apply NoDup_nil_2.
Defined.

(** ** to_toon *)

Lemma hdict_get_set_same d k v : hdict_get k (hdict_set d k v) = Some v.
Proof.
  induction d as [|[k' v'] d IH]; simpl.
  - rewrite text_eqb_refl. reflexivity.
  - destruct (text_eqb k k') eqn:E; simpl; rewrite E; [reflexivity|exact IH].
Qed.

Lemma fresh_lookup (h : heap) : h !! fresh (dom h) = None.
Proof. apply not_elem_of_dom. apply is_fresh. Qed.

Lemma all_some_map_ext {A B} (f g : A -> option B) (l : list A) r :
  (forall a b, In a l -> f a = Some b -> g a = Some b) ->
  all_some (map f l) = Some r -> all_some (map g l) = Some r.
Proof.
  revert r. induction l as [|a l IH]; intros r Hfg; [exact (fun H => H)|].
  cbn [map all_some].
  destruct (f a) as [b|] eqn:Ea; [|discriminate].
  rewrite (Hfg a b (or_introl eq_refl) Ea).
  destruct (all_some (map f l)) as [r'|] eqn:El; [|discriminate].
  rewrite (IH r') by (auto using in_cons). exact (fun H => H).
Qed.

(** A new object does not change what is read from the old ones. *)
Lemma snapshot_fresh (h : heap) lf o : h !! lf = None ->
  forall n v t, snapshot n h v = Some t -> snapshot n (<[lf := o]> h) v = Some t.
Proof.
  intros Hlf. induction n as [|n IH]; intros v t; destruct v; try exact (fun H => H).
  cbn [snapshot].
  destruct (h !! l) as [obj|] eqn:El; [|discriminate].
  assert (Hne : lf <> l) by congruence.
  rewrite lookup_insert_ne, El by exact Hne.
  destruct obj as [items|items].
  - destruct (all_some (map _ items)) as [d|] eqn:Ed; [|discriminate].
    erewrite all_some_map_ext; [exact (fun H => H)| |exact Ed].
    intros kv b _. cbn beta.
    destruct (snapshot n h (snd kv)) as [t'|] eqn:Ev; [|discriminate].
    rewrite (IH _ _ Ev). exact (fun H => H).
  - destruct (all_some (map _ items)) as [d|] eqn:Ed; [|discriminate].
    erewrite all_some_map_ext; [exact (fun H => H)| |exact Ed].
    intros v b _. apply IH.
Qed.

Lemma all_some_hdict_set (f : hval -> option pyval) items k hv v d :
  f hv = Some v ->
  all_some (map (fun kv => option_map (pair (fst kv)) (f (snd kv))) items) = Some d ->
  all_some (map (fun kv => option_map (pair (fst kv)) (f (snd kv)))
              (hdict_set items k hv))
  = Some (dict_set d k v).
Proof.
  intros Hv. revert d. induction items as [|[k' hv'] items IH]; intros d.
  - intros [= <-]. cbn [hdict_set map all_some fst snd]. rewrite Hv. reflexivity.
  - cbn [map all_some fst snd hdict_set].
    destruct (f hv') as [v'|] eqn:Ev'; [|discriminate]. cbn [option_map].
    destruct (all_some _) as [d'|] eqn:Ed'; [|discriminate]. cbn [option_map].
    intros [= <-]. cbn [dict_set].
    destruct (text_eqb k k').
    + cbn [map all_some fst snd]. rewrite Hv, Ed'. reflexivity.
    + cbn [map all_some fst snd]. rewrite Ev'. rewrite (IH d' eq_refl). reflexivity.
Qed.

(** [to_toon] does not touch the caller's objects: it serializes a copy.
    On a dictionary that reads as the tree [d], it returns the text of
    [d] with the tag set (or of [d], when no tag is given), and that
    text is of the tagged form when the tag is not empty. *)
Theorem to_toon_serializes_a_copy :
  forall builtin_str recursion_limit (h : heap) (l : loc) items (d : dict)
         type_name compact,
    h !! l = Some (HDict items) ->
    snapshot recursion_limit h (HRef l) = Some (VDict d) ->
    let r := to_toon builtin_str recursion_limit (HRef l) type_name compact h in
    (forall l' o, h !! l' = Some o -> fst r !! l' = Some o)
    /\ match type_name with
       | Some (c :: name) =>
           snd r = Ok (serialize_document builtin_str
                         (VDict (dict_set d "_type" (VStr (c :: name)))) 0 compact)
           /\ is_tagged
                (serialize_document builtin_str
                   (VDict (dict_set d "_type" (VStr (c :: name)))) 0 compact) = true
       | _ => snd r = Ok (serialize_document builtin_str (VDict d) 0 compact)
       end.
Proof.
  intros builtin_str recursion_limit h l items d type_name compact Hl Hsnap r.
  pose proof (fresh_lookup h) as Hfresh. set (lf := fresh (dom h)) in *.
  set (data := match type_name with
               | Some (c :: name) => hdict_set items "_type" (HStr (c :: name))
               | _ => items
               end).
  assert (Er : r = serialize_toon builtin_str recursion_limit (HRef lf) 0 compact
                     (<[lf := HDict data]> h)).
  { subst r. unfold to_toon. rewrite Hl. reflexivity. }
  assert (Hlf : <[lf := HDict data]> h !! lf = Some (HDict data))
    by apply lookup_insert_eq.
  split.
  - intros l' o Hl'. rewrite Er. unfold serialize_toon. rewrite Hlf. cbn [fst].
    assert (Hne : lf <> l') by congruence.
    rewrite !lookup_insert_ne by exact Hne. exact Hl'.
  - destruct recursion_limit as [|n]; [discriminate|].
    cbn [snapshot] in Hsnap. rewrite Hl in Hsnap.
    destruct (all_some _) as [d0|] eqn:Ed; [|discriminate].
    injection Hsnap as ->.
    assert (Ed' : all_some
                    (map (fun kv => option_map (pair (fst kv))
                                      (snapshot n (<[lf := HDict data]> h) (snd kv)))
                       items) = Some d).
    { eapply all_some_map_ext; [|exact Ed]. intros kv b _. cbn beta.
      destruct (snapshot n h (snd kv)) as [t'|] eqn:Ev; [|discriminate].
      rewrite (snapshot_fresh h lf _ Hfresh _ _ _ Ev). exact (fun H => H). }
    assert (Hout : forall d', 
              all_some
                (map (fun kv => option_map (pair (fst kv))
                                  (snapshot n (<[lf := HDict data]> h) (snd kv)))
                   data) = Some d' ->
              snd r = Ok (serialize_document builtin_str (VDict d') 0 compact)).
    { intros d' Hd'. rewrite Er. unfold serialize_toon. cbn [snapshot].
      rewrite Hlf, Hd'. reflexivity. }
    destruct type_name as [[|c name]|]; try (apply Hout; exact Ed').
    split.
    + apply Hout. subst data. apply all_some_hdict_set; [|exact Ed'].
      destruct n; reflexivity.
    + unfold serialize_document, dict_get_default. rewrite dict_get_set_same.
      apply wrap_object_tagged. discriminate.
Qed.

(** A plan of one entry, serialized twice with the tag [plan]. *)
Lemma to_toon_serializes_a_copy_witness :
  let h : heap := <[1%positive := HDict [("limit", HInt 10)]]> ∅ in
  let r := to_toon (fun _ => []) 100 (HRef 1%positive) (Some "plan") true h in
  fst r !! 1%positive = Some (HDict [("limit", HInt 10)])
  /\ snd r = Ok "@plan{limit:10}"
  /\ snd (to_toon (fun _ => []) 100 (HRef 1%positive) (Some "plan") true (fst r))
     = Ok "@plan{limit:10}".
Proof.
  intros h r.
  pose proof (to_toon_serializes_a_copy (fun _ => []) 100 h 1%positive
                [("limit", HInt 10)] [("limit", VInt 10)] (Some "plan") true
                (lookup_insert_eq _ _ _) eq_refl) as [Hkeep [Hout _]].
  split; [apply Hkeep; apply lookup_insert_eq|].
  split; [exact Hout|].
  vm_compute. reflexivity.
Defined.

(** ** Table references *)

Lemma text_in_In s l : text_in s l = true <-> In s l.
Proof.
  unfold text_in. rewrite existsb_exists. split.
  - intros (x & Hx & E). apply text_eqb_eq in E. subst. exact Hx.
  - intros H. exists s. split; [exact H|apply text_eqb_refl].
Qed.

Lemma text_in_false s l : ~ In s l -> text_in s l = false.
Proof.
  intros H. destruct (text_in s l) eqn:E; [|reflexivity].
  apply text_in_In in E. contradiction.
Qed.

Lemma check_tables_known builtin_str names available :
  Forall (fun t => In t available) names ->
  check_tables builtin_str (map VStr names) available = Ok tt.
Proof.
  induction 1 as [|t names Ht _ IH]; [reflexivity|].
  cbn [map check_tables in_name_set bind].
  rewrite (proj2 (text_in_In t available) Ht). exact IH.
Qed.

Lemma check_tables_unknown builtin_str pre t post available :
  Forall (fun t => In t available) pre -> ~ In t available ->
  check_tables builtin_str (map VStr (pre ++ t :: post)) available
  = Raise (ValidationError
             ("Table '" ++ t ++ "' not found. Available tables: "
              ++ join ", " available)).
Proof.
  intros Hpre Ht. induction Hpre as [|p pre Hp _ IH].
  - cbn [app map check_tables in_name_set bind].
    rewrite (text_in_false t available Ht). reflexivity.
  - cbn [app map check_tables in_name_set bind].
    rewrite (proj2 (text_in_In p available) Hp). exact IH.
Qed.

Lemma table_references_checked_iff builtin_str (names : list text)
    (table_profiles : profiles) :
  validate_table_references builtin_str (VList (map VStr names)) table_profiles = Ok tt
  <-> Forall (fun t => In t (map fst table_profiles)) names.
Proof.
  unfold validate_table_references. cbn [py_iter bind]. split.
  - intros Hok.
    induction names as [|t names IH]; [constructor|].
    cbn [map check_tables in_name_set bind] in Hok.
    destruct (text_in t (map fst table_profiles)) eqn:E; [|discriminate Hok].
    constructor; [apply text_in_In; exact E|apply IH; exact Hok].
  - apply check_tables_known.
Qed.

(** [validate_table_references] accepts a list of names exactly when
    every name is a table of the schema; otherwise the error names the
    first one that is not.  A bare string in place of the list is
    checked character by character. *)
Theorem table_references_are_checked :
  forall builtin_str (names : list text) (table_profiles : profiles),
    (validate_table_references builtin_str (VList (map VStr names)) table_profiles
     = Ok tt
     <-> Forall (fun t => In t (map fst table_profiles)) names)
    /\ (forall pre t post,
          names = pre ++ t :: post ->
          Forall (fun t => In t (map fst table_profiles)) pre ->
          ~ In t (map fst table_profiles) ->
          exists msg,
            validate_table_references builtin_str (VList (map VStr names))
              table_profiles
            = Raise (ValidationError msg)
            /\ startswith ("Table '" ++ t ++ "' not found.") msg = true)
    /\ (forall c rest,
          ~ In [c] (map fst table_profiles) ->
          exists msg,
            validate_table_references builtin_str (VStr (c :: rest)) table_profiles
            = Raise (ValidationError msg)
            /\ startswith ("Table '" ++ [c] ++ "' not found.") msg = true).
Proof.
  intros builtin_str names table_profiles.
  assert (Hprefix : forall t rest,
            startswith ("Table '" ++ t ++ "' not found.")
              ("Table '" ++ t ++ "' not found. Available tables: " ++ rest) = true).
  { intros t rest. cbn [app startswith]. rewrite !char_eqb_refl. cbn [andb].
    induction t as [|x t IH]; [reflexivity|].
    cbn [app startswith]. rewrite char_eqb_refl. exact IH. }
  split; [|split].
  - apply table_references_checked_iff.
  - intros pre t post -> Hpre Ht. unfold validate_table_references. cbn [py_iter bind].
    rewrite (check_tables_unknown builtin_str pre t post _ Hpre Ht).
    eexists. split; [reflexivity|apply Hprefix].
  - intros c rest Hc. unfold validate_table_references.
    cbn [py_iter bind map check_tables in_name_set].
    rewrite (text_in_false [c] _ Hc). cbn [negb str_of].
    eexists. split; [reflexivity|apply (Hprefix [c])].
Qed.

Lemma table_references_are_checked_witness :
  let schema : profiles :=
    [ ("shipments", {| table_name := "shipments"; Profiler.row_count := 0; Profiler.columns := [] |});
      ("events", {| table_name := "events"; Profiler.row_count := 0; Profiler.columns := [] |}) ] in
  (exists msg,
     validate_table_references (fun _ => [])
       (VList (map VStr ["events"; "orders"; "shipments"])) schema
     = Raise (ValidationError msg)
     /\ startswith ("Table '" ++ "orders" ++ "' not found.") msg = true)
  /\ (exists msg,
        validate_table_references (fun _ => []) (VStr "shipments") schema
        = Raise (ValidationError msg)
        /\ startswith ("Table '" ++ "s" ++ "' not found.") msg = true).
Proof.
  intros schema.
  destruct (table_references_are_checked (fun _ => []) ["events"; "orders"; "shipments"]
              schema) as (_ & Hfirst & Hstr).
  split.
  - apply (Hfirst ["events"] "orders" ["shipments"]).
    + reflexivity.
    + constructor; [right; left; reflexivity|constructor].
    + cbn [map fst In]. intros [H|[H|H]]; [discriminate H|discriminate H|exact H].
  - apply (Hstr "s"%char "hipments").
    cbn [map fst In]. intros [H|[H|H]]; [discriminate H|discriminate H|exact H].
Defined.

(** ** Plans *)







(** ** What a panel keeps *)

Ltac split_ifs :=
  repeat match goal with
         | |- context [if ?b then _ else _] => destruct b
         end.

(** The fields of a panel that do not depend on its type. *)
Lemma generate_panel_fields self (spec : dict) sql grid_pos e panel :
  fst (generate_panel self (VDict spec) sql grid_pos e) = Ok panel ->
  field "id" panel = Some (VInt (Z.abs (hash_uuid (e 0)) mod 1000000))
  /\ field "title" panel = Some (dict_get_default "title" (VStr "Panel") spec)
  /\ field "description" panel = Some (dict_get_default "description" (VStr []) spec)
  /\ field "gridPos" panel = Some grid_pos
  /\ field "datasource" panel
     = Some (VDict [("type", VStr "frser-sqlite-datasource");
                    ("uid", datasource_name self)])
  /\ query_text panel = raw_query_text panel
  /\ (eq_str (dict_get_default "type" (VStr "bar") spec) "bar" = false ->
      query_text panel = Some sql).
Proof.
  unfold generate_panel.
  unfold bindM, generate_panel_id, uuid4, ret, bindM. cbn [fst snd].
  destruct (eq_str _ "bar").
  - cbn [fst]. destruct (bar_query spec sql) as [[x_col q]|x]; cbn [bind]; [|discriminate].
    intros [= <-]. unfold set_query. cbn [dict_get text_eqb char_eqb Ascii.eqb Bool.eqb andb].
    repeat split; try reflexivity. discriminate.
  - cbn [fst]. intros [= <-]. unfold typed_panel, with_type.
    split_ifs; repeat split; reflexivity.
Qed.

(** Whatever its type, a panel carries the grid position, the title and
    the description it was given (or their defaults), the data source
    of the generator, an [id] computed from the UUID drawn, and the same
    text as [queryText] and [rawQueryText]; for every type other than
    [bar] that text is the query as given. *)
Theorem panel_keeps_what_it_is_given :
  forall self (spec : dict) sql grid_pos e panel,
    fst (generate_panel self (VDict spec) sql grid_pos e) = Ok panel ->
    field "id" panel = Some (VInt (Z.abs (hash_uuid (e 0)) mod 1000000))
    /\ field "title" panel = Some (dict_get_default "title" (VStr "Panel") spec)
    /\ field "description" panel = Some (dict_get_default "description" (VStr []) spec)
    /\ field "gridPos" panel = Some grid_pos
    /\ field "datasource" panel
       = Some (VDict [("type", VStr "frser-sqlite-datasource");
                      ("uid", datasource_name self)])
    /\ query_text panel = raw_query_text panel
    /\ (eq_str (dict_get_default "type" (VStr "bar") spec) "bar" = false ->
        query_text panel = Some sql).
Proof. intros. apply generate_panel_fields. assumption. Qed.

Lemma panel_keeps_what_it_is_given_witness :
  exists panel,
    fst (generate_panel test_generator
           (VDict [("type", VStr "stat"); ("title", VStr "Total")])
           (VStr "SELECT update_count FROM t") (grid 0 8 12 8) counting_uuids)
    = Ok panel
    /\ field "gridPos" panel = Some (grid 0 8 12 8)
    /\ field "title" panel = Some (VStr "Total")
    /\ query_text panel = Some (VStr "SELECT update_count FROM t").
Proof.
  eexists. split; [reflexivity|].
  destruct (panel_keeps_what_it_is_given test_generator
              [("type", VStr "stat"); ("title", VStr "Total")]
              (VStr "SELECT update_count FROM t") (grid 0 8 12 8) counting_uuids
              _ eq_refl) as (_ & Ht & _ & Hg & _ & _ & Hq).
  split; [exact Hg|]. split; [exact Ht|]. apply Hq. reflexivity.
Defined.

Ltac crunch_bar :=
  repeat (cbn [bind py_lower py_contains truthy negb];
          match goal with
          | |- exists r, Ok _ = Ok r => eexists; reflexivity
          | |- context [re_search ?a ?b ?c] =>
              destruct (re_search a b c) as [[? ?]|]
          | |- context [if ?b then _ else _] => destruct b
          end).

Lemma bar_query_total (spec : dict) (s : text) :
  dict_get "x" spec = None \/ (exists x, dict_get "x" spec = Some (VStr x)) ->
  exists r, bar_query spec (VStr s) = Ok r.
Proof.
  intros Hx. unfold bar_query, dict_get_default, normalize_time_columns.
  destruct Hx as [->|[x ->]]; crunch_bar.
Qed.

Lemma typed_panel_of_type self (spec : dict) sql grid_pos e t g panel :
  In (t, g) grafana_types ->
  dict_get "type" spec = Some (VStr t) ->
  fst (generate_panel self (VDict spec) sql grid_pos e) = Ok panel ->
  field "type" panel = Some (VStr g)
  /\ is_Some (field "options" panel)
  /\ is_Some (field "fieldConfig" panel).
Proof.
  intros Hin Ht. unfold generate_panel, dict_get_default. rewrite Ht.
  unfold bindM, generate_panel_id, uuid4, ret, bindM. cbn [fst snd].
  cbn [In] in Hin.
  repeat (destruct Hin as [[= <- <-]|Hin];
          [try (cbn [eq_str text_eqb char_eqb Ascii.eqb Bool.eqb andb fst];
                intros [= <-]; repeat split; eexists; reflexivity)|]);
    [|destruct Hin].
  cbn [eq_str text_eqb char_eqb Ascii.eqb Bool.eqb andb fst].
  destruct (bar_query spec sql) as [[x_col q]|x]; cbn [bind]; [|discriminate].
  intros [= <-]. unfold set_query.
  cbn [dict_get text_eqb char_eqb Ascii.eqb Bool.eqb andb].
  repeat split; eexists; reflexivity.
Qed.

(** Each of the fourteen panel types of a plan is rendered as the
    Grafana panel type of its own, with options and a field
    configuration; for a type other than [bar] a panel is always
    returned, and for [bar] it is whenever the query is a string and the
    [x] entry is absent or a string. *)
Theorem known_types_have_their_panel :
  forall self (spec : dict) sql grid_pos e t g,
    In (t, g) grafana_types ->
    dict_get "type" spec = Some (VStr t) ->
    (forall panel,
       fst (generate_panel self (VDict spec) sql grid_pos e) = Ok panel ->
       field "type" panel = Some (VStr g)
       /\ is_Some (field "options" panel)
       /\ is_Some (field "fieldConfig" panel))
    /\ (t <> "bar" ->
        exists panel, fst (generate_panel self (VDict spec) sql grid_pos e) = Ok panel)
    /\ (forall s,
          sql = VStr s ->
          dict_get "x" spec = None \/ (exists x, dict_get "x" spec = Some (VStr x)) ->
          exists panel, fst (generate_panel self (VDict spec) sql grid_pos e) = Ok panel).
Proof.
  intros self spec sql grid_pos e t g Hin Ht. split; [|split].
  - intros panel. apply (typed_panel_of_type self spec sql grid_pos e t g); assumption.
  - intros Hbar. unfold generate_panel, dict_get_default. rewrite Ht.
    unfold bindM, generate_panel_id, uuid4, ret, bindM. cbn [fst snd eq_str].
    rewrite (text_eqb_neq t "bar" Hbar). cbn [fst]. eexists. reflexivity.
  - intros s -> Hx. unfold generate_panel, dict_get_default. rewrite Ht.
    unfold bindM, generate_panel_id, uuid4, ret, bindM. cbn [fst snd].
    destruct (eq_str (VStr t) "bar"); cbn [fst]; [|eexists; reflexivity].
    destruct (bar_query_total spec s Hx) as [[x_col q] ->]. cbn [bind].
    eexists. reflexivity.
Qed.

Lemma known_types_have_their_panel_witness :
  exists panel,
    fst (generate_panel test_generator (VDict [("type", VStr "state_timeline")])
           (VStr "SELECT 1") (grid 0 0 12 8) counting_uuids) = Ok panel
    /\ field "type" panel = Some (VStr "state-timeline").
Proof.
  destruct (known_types_have_their_panel test_generator
              [("type", VStr "state_timeline")] (VStr "SELECT 1") (grid 0 0 12 8)
              counting_uuids "state_timeline" "state-timeline")
    as (Htype & Hsome & _).
  - cbn [grafana_types In]. do 8 right. left. reflexivity.
  - reflexivity.
  - destruct Hsome as [panel Hpanel]; [discriminate|].
    exists panel. split; [exact Hpanel|]. apply Htype. exact Hpanel.
Defined.

(** ** The layout of a dashboard *)

Lemma bindR_ok {A B} (m : M (result A)) (k : A -> M (result B)) e b :
  fst (bindR m k e) = Ok b ->
  exists a e', m e = (Ok a, e') /\ fst (k a e') = Ok b.
Proof.
  unfold bindR, bindM. destruct (m e) as [[a|x] e']; [|discriminate].
  intros H. exists a, e'. auto.
Qed.

Lemma rectangle_of_panel self spec sql x y w h e panel :
  fst (generate_panel self (VDict spec) sql (grid x y w h) e) = Ok panel ->
  rectangle panel = Some (x, y, w, h).
Proof.
  intros H. apply generate_panel_fields in H as (_ & _ & _ & Hg & _).
  unfold rectangle. rewrite Hg. reflexivity.
Qed.

(** One step of the layout loop. *)
Lemma layout_loop_step self panel_spec rest i y_pos done e out :
  fst (layout_loop self (panel_spec :: rest) i y_pos done e) = Ok out ->
  exists panel e' r y',
    rectangle panel = Some r
    /\ fst (layout_loop self rest (S i) y' (done ++ [panel]) e') = Ok out
    /\ ((is_full_width panel_spec = true
         /\ r = (0, y_pos, 24, 8)%Z /\ y' = (y_pos + 8)%Z)
        \/ (is_full_width panel_spec = false /\ Nat.even i = true
            /\ r = (0, y_pos, 12, 8)%Z /\ y' = y_pos)
        \/ (is_full_width panel_spec = false /\ Nat.even i = false
            /\ r = (12, y_pos, 12, 8)%Z /\ y' = (y_pos + 8)%Z)).
Proof.
  cbn [layout_loop]. unfold is_full_width, layout_type.
  destruct panel_spec as [| | | | | |spec]; try discriminate.
  destruct (dict_get_default "viz" (VDict spec) spec) as [| | | | | |viz];
    try discriminate.
  set (t := dict_get_default "type" (VStr "bar") viz).
  rewrite (grid_position_rule i y_pos t).
  destruct (eq_str t "table" || eq_str t "line");
    [|destruct (Nat.even i)]; intros H; apply bindR_ok in H as (panel & e' & Hp & H);
    apply (f_equal fst) in Hp; cbn [fst] in Hp;
    apply rectangle_of_panel in Hp;
    eexists panel, e', _, _;
    (split; [exact Hp|]); (split; [exact H|]); auto 10.
Qed.

Lemma layout_loop_grid self panels : forall i y_pos done e out k,
  (0 <= k)%Z -> y_pos = (8 * k)%Z ->
  fst (layout_loop self panels i y_pos done e) = Ok out ->
  exists news rs,
    out = done ++ news
    /\ map rectangle news = map Some rs
    /\ length rs = length panels
    /\ Forall in_grid rs
    /\ Forall (fun r => (y_pos <= row_of r)%Z) rs
    /\ StronglySorted (fun a b => (row_of a <= row_of b)%Z) rs.
Proof.
  induction panels as [|panel_spec rest IH]; intros i y_pos done e out k Hk Hy H.
  - cbn [layout_loop ret fst] in H. injection H as <-.
    exists [], []. rewrite app_nil_r. repeat split; constructor.
  - apply layout_loop_step in H as (panel & e' & r & y' & Hr & H & Hcase).
    assert (Hy' : exists k', (0 <= k')%Z /\ y' = (8 * k')%Z /\ (y_pos <= y')%Z).
    { destruct Hcase as [(_ & _ & ->)|[(_ & _ & _ & ->)|(_ & _ & _ & ->)]].
      - exists (k + 1)%Z. lia.
      - exists k. lia.
      - exists (k + 1)%Z. lia. }
    destruct Hy' as (k' & Hk' & Hy' & Hle).
    destruct (IH _ _ _ _ _ k' Hk' Hy' H) as (news & rs & -> & Hrs & Hlen & Hgrid & Hrows & Hsorted).
    assert (Hin : in_grid r /\ row_of r = y_pos).
    { assert (Hmod : (y_pos mod 8 = 0)%Z).
      { rewrite Hy, Z.mul_comm. apply Z.mod_mul. lia. }
      destruct Hcase as [(_ & -> & _)|[(_ & _ & -> & _)|(_ & _ & -> & _)]];
        cbn [in_grid row_of]; repeat split; lia. }
    destruct Hin as [Hin Hrow].
    exists (panel :: news), (r :: rs). rewrite <- app_assoc. cbn [app map length].
    rewrite Hr, Hrs, Hlen. repeat split.
    + constructor; assumption.
    + constructor; [lia|]. eapply Forall_impl; [exact Hrows|]. cbn beta. intros; lia.
    + constructor; [exact Hsorted|].
      eapply Forall_impl; [exact Hrows|]. cbn beta. intros; lia.
Qed.

Lemma multi_panel_panels self panels title e d :
  fst (generate_multi_panel_dashboard self panels title e) = Ok d ->
  exists e', fst (layout_loop self panels 0 0%Z [] e') = Ok (panels_of d)
             /\ field "title" d = Some title
             /\ field "uid" d = Some (VStr (uid_of (e 0))).
Proof.
  unfold generate_multi_panel_dashboard. unfold bindM at 1.
  unfold generate_uid, bindM, uuid4, ret. cbn [fst snd].
  intros H. apply bindR_ok in H as (generated & e' & Hl & H).
  cbn [fst] in H. injection H as <-.
  eexists. rewrite Hl. repeat split.
Qed.

(** Every panel of a multi-panel dashboard is placed inside the grid of
    24 columns: there are as many panels as specs, each of width 12 or
    24 and of height 8, on a row that starts at a multiple of 8, and the
    rows never go back up. *)
Theorem layout_stays_in_the_grid :
  forall self panels title e d,
    fst (generate_multi_panel_dashboard self panels title e) = Ok d ->
    exists rs,
      map rectangle (panels_of d) = map Some rs
      /\ length rs = length panels
      /\ Forall in_grid rs
      /\ StronglySorted (fun a b => (row_of a <= row_of b)%Z) rs.
Proof.
  intros self panels title e d H.
  apply multi_panel_panels in H as (e' & H & _).
  apply (layout_loop_grid self panels 0 0%Z [] e' _ 0%Z) in H; [|lia|reflexivity].
  destruct H as (news & rs & -> & Hrs & Hlen & Hgrid & _ & Hsorted).
  exists rs. auto.
Qed.

Lemma layout_stays_in_the_grid_witness :
  exists rs,
    map Some [(0, 0, 12, 8); (0, 0, 24, 8); (0, 8, 12, 8)]%Z = map Some rs
    /\ length rs = 3
    /\ Forall in_grid rs
    /\ StronglySorted (fun a b => (row_of a <= row_of b)%Z) rs.
Proof.
  apply (layout_stays_in_the_grid test_generator
           [panel_of_type "stat"; panel_of_type "table"; panel_of_type "gauge"]
           (VStr "Overview") counting_uuids
           _ eq_refl).
Defined.

Lemma even_step i :
  Nat.even i = true -> i mod 2 = 0 /\ S i / 2 = i / 2.
Proof.
  intros H. apply Nat.even_spec in H as [k ->].
  replace (S (2 * k)) with (1 + k * 2) by lia.
  rewrite Nat.div_add by lia. rewrite (Nat.mul_comm 2 k), Nat.Div0.mod_mul.
  rewrite Nat.div_mul by lia. split; reflexivity.
Qed.

Lemma odd_step i :
  Nat.even i = false -> i mod 2 = 1 /\ S i / 2 = S (i / 2).
Proof.
  intros H. assert (Hodd : Nat.odd i = true) by (rewrite <- Nat.negb_even, H; reflexivity).
  apply Nat.odd_spec in Hodd as [k ->].
  replace (S (2 * k + 1)) with ((k + 1) * 2) by lia.
  replace (2 * k + 1) with (1 + k * 2) by lia.
  rewrite Nat.div_mul by lia. rewrite Nat.Div0.mod_add, Nat.div_add by lia.
  cbn. split; [reflexivity|lia].
Qed.

Lemma layout_loop_half self panels : forall i done e out,
  Forall (fun p => is_full_width p = false) panels ->
  fst (layout_loop self panels i (8 * Z.of_nat (i / 2))%Z done e) = Ok out ->
  exists news,
    out = done ++ news
    /\ map rectangle news = map Some (map half_cell (seq i (length panels))).
Proof.
  induction panels as [|panel_spec rest IH]; intros i done e out Hall H.
  - cbn [layout_loop ret fst] in H. injection H as <-.
    exists []. rewrite app_nil_r. split; reflexivity.
  - inversion Hall as [|? ? Hhalf Hall']; subst.
    apply layout_loop_step in H as (panel & e' & r & y' & Hr & H & Hcase).
    destruct Hcase as [(Hfull & _)|[(_ & Heven & -> & ->)|(_ & Heven & -> & ->)]];
      [congruence| |].
    + destruct (even_step i Heven) as [Hmod Hdiv].
      rewrite <- Hdiv in H. destruct (IH _ _ _ _ Hall' H) as (news & -> & Hnews).
      exists (panel :: news). rewrite <- app_assoc. split; [reflexivity|].
      cbn [map length seq]. rewrite Hr, Hnews. do 2 f_equal.
      unfold half_cell. rewrite Hmod. reflexivity.
    + destruct (odd_step i Heven) as [Hmod Hdiv].
      replace (8 * Z.of_nat (i / 2) + 8)%Z with (8 * Z.of_nat (S i / 2))%Z in H
        by (rewrite Hdiv; lia).
      destruct (IH _ _ _ _ Hall' H) as (news & -> & Hnews).
      exists (panel :: news). rewrite <- app_assoc. split; [reflexivity|].
      cbn [map length seq]. rewrite Hr, Hnews. do 2 f_equal.
      unfold half_cell. rewrite Hmod. reflexivity.
Qed.

Lemma layout_loop_full self panels : forall i j done e out,
  Forall (fun p => is_full_width p = true) panels ->
  fst (layout_loop self panels i (8 * Z.of_nat j)%Z done e) = Ok out ->
  exists news,
    out = done ++ news
    /\ map rectangle news = map Some (map full_row (seq j (length panels))).
Proof.
  induction panels as [|panel_spec rest IH]; intros i j done e out Hall H.
  - cbn [layout_loop ret fst] in H. injection H as <-.
    exists []. rewrite app_nil_r. split; reflexivity.
  - inversion Hall as [|? ? Hfull Hall']; subst.
    apply layout_loop_step in H as (panel & e' & r & y' & Hr & H & Hcase).
    destruct Hcase as [(_ & -> & ->)|[(Hhalf & _)|(Hhalf & _)]]; try congruence.
    replace (8 * Z.of_nat j + 8)%Z with (8 * Z.of_nat (S j))%Z in H by lia.
    destruct (IH _ _ _ _ _ Hall' H) as (news & -> & Hnews).
    exists (panel :: news). rewrite <- app_assoc. split; [reflexivity|].
    cbn [map length seq]. rewrite Hr, Hnews. reflexivity.
Qed.

Lemma half_cells_disjoint i j : i <> j -> overlap (half_cell i) (half_cell j) = false.
Proof.
  intros Hne. apply not_true_is_false. unfold half_cell, overlap. intros H.
  rewrite !andb_true_iff, !Z.ltb_lt in H.
  pose proof (Nat.div_mod_eq i 2). pose proof (Nat.div_mod_eq j 2).
  pose proof (Nat.mod_upper_bound i 2 ltac:(lia)).
  pose proof (Nat.mod_upper_bound j 2 ltac:(lia)).
  lia.
Qed.

Lemma full_rows_disjoint i j : i <> j -> overlap (full_row i) (full_row j) = false.
Proof.
  intros Hne. apply not_true_is_false. unfold full_row, overlap. intros H.
  rewrite !andb_true_iff, !Z.ltb_lt in H. lia.
Qed.

(** When no panel of the list is a table or a line, panel number [i] is
    placed in column [i mod 2] of row [i / 2]; when every panel is a
    table or a line, panel number [i] takes row [i]; in both cases no
    two panels overlap. *)
Theorem uniform_layout_does_not_overlap :
  forall self panels title e d,
    fst (generate_multi_panel_dashboard self panels title e) = Ok d ->
    (Forall (fun p => is_full_width p = false) panels ->
     map rectangle (panels_of d) = map Some (map half_cell (seq 0 (length panels))))
    /\ (Forall (fun p => is_full_width p = true) panels ->
        map rectangle (panels_of d) = map Some (map full_row (seq 0 (length panels))))
    /\ (Forall (fun p => is_full_width p = false) panels
        \/ Forall (fun p => is_full_width p = true) panels ->
        forall i j ri rj,
          i <> j ->
          map rectangle (panels_of d) !! i = Some (Some ri) ->
          map rectangle (panels_of d) !! j = Some (Some rj) ->
          overlap ri rj = false).
Proof.
  intros self panels title e d H.
  apply multi_panel_panels in H as (e' & H & _).
  assert (Hhalf : Forall (fun p => is_full_width p = false) panels ->
                  map rectangle (panels_of d)
                  = map Some (map half_cell (seq 0 (length panels)))).
  { intros Hall. apply (layout_loop_half self panels 0 [] e' _ Hall) in H.
    destruct H as (news & -> & Hnews). exact Hnews. }
  assert (Hfull : Forall (fun p => is_full_width p = true) panels ->
                  map rectangle (panels_of d)
                  = map Some (map full_row (seq 0 (length panels)))).
  { intros Hall. apply (layout_loop_full self panels 0 0 [] e' _ Hall) in H.
    destruct H as (news & -> & Hnews). exact Hnews. }
  split; [exact Hhalf|]. split; [exact Hfull|].
  intros [Hall|Hall] i j ri rj Hne Hi Hj.
  - rewrite (Hhalf Hall) in Hi, Hj. rewrite !list_lookup_fmap in Hi, Hj.
    destruct (seq 0 (length panels) !! i) as [i'|] eqn:Ei; [|discriminate].
    destruct (seq 0 (length panels) !! j) as [j'|] eqn:Ej; [|discriminate].
    apply lookup_seq in Ei as [-> _]. apply lookup_seq in Ej as [-> _].
    cbn in Hi, Hj. injection Hi as <-. injection Hj as <-.
    apply half_cells_disjoint. lia.
  - rewrite (Hfull Hall) in Hi, Hj. rewrite !list_lookup_fmap in Hi, Hj.
    destruct (seq 0 (length panels) !! i) as [i'|] eqn:Ei; [|discriminate].
    destruct (seq 0 (length panels) !! j) as [j'|] eqn:Ej; [|discriminate].
    apply lookup_seq in Ei as [-> _]. apply lookup_seq in Ej as [-> _].
    cbn in Hi, Hj. injection Hi as <-. injection Hj as <-.
    apply full_rows_disjoint. lia.
Qed.

Lemma uniform_layout_does_not_overlap_witness :
  exists d,
    fst (generate_multi_panel_dashboard test_generator
           [panel_of_type "stat"; panel_of_type "gauge"; panel_of_type "pie"]
           (VStr "Overview") counting_uuids) = Ok d
    /\ map rectangle (panels_of d)
       = map Some [(0, 0, 12, 8); (12, 0, 12, 8); (0, 8, 12, 8)]%Z.
Proof.
  eexists. split; [reflexivity|].
  apply (proj1 (uniform_layout_does_not_overlap test_generator
                  [panel_of_type "stat"; panel_of_type "gauge"; panel_of_type "pie"]
                  (VStr "Overview") counting_uuids _ eq_refl)).
  repeat constructor.
Defined.

(** ** Identifiers *)

Lemma layout_loop_calls self panels : forall i y_pos done e out,
  fst (layout_loop self panels i y_pos done e) = Ok out ->
  exists news, out = done ++ news /\ Forall2 (generated_from self) panels news.
Proof.
  induction panels as [|panel_spec rest IH]; intros i y_pos done e out H.
  - cbn [layout_loop ret fst] in H. injection H as <-.
    exists []. rewrite app_nil_r. split; constructor.
  - cbn [layout_loop] in H.
    destruct panel_spec as [| | | | | |spec]; try discriminate.
    destruct (dict_get_default "viz" (VDict spec) spec) as [| | | | | |viz] eqn:Eviz;
      try discriminate.
    destruct (grid_position i y_pos _) as [grid_pos y'].
    apply bindR_ok in H as (panel & e' & Hp & H).
    destruct (IH _ _ _ _ _ H) as (news & -> & Hnews).
    exists (panel :: news). rewrite <- app_assoc. split; [reflexivity|].
    constructor; [|exact Hnews].
    exists viz, grid_pos, e. unfold spec_viz, spec_sql. rewrite Eviz.
    split; [reflexivity|]. rewrite Hp. reflexivity.
Qed.

Lemma hex_digits_length k : forall n, length (hex_digits k n) = k.
Proof.
  induction k as [|k IH]; intros n; [reflexivity|].
  cbn [hex_digits]. rewrite length_app, IH. simpl. lia.
Qed.

Lemma hex_digit_is_hex d : (d < 16)%N -> is_hex_digit (hex_digit d) = true.
Proof.
  intros H.
  assert (Hd : In d [0; 1; 2; 3; 4; 5; 6; 7; 8; 9; 10; 11; 12; 13; 14; 15]%N).
  { cbn [In]. lia. }
  cbn [In] in Hd.
  repeat (destruct Hd as [<-|Hd]; [reflexivity|]). destruct Hd.
Qed.

Lemma hex_digits_are_hex k : forall n, forallb is_hex_digit (hex_digits k n) = true.
Proof.
  induction k as [|k IH]; intros n; [reflexivity|].
  cbn [hex_digits]. rewrite forallb_app, IH. cbn [forallb].
  rewrite hex_digit_is_hex; [reflexivity|]. apply N.mod_lt. discriminate.
Qed.

Lemma generated_panel_id self panel_spec panel :
  generated_from self panel_spec panel ->
  exists id, field "id" panel = Some (VInt id) /\ (0 <= id < 1000000)%Z.
Proof.
  intros (viz & grid_pos & e & _ & H).
  apply generate_panel_fields in H as (Hid & _).
  eexists. split; [exact Hid|]. apply Z.mod_pos_bound. lia.
Qed.

Lemma generated_panels_ids self specs panels :
  Forall2 (generated_from self) specs panels ->
  Forall (fun panel =>
            exists id, field "id" panel = Some (VInt id)
                       /\ (0 <= id < 1000000)%Z) panels.
Proof.
  induction 1 as [|spec panel specs news Hp _ IH]; constructor.
  - exact (generated_panel_id self spec panel Hp).
  - exact IH.
Qed.

Lemma multi_panel_identified self panels title e d :
  fst (generate_multi_panel_dashboard self panels title e) = Ok d ->
  well_identified d /\ Forall2 (generated_from self) panels (panels_of d).
Proof.
  intros H. apply multi_panel_panels in H as (e' & H & _ & Huid).
  apply layout_loop_calls in H as (news & Hnews & Hfrom). cbn [app] in Hnews.
  rewrite <- Hnews in Hfrom. split; [split|exact Hfrom].
  - eexists. split; [exact Huid|]. unfold uid_of.
    split; [apply hex_digits_length|apply hex_digits_are_hex].
  - exact (generated_panels_ids self panels _ Hfrom).
Qed.

(** ** Dashboards of a plan *)




(** What [generate_dashboard] does with a plan, by the shape of its
    [viz]. *)
Lemma generate_dashboard_cases self (plan : dict) title e d :
  fst (generate_dashboard self (VDict plan) title e) = Ok d ->
  let sql := dict_get_default "sql" (VStr []) plan in
  let viz := dict_get_default "viz" (VDict []) plan in
  exists title',
    (if negb (truthy title)
     then default_title
            (dict_get_default "q"
               (dict_get_default "question" (VStr "Analytics Dashboard") plan) plan)
            viz
     else Ok title) = Ok title'
    /\ field "title" d = Some title'
    /\ field "uid" d = Some (VStr (uid_of (e 0)))
    /\ ((exists items enriched,
           viz = VList items
           /\ enrich_all sql items = Ok enriched
           /\ fst (generate_multi_panel_dashboard self enriched title' e) = Ok d)
        \/ ((forall items, viz <> VList items)
            /\ field "refresh" d = Some (VStr "5s")
            /\ ((truthy viz && truthy sql = false /\ panels_of d = [])
                \/ (truthy viz && truthy sql = true
                    /\ exists spec panel e',
                         viz = VDict spec
                         /\ fst (generate_panel self viz sql (grid 0 0 24 12) e')
                            = Ok panel
                         /\ panels_of d = [panel])))).
Proof.
  intros H sql viz. subst sql viz. cbn [generate_dashboard] in H.
  set (sql := dict_get_default "sql" (VStr []) plan) in *.
  set (viz := dict_get_default "viz" (VDict []) plan) in *.
  destruct (if negb (truthy title) then _ else _) as [title'|x];
    [|discriminate].
  exists title'. split; [reflexivity|].
  assert (Hlegacy :
    (forall items, viz <> VList items) ->
    fst (bindM generate_uid (fun uid =>
           bindR (if truthy viz && truthy sql
                  then bindR (generate_panel self viz sql (grid 0 0 24 12))
                         (fun panel => ret (Ok [panel]))
                  else ret (Ok []))
             (fun panels =>
                ret (Ok (dashboard_document uid title'
                           ["auto-generated"; "analytics"] "5s" "now-1h"
                           panels)))) e) = Ok d ->
    field "title" d = Some title'
    /\ field "uid" d = Some (VStr (uid_of (e 0)))
    /\ ((exists items enriched,
           viz = VList items
           /\ enrich_all sql items = Ok enriched
           /\ fst (generate_multi_panel_dashboard self enriched title' e) = Ok d)
        \/ ((forall items, viz <> VList items)
            /\ field "refresh" d = Some (VStr "5s")
            /\ ((truthy viz && truthy sql = false /\ panels_of d = [])
                \/ (truthy viz && truthy sql = true
                    /\ exists spec panel e',
                         viz = VDict spec
                         /\ fst (generate_panel self viz sql (grid 0 0 24 12) e')
                            = Ok panel
                         /\ panels_of d = [panel]))))).
  { intros Hviz. unfold bindM at 1. unfold generate_uid, bindM, uuid4, ret.
    cbn [fst snd]. intros Hd. apply bindR_ok in Hd as (panels & e' & Hp & Hd).
    cbn [fst] in Hd. injection Hd as <-.
    split; [reflexivity|]. split; [reflexivity|]. right.
    split; [exact Hviz|]. split; [reflexivity|].
    destruct (truthy viz && truthy sql).
    - right. split; [reflexivity|].
      assert (Hp' : fst (bindR (generate_panel self viz sql (grid 0 0 24 12))
                           (fun panel => (fun e0 => (Ok [panel], e0)))
                           (fun n => e (S n))) = Ok panels)
        by (rewrite Hp; reflexivity).
      apply bindR_ok in Hp' as (panel & e0 & Hpanel & Hret).
      cbn [fst] in Hret. injection Hret as <-.
      destruct viz as [| | | | | |spec]; try discriminate.
      exists spec, panel, (fun n => e (S n)). rewrite Hpanel.
      repeat split.
    - left. split; [reflexivity|]. injection Hp as <- _. reflexivity. }
  destruct viz as [| | | | |items|spec] eqn:Eviz;
    try (apply Hlegacy; [discriminate|exact H]).
  destruct (enrich_all sql items) as [enriched|x] eqn:Een; [|discriminate].
  destruct (multi_panel_panels _ _ _ _ _ H) as (e' & _ & Ht & Hu).
  split; [exact Ht|]. split; [exact Hu|]. left.
  exists items, enriched.
  split; [reflexivity|]. split; [first [exact Een|reflexivity]|exact H].
Qed.

(** Every dashboard that is generated has a [uid] of twelve hexadecimal
    digits and panels whose [id] lies between 0 and 999999, whichever of
    the three entry points produced it. *)
Theorem dashboards_are_well_identified :
  forall self,
    (forall plan title e d,
        fst (generate_dashboard self plan title e) = Ok d -> well_identified d)
    /\ (forall panels title e d,
           fst (generate_multi_panel_dashboard self panels title e) = Ok d ->
           well_identified d)
    /\ (forall overview e d,
           fst (generate_from_overview self overview e) = Ok d ->
           well_identified d).
Proof.
  intros self.
  assert (Hmulti : forall panels title e d,
             fst (generate_multi_panel_dashboard self panels title e) = Ok d ->
             well_identified d).
  { intros panels title e d H. apply (multi_panel_identified _ _ _ _ _ H). }
  split; [|split; [exact Hmulti|]].
  - intros plan title e d H.
    destruct plan as [| | | | | |plan]; try discriminate.
    apply generate_dashboard_cases in H as (title' & _ & _ & Hu & Hcases).
    destruct Hcases as [(items & enriched & _ & _ & H)
                       |(_ & _ & [[_ Hp]|(_ & spec & panel & e' & _ & Hpanel & Hp)])].
    + exact (Hmulti _ _ _ _ H).
    + split.
      * eexists. split; [exact Hu|]. unfold uid_of.
        split; [apply hex_digits_length|apply hex_digits_are_hex].
      * rewrite Hp. constructor.
    + split.
      * eexists. split; [exact Hu|]. unfold uid_of.
        split; [apply hex_digits_length|apply hex_digits_are_hex].
      * rewrite Hp. constructor; [|constructor].
        destruct (dict_get_default "viz" (VDict []) plan) as [| | | | | |viz];
          try discriminate.
        apply generate_panel_fields in Hpanel as (Hid & _).
        eexists. split; [exact Hid|]. apply Z.mod_pos_bound. lia.
  - intros overview e d H.
    destruct overview as [| | | | | |overview]; try discriminate.
    cbn [generate_from_overview] in H.
    destruct (py_iter _) as [panels|x]; [exact (Hmulti _ _ _ _ H)|discriminate].
Qed.

Lemma dashboards_are_well_identified_witness :
  exists d,
    fst (generate_dashboard test_generator
           (VDict [("q", VStr "How many updates?");
                   ("sql", VStr "SELECT 1");
                   ("viz", VList [panel_of_type "stat"; panel_of_type "table"])])
           VNone counting_uuids) = Ok d
    /\ well_identified d.
Proof.
  eexists. split; [reflexivity|].
  apply (proj1 (dashboards_are_well_identified test_generator)
           (VDict [("q", VStr "How many updates?");
                   ("sql", VStr "SELECT 1");
                   ("viz", VList [panel_of_type "stat"; panel_of_type "table"])])
           VNone counting_uuids).
  reflexivity.
Defined.





(** * The executor *)

Lemma star_word_end {A} (k : option ascii -> text -> groups -> option A) g :
  (forall p s, at_end s = true -> k p s g <> None) ->
  forall s p,
    star false CWord p s (fun p s' => run false REnd p s' g k) = None
    <-> at_end (lstrip_with is_word s) = false.
Proof.
  intros Hk. induction s as [|x s IH]; intros p.
  - cbn. split; [|discriminate]. intros H. destruct (Hk p [] eq_refl H).
  - cbn [star lstrip_with]. unfold cls_match. cbn [cmatch].
    destruct (is_word x) eqn:Ex.
    + destruct (star false CWord (Some x) s _) eqn:Es.
      * split; [discriminate|]. intros H. apply (proj2 (IH (Some x))) in H. congruence.
      * apply (proj1 (IH (Some x))) in Es. rewrite Es. split; [reflexivity|intros _].
        cbn [run]. destruct s as [|y s]; [|reflexivity].
        destruct (char_eqb x "010") eqn:Enl; [|reflexivity].
        apply char_eqb_eq in Enl. subst x. discriminate Ex.
    + cbn [run at_end]. destruct s as [|y s].
      * destruct (char_eqb x "010") eqn:Enl; [|split; reflexivity].
        split; [|discriminate]. intros H.
        refine (match Hk p [x] _ H with end). cbn. exact Enl.
      * split; reflexivity.
Qed.

Lemma name_pattern_matches s :
  re_match false name_pattern s = None <-> is_name s = false.
Proof.
  unfold re_match, match_at, name_pattern, is_name. cbn [run].
  destruct s as [|x s]; [split; reflexivity|].
  unfold cls_match. cbn [cmatch lstrip_with].
  destruct (is_word x); [|split; reflexivity]. cbn [andb].
  refine (star_word_end
            (fun _ s' g =>
               Some {| m_text := take (length (x :: s) - length s') (x :: s);
                       m_groups := g; m_rest := s' |}) [] _ s (Some x)).
  intros p s' _. discriminate.
Qed.

Lemma fold_set_other (k : text) pairs : forall d : dict,
  ~ In k (map fst pairs) ->
  dict_get k (fold_left (fun d kv => dict_set d (fst kv) (snd kv)) pairs d)
  = dict_get k d.
Proof.
  induction pairs as [|[k0 v0] pairs IH]; intros d Hk; [reflexivity|].
  cbn [fold_left fst snd]. cbn [map fst In] in Hk.
  rewrite IH by tauto. apply dict_get_set_other. intros ->. tauto.
Qed.

Lemma fold_set_keys (k : text) pairs : forall d : dict,
  is_Some (dict_get k (fold_left (fun d kv => dict_set d (fst kv) (snd kv)) pairs d)) ->
  In k (map fst pairs) \/ is_Some (dict_get k d).
Proof.
  induction pairs as [|[k0 v0] pairs IH]; intros d H; [right; exact H|].
  cbn [fold_left fst snd] in H. apply IH in H as [H|H]; [left; right; exact H|].
  destruct (text_eqb k k0) eqn:E.
  - apply text_eqb_eq in E. left. left. symmetry. exact E.
  - right. rewrite dict_get_set_other in H; [exact H|].
    intros ->. rewrite text_eqb_refl in E. discriminate.
Qed.

Lemma row_dict_lookup names : forall row j c v (d : dict),
  NoDup names -> names !! j = Some c -> row !! j = Some v ->
  dict_get c (fold_left (fun d kv => dict_set d (fst kv) (snd kv))
                (combine names row) d) = Some v.
Proof.
  induction names as [|n names IH]; intros row j c v d Hnd Hc Hv; [discriminate|].
  destruct row as [|v0 row]; [discriminate|].
  apply NoDup_cons in Hnd as [Hn Hnd].
  cbn [combine fold_left fst snd]. destruct j as [|j].
  - injection Hc as <-. injection Hv as <-.
    rewrite fold_set_other; [apply dict_get_set_same|].
    intros Hin. apply Hn. apply list_elem_of_In.
    apply in_map_iff in Hin as ([k w] & <- & Hin).
    exact (in_combine_l _ _ _ _ Hin).
  - exact (IH row j c v _ Hnd Hc Hv).
Qed.

Section Database.
Variable database : Type.
Variable conn_execute : pyval -> database -> answer * database.

Lemma run_query_result sql db r db' :
  run_query database conn_execute sql db = (r, db') ->
  (success r = false /\ data r = [] /\ columns r = [] /\ row_count r = 0)
  \/ exists rows,
       conn_execute sql db = (Rows (columns r) rows, db')
       /\ success r = true
       /\ data r = map (row_dict (columns r)) rows
       /\ row_count r = length rows
       /\ error r = VNone.
Proof.
  unfold run_query. destruct (conn_execute sql db) as [[names rows|message] db0].
  - intros [= <- <-]. right. exists rows. cbn. rewrite length_map. repeat split.
  - intros [= <- <-]. left. repeat split.
Qed.

Lemma execute_result sql validate db r db' :
  execute database conn_execute sql validate db = (Ok r, db') ->
  (success r = false /\ data r = [] /\ columns r = [] /\ row_count r = 0)
  \/ exists rows,
       conn_execute sql db = (Rows (columns r) rows, db')
       /\ success r = true
       /\ data r = map (row_dict (columns r)) rows
       /\ row_count r = length rows
       /\ error r = VNone.
Proof.
  unfold execute. intros H.
  assert (Hrun : (let '(r0, db0) := run_query database conn_execute sql db in
                  (Ok r0, db0)) = (Ok r, db') ->
                 run_query database conn_execute sql db = (r, db')).
  { destruct (run_query database conn_execute sql db) as [r0 db0].
    intros [= <- <-]. reflexivity. }
  destruct validate; [|exact (run_query_result _ _ _ _ (Hrun H))].
  destruct sql as [| | | |s| |]; try discriminate.
  destruct (validate_sql_readonly s) as [[]|[]];
    try discriminate; [exact (run_query_result _ _ _ _ (Hrun H))|].
  injection H as <- <-. left. repeat split.
Qed.

End Database.

(** A result of [execute] is consistent.  A failure holds no data: no
    rows, no columns, a row count of 0.  A success holds no error, the
    column names and as many dictionaries as the database returned
    rows, counted by [row_count]; the keys of each dictionary are
    column names, and when the column names are distinct the value of a
    row at the position of a column is found under the name of that
    column. *)
Theorem query_results_are_consistent :
  forall (database : Type) (conn_execute : pyval -> database -> answer * database)
         sql validate db r db',
    execute database conn_execute sql validate db = (Ok r, db') ->
    (success r = false -> data r = [] /\ columns r = [] /\ row_count r = 0)
    /\ (success r = true ->
        exists rows,
          conn_execute sql db = (Rows (columns r) rows, db')
          /\ error r = VNone
          /\ row_count r = length rows
          /\ length (data r) = length rows
          /\ forall i row,
               rows !! i = Some row ->
               exists d,
                 data r !! i = Some d
                 /\ (forall k, is_Some (dict_get k d) -> In k (columns r))
                 /\ (NoDup (columns r) ->
                     forall j c v,
                       columns r !! j = Some c -> row !! j = Some v ->
                       dict_get c d = Some v)).
Proof.
  intros database conn_execute sql validate db r db' H.
  apply execute_result in H
    as [(Hs & Hd & Hc & Hn)|(rows & Hconn & Hs & Hd & Hn & He)].
  - split; [auto|]. intros Ht. congruence.
  - split; [intros Hf; congruence|]. intros _. exists rows.
    split; [exact Hconn|]. split; [exact He|]. split; [exact Hn|].
    split; [rewrite Hd; apply length_map|].
    intros i row Hrow. exists (row_dict (columns r) row).
    split; [rewrite Hd, list_lookup_fmap, Hrow; reflexivity|]. split.
    + intros k Hk. unfold row_dict in Hk.
      apply fold_set_keys in Hk as [Hk|[x Hx]]; [|discriminate].
      apply in_map_iff in Hk as ([k0 w] & <- & Hin).
      exact (in_combine_l _ _ _ _ Hin).
    + intros Hnd j c v Hc Hv. exact (row_dict_lookup _ _ _ _ _ [] Hnd Hc Hv).
Qed.

Lemma query_results_are_consistent_witness :
  exists r,
    execute unit two_rows (VStr "SELECT id, name FROM t") true tt = (Ok r, tt)
    /\ row_count r = 2
    /\ exists d, data r !! 1 = Some d /\ dict_get "name" d = Some (VStr "b").
Proof.
  eexists. split; [reflexivity|].
  destruct (query_results_are_consistent unit two_rows
              (VStr "SELECT id, name FROM t") true tt _ tt eq_refl) as [_ H].
  destruct (H eq_refl) as (rows & Hconn & _ & Hn & _ & Hrows).
  injection Hconn as <-. split; [exact Hn|].
  destruct (Hrows 1 [VInt 2; VStr "b"] eq_refl) as (d & Hd & _ & Hget).
  exists d. split; [exact Hd|].
  apply (Hget ltac:(repeat constructor; rewrite list_elem_of_In; cbn; intuition discriminate)
           1 "name" (VStr "b")); reflexivity.
Defined.

Lemma readonly_no_keyword s :
  validate_sql_readonly s = Ok tt ->
  forall kw, In kw WRITE_KEYWORDS -> ~ occurs_at_word_boundary kw (upper s).
Proof.
  unfold validate_sql_readonly. intros Hok kw Hin Hocc.
  assert (Hr : exists msg,
             check_keywords WRITE_KEYWORDS (upper s) = Raise (ValidationError msg)).
  { apply check_keywords_raises; [repeat constructor|]. exists kw. auto. }
  destruct Hr as [msg Hr]. rewrite Hr in Hok. discriminate.
Qed.

(** Whatever the database does, [execute_plan] does one of three
    things.  It returns a failure without reaching the database (an
    infeasible plan, with its reason as the error; a plan without a
    query; a query with a write keyword).  Or it raises, without
    reaching the database (a query or a first panel of the wrong type).
    Or it sends the database exactly one statement, which is a non-empty
    string that [validate_sql_readonly] accepts: when ASCII, its upper
    case holds none of the write keywords at word boundaries. *)
Theorem plans_run_one_checked_statement :
  forall (database : Type) (plan : dict) (db : database),
    (truthy (dict_get_default "feasible" (VBool true) plan) = false ->
     forall conn_execute,
       execute_plan database conn_execute plan db
       = (Ok (failed (dict_get_default "reason" (VStr "Query is not feasible") plan)),
          db))
    /\ ((exists r,
           success r = false
           /\ forall conn_execute,
                execute_plan database conn_execute plan db = (Ok r, db))
        \/ (exists x,
              forall conn_execute,
                execute_plan database conn_execute plan db = (Raise x, db))
        \/ (exists s,
              s <> []
              /\ validate_sql_readonly s = Ok tt
              /\ (isascii s = true ->
                  forall kw, In kw WRITE_KEYWORDS ->
                             ~ occurs_at_word_boundary kw (upper s))
              /\ forall conn_execute,
                   execute_plan database conn_execute plan db
                   = let '(r, db') := run_query database conn_execute (VStr s) db in
                     (Ok r, db'))).
Proof.
  intros database plan db. unfold execute_plan. split.
  - intros ->. reflexivity.
  - destruct (truthy (dict_get_default "feasible" (VBool true) plan));
      cbn [negb]; [|left; eexists; split; [|reflexivity]; reflexivity].
    destruct (if negb (truthy (dict_get_default "sql" VNone plan)) then _ else _)
      as [sql|x]; [|right; left; exists x; reflexivity].
    destruct (truthy sql) eqn:Et; cbn [negb];
      [|left; eexists; split; [|reflexivity]; reflexivity].
    unfold execute.
    destruct sql as [| | | |s| |];
      try (right; left; exists TypeMismatch; reflexivity).
    destruct (validate_sql_readonly s) as [[]|x] eqn:Ev.
    + right. right. exists s. split; [intros ->; discriminate Et|].
      split; [exact Ev|]. split; [|reflexivity].
      intros _. exact (readonly_no_keyword s Ev).
    + destruct x as [kind position|msg| |];
        try (right; left; eexists; reflexivity).
      left. eexists. split; [|reflexivity]. reflexivity.
Qed.

(** For ASCII table and column names, [get_table_sample] and
    [get_column_stats] reach the database only with names made of word
    characters, possibly ended by one newline: for such a table name the
    sample is the answer to the statement SELECT * FROM name LIMIT n,
    run without the read-only check; any other ASCII name is refused
    without reaching the database. *)
Theorem names_are_checked_before_use :
  forall (database : Type) (table_name column_name : text) (limit : Z)
         (db : database),
    isascii table_name = true ->
    isascii column_name = true ->
    (is_name table_name = true ->
     forall conn_execute,
       get_table_sample database conn_execute table_name limit db
       = execute database conn_execute
           (VStr ("SELECT * FROM " ++ table_name ++ " LIMIT " ++ text_of_Z limit))
           false db)
    /\ (is_name table_name = false ->
        forall conn_execute,
          get_table_sample database conn_execute table_name limit db
          = (Ok (failed (VStr "Invalid table name")), db))
    /\ (is_name table_name && is_name column_name = false ->
        forall conn_execute,
          get_column_stats database conn_execute table_name column_name db
          = (Ok (failed (VStr "Invalid table or column name")), db))
    /\ (is_name table_name && is_name column_name = true ->
        forall conn_execute,
        exists sql,
          get_column_stats database conn_execute table_name column_name db
          = execute database conn_execute (VStr sql) false db).
Proof.
  intros database table_name column_name limit db _ _.
  unfold get_table_sample, get_column_stats.
  pose proof (name_pattern_matches table_name) as Ht.
  pose proof (name_pattern_matches column_name) as Hc.
  destruct (re_match false name_pattern table_name) as [mt|];
    destruct (re_match false name_pattern column_name) as [mc|];
    destruct (is_name table_name); destruct (is_name column_name);
    try (destruct (proj1 Ht eq_refl); fail);
    try (destruct (proj2 Ht eq_refl); fail);
    try (destruct (proj1 Hc eq_refl); fail);
    try (destruct (proj2 Hc eq_refl); fail);
    try (pose proof (proj1 Ht eq_refl); discriminate);
    try (pose proof (proj2 Ht eq_refl); discriminate);
    try (pose proof (proj1 Hc eq_refl); discriminate);
    try (pose proof (proj2 Hc eq_refl); discriminate);
    repeat split; try discriminate; try reflexivity;
    intros _ conn_execute; eexists; reflexivity.
Qed.

Lemma names_are_checked_before_use_witness :
  get_table_sample unit two_rows "users; DROP TABLE users" 10 tt
  = (Ok (failed (VStr "Invalid table name")), tt)
  /\ fst (get_table_sample unit two_rows "users" 10 tt)
     = fst (execute unit two_rows (VStr "SELECT * FROM users LIMIT 10") false tt).
Proof.
  split.
  - apply (names_are_checked_before_use unit "users; DROP TABLE users" "id" 10 tt
             eq_refl eq_refl); reflexivity.
  - rewrite (proj1 (names_are_checked_before_use unit "users" "id" 10 tt
                      eq_refl eq_refl) eq_refl two_rows).
    reflexivity.
Defined.

(** ** The lineage *)

Lemma py_slice_from_last {A} (l : list A) (limit : Z) :
  (0 < limit)%Z ->
  py_slice_from (- limit) l = drop (length l - Z.to_nat limit) l.
Proof.
  intros Hl. unfold py_slice_from.
  destruct (Z.ltb_spec (- limit) 0) as [_|H]; [|lia].
  f_equal. lia.
Qed.

(** [record] appends: the entries recorded before are kept, in order,
    and the index returned is the place of the new entry.
    [get_history(limit)] with a positive limit returns the last [limit]
    entries (all of them when there are fewer), the newest last; with
    limit 0 it returns the whole history, not the empty list. *)
Theorem history_keeps_the_last_entries :
  forall question plan result (history : lineage) (limit : Z),
    let index := fst (record question plan result history) in
    let history' := snd (record question plan result history) in
    (exists entry,
       history' = history ++ [entry]
       /\ index = Z.of_nat (length history)
       /\ history' !! Z.to_nat index = Some entry
       /\ dict_get "question" entry = Some question
       /\ dict_get "plan" entry = Some plan
       /\ ((0 < limit)%Z -> last (get_history limit history') = Some entry))
    /\ ((0 < limit)%Z ->
        length (get_history limit history') = Nat.min (Z.to_nat limit) (length history')
        /\ exists older, history' = older ++ get_history limit history')
    /\ get_history 0 history' = history'
    /\ get_history limit (clear history') = [].
Proof.
  intros question plan result history limit index history'.
  subst index history'. unfold lineage in *. cbn [record fst snd].
  set (entry := [("question", question); _; _; _; _]).
  split; [|split; [|split]].
  - exists entry. split; [reflexivity|]. rewrite length_app. cbn [length].
    split; [lia|]. split.
    + replace (Z.to_nat (Z.of_nat (length history + 1) - 1)) with (length history + 0)
        by lia.
      apply list_lookup_middle. lia.
    + split; [reflexivity|]. split; [reflexivity|].
      intros Hl. unfold get_history. rewrite py_slice_from_last by exact Hl.
      rewrite length_app. cbn [length].
      rewrite drop_app_le by lia. apply last_snoc.
  - intros Hl. unfold get_history. rewrite py_slice_from_last by exact Hl.
    split; [rewrite length_drop; lia|].
    exists (take (length (history ++ [entry]) - Z.to_nat limit) (history ++ [entry])).
    symmetry. apply take_drop.
  - unfold get_history, py_slice_from. change (- 0 <? 0)%Z with false. cbv iota.
    replace (Z.to_nat _) with 0 by lia. reflexivity.
  - unfold get_history, clear, py_slice_from. apply drop_nil.
Qed.

Lemma history_keeps_the_last_entries_witness :
  let history := [[("question", VStr "first")]; [("question", VStr "second")]] in
  let history' :=
    snd (record (VStr "third") VNone (failed (VStr "no such table")) history) in
  fst (record (VStr "third") VNone (failed (VStr "no such table")) history) = 2%Z
  /\ length (get_history 2 history') = 2
  /\ get_history 0 history' = history'.
Proof.
  intros history history'.
  destruct (history_keeps_the_last_entries (VStr "third") VNone
              (failed (VStr "no such table")) history 2)
    as ((entry & _ & Hi & _) & Hlast & Hzero & _).
  split; [exact Hi|]. split; [|exact Hzero].
  exact (proj1 (Hlast eq_refl)).
Defined.

(** * Quoted text and the column check *)

Lemma search_from_shift ic r : forall s prev start,
  search_from ic r prev (S start) s
  = match search_from ic r prev start s with
    | Some (i, m) => Some (S i, m)
    | None => None
    end.
Proof.
  induction s as [|c s IH]; intros prev start; cbn [search_from].
  - destruct (match_at ic r prev []); reflexivity.
  - destruct (match_at ic r prev (c :: s)); [reflexivity|]. apply IH.
Qed.

Lemma after_matches_cons s (x : text * rmatch) ms :
  after_matches s (x :: ms) = after_matches (m_rest (snd x)) ms.
Proof.
  unfold after_matches. destruct ms as [|y ms]; [destruct x; reflexivity|].
  rewrite last_cons_cons. destruct (last (y :: ms)) as [[? ?]|] eqn:E; [reflexivity|].
  apply last_None in E. discriminate.
Qed.

Lemma sub_from_skip n r prev c s :
  match_at false r prev (c :: s) = None ->
  sub_from (S n) r prev (c :: s) = c :: sub_from (S n) r (Some c) s.
Proof.
  intros Hnone. unfold sub_from. cbn [matches_from search_from].
  rewrite Hnone, search_from_shift.
  destruct (search_from false r (Some c) 0 s) as [[i m]|]; [|reflexivity].
  cbn zeta. cbn [map concat fst]. rewrite !after_matches_cons. cbn [snd take].
  replace (match last ((c :: take i s) ++ m_text m) with
           | Some x => Some x
           | None => prev
           end)
    with (match last (take i s ++ m_text m) with
          | Some x => Some x
          | None => Some c
          end); [reflexivity|].
  cbn [app]. destruct (take i s ++ m_text m) as [|y l]; [reflexivity|].
  rewrite last_cons_cons. destruct (last (y :: l)) eqn:E; [reflexivity|].
  apply last_None in E. discriminate.
Qed.

Lemma sub_from_match n r prev s m :
  match_at false r prev s = Some m ->
  sub_from (S n) r prev s
  = sub_from n r (match last (m_text m) with Some x => Some x | None => prev end)
      (m_rest m).
Proof.
  intros Hm. unfold sub_from. cbn [matches_from].
  assert (Hs : search_from false r prev 0 s = Some (0, m))
    by (destruct s; cbn [search_from]; rewrite Hm; reflexivity).
  rewrite Hs. cbn zeta. cbn [map concat fst]. rewrite after_matches_cons.
  cbn [snd take app]. rewrite take_0. reflexivity.
Qed.

Lemma star_to_closing {A} q (k : text -> option A) : forall s p,
  star false (CNot (COneOf [q])) p s
    (fun p s' =>
       match lit false [q] p s' with
       | Some (_, rest) => k rest
       | None => None
       end)
  = match after_closing q s with
    | Some rest => k rest
    | None => None
    end.
Proof.
  induction s as [|x s IH]; intros p; [reflexivity|].
  cbn [star after_closing]. unfold cls_match. cbn [cmatch existsb lit].
  unfold char_match. rewrite (char_eqb_sym q x), orb_false_r.
  destruct (char_eqb x q); cbn [negb]; [reflexivity|].
  rewrite IH. destruct (after_closing q s) as [rest|]; [|reflexivity].
  destruct (k rest); reflexivity.
Qed.

Lemma quoted_match_at q prev s :
  match_at false (quoted_pattern q) prev s
  = match s with
    | c :: s' =>
        if char_eqb c q
        then match after_closing q s' with
             | Some rest =>
                 Some {| m_text := take (length s - length rest) s;
                         m_groups := []; m_rest := rest |}
             | None => None
             end
        else None
    | [] => None
    end.
Proof.
  unfold match_at, quoted_pattern. cbn [run].
  destruct s as [|c s']; [reflexivity|].
  cbn [lit]. unfold char_match. rewrite (char_eqb_sym q c).
  destruct (char_eqb c q); [|reflexivity].
  exact (star_to_closing q
           (fun rest =>
              Some {| m_text := take (length (c :: s') - length rest) (c :: s');
                      m_groups := []; m_rest := rest |}) s' (Some c)).
Qed.

Lemma after_closing_length q : forall s rest,
  after_closing q s = Some rest -> length rest < length s.
Proof.
  induction s as [|c s IH]; intros rest; [discriminate|].
  cbn [after_closing]. destruct (char_eqb c q).
  - intros [= <-]. cbn. lia.
  - intros H. apply IH in H. cbn. lia.
Qed.

(** [re.sub] with the pattern of a quoted span removes the spans from
    the left, as [remove_quoted] does. *)
Lemma sub_from_quoted q : forall n m s prev,
  length s <= n -> length s < m ->
  sub_from m (quoted_pattern q) prev s = remove_quoted n q s.
Proof.
  induction n as [|n IH]; intros m s prev Hn Hm.
  - destruct s; [|cbn in Hn; lia]. destruct m; [lia|]. reflexivity.
  - destruct m as [|m]; [lia|].
    destruct s as [|c s]; [reflexivity|]. cbn [length] in Hn, Hm.
    cbn [remove_quoted].
    pose proof (quoted_match_at q prev (c :: s)) as Hq. cbv iota in Hq.
    destruct (char_eqb c q).
    + destruct (after_closing q s) as [rest|] eqn:Ec.
      * apply after_closing_length in Ec.
        rewrite (sub_from_match _ _ _ _ _ Hq). cbn [m_rest].
        apply IH; lia.
      * rewrite (sub_from_skip _ _ _ _ _ Hq). f_equal. apply IH; lia.
    + rewrite (sub_from_skip _ _ _ _ _ Hq). f_equal. apply IH; lia.
Qed.

Lemma re_sub_quoted q s n :
  length s <= n ->
  re_sub false (quoted_pattern q) [] s = remove_quoted n q s.
Proof.
  intros Hn.
  exact (sub_from_quoted q n (S (length s)) s None Hn (Nat.lt_succ_diag_r _)).
Qed.

Lemma remove_quoted_fuel q s n n' :
  length s <= n -> length s <= n' -> remove_quoted n q s = remove_quoted n' q s.
Proof.
  intros Hn Hn'. rewrite <- (re_sub_quoted q s n Hn). apply re_sub_quoted. exact Hn'.
Qed.

Lemma remove_quoted_prefix q pre : forall n s,
  has_char q pre = false -> length (pre ++ s) <= n ->
  remove_quoted n q (pre ++ s) = pre ++ remove_quoted n q s.
Proof.
  induction pre as [|c pre IH]; intros n s Hpre Hn; [reflexivity|].
  cbn [has_char existsb] in Hpre. apply orb_false_iff in Hpre as [Hc Hpre].
  cbn [app length] in Hn. destruct n as [|n]; [lia|].
  cbn [app].
  transitivity (c :: remove_quoted n q (pre ++ s)).
  { cbn [remove_quoted]. rewrite (char_eqb_sym c q), Hc. reflexivity. }
  rewrite (IH n s Hpre) by lia. do 2 f_equal.
  apply remove_quoted_fuel; rewrite length_app in Hn; lia.
Qed.

Lemma after_closing_span q lit post :
  has_char q lit = false -> after_closing q (lit ++ q :: post) = Some post.
Proof.
  induction lit as [|c lit IH]; intros Hlit.
  - cbn. rewrite char_eqb_refl. reflexivity.
  - cbn [has_char existsb] in Hlit. apply orb_false_iff in Hlit as [Hc Hlit].
    cbn [app after_closing]. rewrite (char_eqb_sym c q), Hc. exact (IH Hlit).
Qed.

Lemma remove_quoted_span q pre lit post :
  has_char q pre = false -> has_char q lit = false ->
  remove_quoted (length (pre ++ q :: lit ++ q :: post)) q (pre ++ q :: lit ++ q :: post)
  = remove_quoted (length (pre ++ post)) q (pre ++ post).
Proof.
  intros Hpre Hlit.
  rewrite !remove_quoted_prefix by (exact Hpre || lia). f_equal.
  rewrite !length_app. cbn [length]. rewrite length_app. cbn [length].
  replace (length pre + S (length lit + S (length post)))
    with (S (length pre + length lit + S (length post))) by lia.
  cbn [remove_quoted]. rewrite char_eqb_refl, (after_closing_span q lit post Hlit).
  apply remove_quoted_fuel; lia.
Qed.

Lemma remove_quoted_none q s n :
  has_char q s = false -> length s <= n -> remove_quoted n q s = s.
Proof.
  intros Hs Hn.
  pose proof (remove_quoted_prefix q s n [] Hs) as H.
  rewrite app_nil_r in H. rewrite H by exact Hn.
  destruct n; rewrite app_nil_r; reflexivity.
Qed.

Lemma has_char_app c a b : has_char c (a ++ b) = has_char c a || has_char c b.
Proof. apply existsb_app. Qed.

(** What [validate_column_references] answers depends on the query with
    its quoted spans removed only. *)
Lemma column_check_reads_clean_text sql sql' table_profiles :
  strip_literals sql = strip_literals sql' ->
  validate_column_references sql table_profiles
  = validate_column_references sql' table_profiles.
Proof.
  unfold validate_column_references, strip_literals.
  change string_literal_pattern with (quoted_pattern squote).
  change quoted_identifier_pattern with (quoted_pattern dquote).
  rewrite (re_sub_quoted squote sql (length sql)) by lia.
  rewrite (re_sub_quoted squote sql' (length sql')) by lia.
  rewrite (re_sub_quoted dquote (remove_quoted (length sql) squote sql) _
             (Nat.le_refl _)).
  rewrite (re_sub_quoted dquote (remove_quoted (length sql') squote sql') _
             (Nat.le_refl _)).
  cbv zeta. intros ->. reflexivity.
Qed.

(** The words of a string literal are not taken for columns: a query
    with a single-quoted literal is judged by
    [validate_column_references] as the query without it, and so is a
    query with a double-quoted identifier when it holds no single
    quote. *)
Theorem quoted_text_is_not_checked_for_columns :
  forall (pre lit post : text) table_profiles,
    (has_char squote pre = false -> has_char squote lit = false ->
     validate_column_references (pre ++ squote :: lit ++ squote :: post)
       table_profiles
     = validate_column_references (pre ++ post) table_profiles)
    /\ (has_char squote (pre ++ lit ++ post) = false ->
        has_char dquote pre = false -> has_char dquote lit = false ->
        validate_column_references (pre ++ dquote :: lit ++ dquote :: post)
          table_profiles
        = validate_column_references (pre ++ post) table_profiles).
Proof.
  intros pre lit post table_profiles. split.
  - intros Hpre Hlit. apply column_check_reads_clean_text.
    unfold strip_literals. cbv zeta.
    rewrite (remove_quoted_span squote pre lit post Hpre Hlit). reflexivity.
  - intros Hs Hpre Hlit. apply column_check_reads_clean_text.
    unfold strip_literals. cbv zeta.
    rewrite !has_char_app in Hs.
    apply orb_false_iff in Hs as [Hs1 Hs]. apply orb_false_iff in Hs as [Hs2 Hs3].
    assert (Hwith : has_char squote (pre ++ dquote :: lit ++ dquote :: post) = false).
    { rewrite has_char_app. change (dquote :: lit ++ dquote :: post)
        with ([dquote] ++ lit ++ [dquote] ++ post).
      rewrite !has_char_app, Hs1, Hs2, Hs3. reflexivity. }
    assert (Hwithout : has_char squote (pre ++ post) = false)
      by (rewrite has_char_app, Hs1, Hs3; reflexivity).
    rewrite (remove_quoted_none squote _ _ Hwith (Nat.le_refl _)).
    rewrite (remove_quoted_none squote _ _ Hwithout (Nat.le_refl _)).
    exact (remove_quoted_span dquote pre lit post Hpre Hlit).
Qed.

Lemma quoted_text_is_not_checked_for_columns_witness :
  validate_column_references
    "SELECT id FROM t WHERE note = 'frobnicate wibble wobble quux'" []
  = Ok tt.
Proof.
  etransitivity;
    [exact (proj1 (quoted_text_is_not_checked_for_columns
                     "SELECT id FROM t WHERE note = "
                     "frobnicate wibble wobble quux" [] [])
              eq_refl eq_refl)|].
  reflexivity.
Defined.

(** * Validated visualizations and their panels *)

Lemma accepted_type_is_valid (viz : dict) (t sql : text) :
  dict_get "type" viz = Some (VStr t) ->
  t <> [] ->
  validate_visualization (VDict viz) sql = Ok tt ->
  In (lower t) valid_types
  /\ (In (lower t) ["bar"; "line"; "pie"] ->
      missing "x" viz && missing "y" viz = false).
Proof.
  intros Ht Hne. unfold validate_visualization, dict_get_default. rewrite Ht.
  cbv zeta.
  assert (Hl : match lower t with [] => false | _ => true end = true)
    by (destruct t; [contradiction|reflexivity]).
  rewrite Hl. cbn [andb].
  destruct (text_in (lower t) valid_types) eqn:Ev; cbn [negb]; [|discriminate].
  apply text_in_In in Ev. intros H. split; [exact Ev|].
  intros Hchart. apply text_in_In in Hchart. rewrite Hchart in H. cbn [andb] in H.
  destruct (missing "x" viz && missing "y" viz); [discriminate|reflexivity].
Qed.

Lemma other_type_is_table self (spec : dict) sql grid_pos e t panel :
  dict_get "type" spec = Some (VStr t) ->
  ~ In t known_types ->
  fst (generate_panel self (VDict spec) sql grid_pos e) = Ok panel ->
  field "type" panel = Some (VStr "table").
Proof.
  intros Ht Hunknown.
  assert (Hne : forall k, In k known_types -> eq_str (VStr t) k = false).
  { intros k Hk. apply eq_str_false. intros [= ->]. exact (Hunknown Hk). }
  unfold generate_panel, dict_get_default. rewrite Ht.
  unfold bindM, generate_panel_id, uuid4, ret, bindM. cbn [fst snd].
  rewrite (Hne "bar") by (cbn; tauto).
  unfold typed_panel.
  rewrite !Hne by (cbn; tauto).
  cbn [fst]. intros [= <-]. reflexivity.
Qed.

(** The validator reads the type of a visualization in lower case, the
    generator as it is written.  A visualization that
    [validate_visualization] accepts with a type written in lower case
    is generated as the Grafana panel of that type; one that it accepts
    with a type written with a capital (Bar, LINE) is generated as a
    table. *)
Theorem accepted_types_are_rendered_by_case :
  forall self (viz : dict) (t : text) sql_text sql grid_pos e panel,
    isascii t = true ->
    dict_get "type" viz = Some (VStr t) ->
    t <> [] ->
    validate_visualization (VDict viz) sql_text = Ok tt ->
    fst (generate_panel self (VDict viz) sql grid_pos e) = Ok panel ->
    (lower t = t ->
     exists g,
       In (t, g) [("bar", "barchart"); ("line", "timeseries"); ("stat", "stat");
                  ("table", "table"); ("pie", "piechart"); ("gauge", "gauge")]
       /\ field "type" panel = Some (VStr g))
    /\ (lower t <> t -> field "type" panel = Some (VStr "table")).
Proof.
  intros self viz t sql_text sql grid_pos e panel _ Ht Hne Hvalid Hpanel.
  apply (accepted_type_is_valid viz t sql_text Ht Hne) in Hvalid as [Hvalid _].
  split.
  - intros Hlower. rewrite Hlower in Hvalid. cbn [valid_types In] in Hvalid.
    assert (Hg : exists g,
               In (t, g) [("bar", "barchart"); ("line", "timeseries");
                          ("stat", "stat"); ("table", "table");
                          ("pie", "piechart"); ("gauge", "gauge")]).
    { repeat (destruct Hvalid as [<-|Hvalid];
              [eexists; cbn [In]; eauto 10; fail|]).
      destruct Hvalid. }
    destruct Hg as [g Hg]. exists g. split; [exact Hg|].
    refine (proj1 (typed_panel_of_type self viz sql grid_pos e t g panel _ Ht Hpanel)).
    cbn [In grafana_types] in Hg |- *. tauto.
  - intros Hlower.
    apply (other_type_is_table self viz sql grid_pos e t panel Ht); [|exact Hpanel].
    intros Hknown. apply Hlower.
    cbn [known_types In] in Hknown.
    repeat (destruct Hknown as [<-|Hknown]; [reflexivity|]). destruct Hknown.
Qed.

Lemma accepted_types_are_rendered_by_case_witness :
  exists panel,
    validate_visualization (VDict [("type", VStr "Line"); ("x", VStr "day")])
      "SELECT day, n FROM t" = Ok tt
    /\ fst (generate_panel test_generator
              (VDict [("type", VStr "Line"); ("x", VStr "day")])
              (VStr "SELECT day, n FROM t") (grid 0 0 24 8) counting_uuids)
       = Ok panel
    /\ field "type" panel = Some (VStr "table").
Proof.
  eexists. split; [reflexivity|]. split; [reflexivity|].
  apply (proj2 (accepted_types_are_rendered_by_case test_generator
                  [("type", VStr "Line"); ("x", VStr "day")] "Line"
                  "SELECT day, n FROM t" (VStr "SELECT day, n FROM t")
                  (grid 0 0 24 8) counting_uuids _
                  eq_refl eq_refl ltac:(discriminate) eq_refl eq_refl)).
  discriminate.
Defined.

(** * Object bodies *)

(** ** The key pattern *)

Lemma space_not_colon x : is_space x = true -> char_eqb ":" x = false.
Proof. by_cases_on_char x. Qed.

Lemma word_not_colon x : is_word x = true -> char_eqb ":" x = false.
Proof. by_cases_on_char x. Qed.

(** Whitespace and a colon: the repetition is greedy, and gives nothing
    back. *)
Lemma star_space_colon {A} (k : option ascii -> text -> option A) : forall s p,
  star false CSpace p s
    (fun p2 s3 =>
       match lit false ":" p2 s3 with
       | Some (p3, s4) => k p3 s4
       | None => None
       end)
  = match lstrip_with is_space s with
    | d :: s4 => if char_eqb ":" d then k (Some d) s4 else None
    | [] => None
    end.
Proof.
  induction s as [|x s IH]; intros p; [reflexivity|].
  cbn [star lstrip_with]. unfold cls_match. cbn [cmatch].
  destruct (is_space x) eqn:Ex.
  - rewrite IH. cbn [lit]. unfold char_match. rewrite (space_not_colon x Ex).
    destruct (lstrip_with is_space s) as [|d s4]; [reflexivity|].
    destruct (char_eqb ":" d); [|reflexivity]. destruct (k (Some d) s4); reflexivity.
  - cbn [lit]. unfold char_match. destruct (char_eqb ":" x); reflexivity.
Qed.

(** Word characters in front of a continuation that fails at a word
    character: the repetition takes them all. *)
Lemma star_word_all {A} (k : option ascii -> text -> option A) :
  (forall p c t, is_word c = true -> k p (c :: t) = None) ->
  forall s p,
    star false CWord p s k
    = k (last_or p (take (span is_word s) s)) (lstrip_with is_word s).
Proof.
  intros Hk. induction s as [|x s IH]; intros p; [reflexivity|].
  cbn [star lstrip_with span]. unfold cls_match. cbn [cmatch].
  destruct (is_word x) eqn:Ex; [|reflexivity].
  rewrite IH, (Hk p x s Ex). cbn [take]. rewrite last_or_cons.
  destruct (k (last_or (Some x) (take (span is_word s) s)) (lstrip_with is_word s));
    reflexivity.
Qed.

(** What [re.match] gives for the key pattern. *)
Lemma key_pattern_match s :
  re_match false key_pattern s
  = match s with
    | x :: s' =>
        if is_word x then
          match lstrip_with is_space (lstrip_with is_word s') with
          | d :: s4 =>
              if char_eqb ":" d
              then Some {| m_text := take (length s - length s4) s;
                           m_groups :=
                             [(1, take (length s - length (lstrip_with is_word s')) s)];
                           m_rest := s4 |}
              else None
          | [] => None
          end
        else None
    | [] => None
    end.
Proof.
  unfold re_match, match_at, key_pattern. cbn [run].
  destruct s as [|x s']; [reflexivity|].
  unfold cls_match at 1. cbn [cmatch]. destruct (is_word x) eqn:Ex; [|reflexivity].
  rewrite star_word_all.
  - rewrite star_space_colon. reflexivity.
  - intros p c t Hc. cbn [star]. unfold cls_match. cbn [cmatch].
    rewrite (is_word_not_space c Hc). cbn [lit]. unfold char_match.
    rewrite (word_not_colon c Hc). reflexivity.
Qed.

Lemma key_pattern_none s :
  re_match false key_pattern s = None <-> starts_key s = false.
Proof.
  rewrite key_pattern_match. unfold starts_key.
  destruct s as [|x s']; [split; reflexivity|].
  cbn [lstrip_with]. destruct (is_word x); [|split; reflexivity]. cbn [andb].
  destruct (lstrip_with is_space (lstrip_with is_word s')) as [|d s4];
    [split; reflexivity|].
  rewrite (char_eqb_sym d ":"). destruct (char_eqb ":" d); split; congruence.
Qed.

Lemma lstrip_app p (a b : text) :
  lstrip_with p (a ++ b)
  = match lstrip_with p a with
    | [] => lstrip_with p b
    | r => r ++ b
    end.
Proof.
  induction a as [|c a IH]; cbn [app lstrip_with].
  - destruct (lstrip_with p b); reflexivity.
  - destruct (p c); [exact IH|reflexivity].
Qed.

Lemma lstrip_fixed p c (s : text) : p c = false -> lstrip_with p (c :: s) = c :: s.
Proof. intros H. cbn [lstrip_with]. rewrite H. reflexivity. Qed.

Lemma key_match_spaced name sp rest :
  is_identifier name = true ->
  forallb is_space sp = true ->
  re_match false key_pattern (name ++ sp ++ ":" ++ rest)
  = Some {| m_text := name ++ sp ++ ":"; m_groups := [(1, name)]; m_rest := rest |}.
Proof.
  intros Hname Hsp. rewrite key_pattern_match.
  unfold is_identifier in Hname.
  destruct name as [|k0 name']; [discriminate|].
  apply andb_true_iff in Hname as [_ Hall].
  cbn [forallb] in Hall. apply andb_true_iff in Hall as [Hk0 Hall].
  change ((k0 :: name') ++ sp ++ ":" ++ rest)
    with (k0 :: (name' ++ sp ++ ":" ++ rest)).
  cbv beta iota. rewrite Hk0.
  assert (Hw : lstrip_with is_word (name' ++ sp ++ ":" ++ rest) = sp ++ ":" ++ rest).
  { rewrite lstrip_all by exact Hall.
    destruct sp as [|x sp']; [reflexivity|].
    cbn [forallb] in Hsp. apply andb_true_iff in Hsp as [Hx _].
    apply lstrip_fixed. destruct (is_word x) eqn:E; [|reflexivity].
    apply is_word_not_space in E. congruence. }
  rewrite Hw. rewrite lstrip_all by exact Hsp.
  change (lstrip_with is_space (":" ++ rest)) with (":"%char :: rest).
  cbv beta iota. change (char_eqb ":" ":") with true. cbv iota.
  do 2 f_equal.
  - change (k0 :: name' ++ sp ++ ":" ++ rest)
      with ((k0 :: name') ++ sp ++ ":" ++ rest).
    rewrite !app_assoc. rewrite take_app_sub. rewrite <- app_assoc. reflexivity.
  - do 2 f_equal.
    change (k0 :: name' ++ sp ++ ":" ++ rest)
      with ((k0 :: name') ++ (sp ++ ":" ++ rest)).
    rewrite take_app_sub. reflexivity.
Qed.

(** ** The loop over an object body *)

(** Characters at which no key stands are passed over, one at a time. *)
Lemma object_loop_skip g : forall n m i s acc,
  (forall j, j < length g -> starts_key (drop j g ++ s) = false) ->
  length (g ++ s) <= n -> length s <= m ->
  object_loop n i (g ++ s) acc = object_loop m (i + length g) s acc.
Proof.
  induction g as [|c g IH]; intros n m i s acc Hg Hn Hm.
  - cbn [app length] in *. rewrite Nat.add_0_r. apply object_loop_fuel; assumption.
  - cbn [app length] in Hn.
    assert (Hg' : forall j, j < length g -> starts_key (drop j g ++ s) = false).
    { intros j Hj. apply (Hg (S j)). cbn [length]. lia. }
    pose proof (Hg 0 ltac:(cbn [length]; lia)) as H0. cbn [drop app] in H0.
    cbn [app length]. replace (i + S (length g)) with (i + 1 + length g) by lia.
    destruct (is_blank c) eqn:Hb.
    + rewrite object_loop_blank by exact Hb. apply IH; [exact Hg'|lia|exact Hm].
    + destruct n as [|n]; [lia|].
      cbn [object_loop span]. rewrite Hb. rewrite drop_0.
      rewrite (proj2 (key_pattern_none _) H0).
      rewrite Nat.add_0_r. apply IH; [exact Hg'|lia|exact Hm].
Qed.

Lemma span_take p (s : text) : forallb p (take (span p s) s) = true.
Proof.
  induction s as [|c s IH]; [reflexivity|]. cbn [span].
  destruct (p c) eqn:E; [|reflexivity]. cbn [take forallb]. rewrite E. exact IH.
Qed.

Lemma starts_key_not_word c s : is_word c = false -> starts_key (c :: s) = false.
Proof. intros H. cbn [starts_key]. rewrite H. reflexivity. Qed.

(** Skipping blanks and commas after a value, then going on, is going
    on from the value. *)
Lemma object_loop_after_value n m i s acc :
  length s <= n -> length s <= m ->
  object_loop n (i + span is_blank_or_comma s) (drop (span is_blank_or_comma s) s) acc
  = object_loop m i s acc.
Proof.
  intros Hn Hm. set (k := span is_blank_or_comma s).
  assert (Hk : k <= length s) by apply span_le.
  assert (Hlen : length (take k s) = k) by (rewrite length_take; lia).
  symmetry.
  transitivity (object_loop m i (take k s ++ drop k s) acc);
    [rewrite take_drop; reflexivity|].
  rewrite (object_loop_skip (take k s) m n i (drop k s) acc);
    [rewrite Hlen; reflexivity|..].
  - intros j Hj. pose proof (span_take is_blank_or_comma s) as Hall. fold k in Hall.
    destruct (drop j (take k s)) as [|c r] eqn:Ed.
    { apply (f_equal length) in Ed. rewrite length_drop in Ed. cbn in Ed. lia. }
    cbn [app]. apply starts_key_not_word.
    assert (Hc : is_blank_or_comma c = true).
    { rewrite forallb_forall in Hall. apply Hall.
      rewrite <- (take_drop j (take k s)). apply in_or_app. right.
      unfold text in *. rewrite Ed. left. reflexivity. }
    destruct (is_word c) eqn:E; [|reflexivity].
    apply is_word_not_blank_or_comma in E. congruence.
  - rewrite take_drop. exact Hm.
  - rewrite length_drop. lia.
Qed.

(** A value that is read at the front of a text is read there with any
    start index and any fuel that is enough. *)
Lemma read_at n i (s : text) r :
  _parse_value_at s 0 = Ok r -> length s <= S n -> parse_value_at n i s = Ok r.
Proof.
  unfold _parse_value_at. rewrite drop_0. intros H Hn.
  rewrite (parse_value_at_fuel n (length s) i s) by lia.
  rewrite parse_value_at_eq in *.
  exact (value_at_ok_shift _ _ _ _ 0 i _ _ (fun _ _ E => E) (fun _ _ E => E) H).
Qed.

(** The step of the loop at a key: the value is parsed after the colon
    and the blanks, and assigned. *)
Lemma object_loop_key n i name sp1 sp2 X acc :
  is_identifier name = true ->
  forallb is_space sp1 = true ->
  forallb is_blank sp2 = true ->
  match X with c :: _ => is_blank c = false | [] => True end ->
  object_loop (S n) i (name ++ sp1 ++ ":" ++ sp2 ++ X) acc
  = bind (parse_value_at n (i + length (name ++ sp1 ++ ":" ++ sp2)) X)
      (fun '(value, consumed) =>
         let s := drop consumed X in
         object_loop n
           (i + length (name ++ sp1 ++ ":" ++ sp2) + consumed
            + span is_blank_or_comma s)
           (drop (span is_blank_or_comma s) s) (dict_set acc name value)).
Proof.
  intros Hname Hsp1 Hsp2 HX.
  destruct (is_identifier_cons name Hname) as (k0 & name' & Ek & Hk0).
  assert (Hspan : span is_blank (name ++ sp1 ++ ":" ++ sp2 ++ X) = 0).
  { rewrite Ek. apply span_head_false. apply is_word_not_blank. exact Hk0. }
  assert (Hcons : exists x xs, name ++ sp1 ++ ":" ++ sp2 ++ X = x :: xs).
  { rewrite Ek. eexists _, _. reflexivity. }
  destruct Hcons as (x & xs & Hcons).
  cbn [object_loop]. rewrite !Hspan, !drop_0.
  rewrite (key_match_spaced name sp1 (sp2 ++ X) Hname Hsp1). rewrite Hcons.
  cbn [m_rest m_groups]. unfold group_or_empty, m_end. cbn [group Nat.eqb m_text].
  rewrite (span_all is_blank sp2 X Hsp2 HX), drop_app_length.
  replace (i + 0 + length (name ++ sp1 ++ ":") + length sp2)
    with (i + length (name ++ sp1 ++ ":" ++ sp2))
    by (rewrite !length_app; cbn [length]; lia).
  reflexivity.
Qed.

(** ** Unrecognized characters *)

Lemma no_key_drop g : forall j,
  no_key g = true -> j < length g -> starts_key (drop j g) = false.
Proof.
  induction g as [|c g IH]; intros j Hg Hj; [cbn in Hj; lia|].
  cbn [no_key] in Hg. apply andb_true_iff in Hg as [Hc Hg].
  destruct j as [|j].
  - cbn [drop]. apply negb_true_iff in Hc. exact Hc.
  - cbn [drop]. apply IH; [exact Hg|cbn in Hj; lia].
Qed.

Lemma no_key_suffix a b : no_key (a ++ b) = true -> no_key b = true.
Proof.
  induction a as [|c a IH]; [trivial|]. cbn [app no_key].
  intros H. apply andb_true_iff in H as [_ H]. exact (IH H).
Qed.

(** Whitespace at the end makes no key, and hides none. *)
Lemma starts_key_spaces x u w :
  forallb is_space w = true -> starts_key ((x :: u) ++ w) = starts_key (x :: u).
Proof.
  intros Hw. change ((x :: u) ++ w) with (x :: (u ++ w)). unfold starts_key.
  destruct (is_word x); [|reflexivity]. cbn [andb].
  change (x :: u ++ w) with ((x :: u) ++ w). rewrite lstrip_app.
  destruct (lstrip_with is_word (x :: u)) as [|y r].
  - assert (E : lstrip_with is_space (lstrip_with is_word w) = []).
    { destruct (lstrip_suffix is_word w) as [t Ht].
      assert (Hsp : forallb is_space (lstrip_with is_word w) = true).
      { rewrite Ht in Hw. rewrite forallb_app in Hw.
        apply andb_true_iff in Hw. tauto. }
      rewrite <- (app_nil_r (lstrip_with is_word w)).
      rewrite lstrip_all by exact Hsp. reflexivity. }
    rewrite E. reflexivity.
  - rewrite lstrip_app.
    destruct (lstrip_with is_space (y :: r)) as [|d r2]; [|reflexivity].
    rewrite <- (app_nil_r w). rewrite lstrip_all by exact Hw. reflexivity.
Qed.

Lemma no_key_prefix a w :
  forallb is_space w = true -> no_key (a ++ w) = true -> no_key a = true.
Proof.
  intros Hw. induction a as [|c a IH]; intros Ha; [reflexivity|].
  change ((c :: a) ++ w) with (c :: (a ++ w)) in Ha. cbn [no_key] in Ha.
  apply andb_true_iff in Ha as [Hc Ha]. cbn [no_key].
  rewrite (IH Ha), andb_true_r.
  change (c :: a ++ w) with ((c :: a) ++ w) in Hc.
  rewrite (starts_key_spaces c a w Hw) in Hc. exact Hc.
Qed.

Lemma lstrip_nil_all p (u : text) : lstrip_with p u = [] -> forallb p u = true.
Proof.
  intros E. destruct (lstrip_decompose p u) as (w & Hu & Hw & _).
  rewrite E, app_nil_r in Hu. subst w. exact Hw.
Qed.

(** In front of a key, characters that hold no key and do not end with
    a word character hold no key either. *)
Lemma key_after_junk u c t :
  u <> [] -> starts_key u = false -> is_word_opt (last u) = false ->
  is_word c = true ->
  starts_key (u ++ c :: t) = false.
Proof.
  intros Hne Hkey Hlast Hc. destruct u as [|x u']; [contradiction|].
  change ((x :: u') ++ c :: t) with (x :: (u' ++ c :: t)).
  unfold starts_key in *. destruct (is_word x); [|reflexivity]. cbn [andb] in *.
  change (x :: u' ++ c :: t) with ((x :: u') ++ c :: t). rewrite lstrip_app.
  destruct (lstrip_with is_word (x :: u')) as [|y r] eqn:Er.
  - exfalso. apply lstrip_nil_all in Er.
    destruct (last (x :: u')) as [z|] eqn:El.
    + apply last_Some in El as [u'' El]. rewrite El, forallb_app in Er.
      apply andb_true_iff in Er as [_ Hz]. cbn in Hz, Hlast.
      rewrite Hlast in Hz. discriminate.
    + apply last_None in El. discriminate.
  - rewrite lstrip_app.
    destruct (lstrip_with is_space (y :: r)) as [|d r2]; [|exact Hkey].
    rewrite (lstrip_fixed is_space c t (is_word_not_space c Hc)).
    rewrite char_eqb_sym. exact (word_not_colon c Hc).
Qed.

Lemma unrecognized_before g c t :
  unrecognized g = true -> is_word c = true ->
  forall j, j < length g -> starts_key (drop j g ++ c :: t) = false.
Proof.
  unfold unrecognized. intros Hg Hc j Hj.
  apply andb_true_iff in Hg as [Hg Hlast]. apply andb_true_iff in Hg as [_ Hno].
  apply negb_true_iff in Hlast.
  assert (Hne : drop j g <> []).
  { intros E. apply (f_equal length) in E. rewrite length_drop in E. cbn in E. lia. }
  apply key_after_junk; [exact Hne|exact (no_key_drop g j Hno Hj)| |exact Hc].
  rewrite <- (take_drop j g), last_app in Hlast.
  destruct (last (drop j g)) as [z|] eqn:El; [exact Hlast|].
  apply last_None in El. contradiction.
Qed.

Lemma unrecognized_suffix a b : unrecognized (a ++ b) = true -> unrecognized b = true.
Proof.
  unfold unrecognized. intros H.
  apply andb_true_iff in H as [H Hlast]. apply andb_true_iff in H as [Hascii Hno].
  unfold isascii in *. rewrite forallb_app in Hascii.
  apply andb_true_iff in Hascii as [_ Hb]. rewrite Hb.
  rewrite (no_key_suffix a b Hno). cbn [andb].
  rewrite last_app in Hlast. destruct (last b); [exact Hlast|reflexivity].
Qed.

(** ** The entries of a body *)

Lemma render_entries_cons e es :
  render_entries (e :: es)
  = junk e ++ (entry_key e ++ before_colon e ++ ":" ++ after_colon e
               ++ entry_chars e ++ render_entries es).
Proof.
  unfold render_entries. cbn [map concat]. unfold render_entry, entry_head.
  rewrite <- !app_assoc. reflexivity.
Qed.

Lemma assign_entries_cons e es acc :
  assign_entries (e :: es) acc
  = assign_entries es (dict_set acc (entry_key e) (entry_value e)).
Proof. reflexivity. Qed.

(** The loop over valid entries: each is read and assigned, and the
    loop goes on with what follows the last. *)
Lemma object_loop_entries es : forall tail n m i acc,
  Forall valid_entry es ->
  set_off es tail ->
  length (render_entries es ++ tail) <= n -> length tail <= m ->
  object_loop n i (render_entries es ++ tail) acc
  = object_loop m (i + length (render_entries es)) tail (assign_entries es acc).
Proof.
  induction es as [|e es IH]; intros tail n m i acc Hes Hoff Hn Hm.
  - cbn [render_entries map concat app length] in *. rewrite Nat.add_0_r.
    apply object_loop_fuel; assumption.
  - inversion Hes as [|? ? He Hes']; subst.
    destruct Hoff as [Hread Hoff].
    destruct He as ((Hjunk & Hkey & Hsp1 & Hsp2 & _) & Hhead & _ & Htoken).
    destruct (is_identifier_cons (entry_key e) Hkey) as (k0 & k' & Ek & Hk0).
    rewrite render_entries_cons in *. rewrite <- !app_assoc in *.
    set (X := render_entries es ++ tail) in *.
    set (K := entry_key e ++ before_colon e ++ ":" ++ after_colon e
              ++ entry_chars e ++ X) in *.
    assert (HK : length K
                 = length (entry_key e ++ before_colon e ++ ":" ++ after_colon e)
                   + length (entry_chars e) + length X).
    { unfold K. rewrite !length_app. cbn [length]. lia. }
    rewrite (object_loop_skip (junk e) n (S (length K)) i K acc);
      [| |exact Hn|lia].
    2:{ unfold K. rewrite Ek. cbn [app]. apply unrecognized_before; assumption. }
    unfold K at 1.
    rewrite (object_loop_key (length K) _ _ _ _ (entry_chars e ++ X) acc
               Hkey Hsp1 Hsp2).
    2:{ destruct (entry_chars e) as [|c0 cs]; [contradiction|exact Hhead]. }
    assert (Hv : _parse_value_at (entry_chars e ++ X) 0
                 = Ok (entry_value e, length (entry_chars e))).
    { destruct Hread as [Halways|Hends]; [apply Halways|apply Htoken, Hends]. }
    rewrite (read_at _ _ _ _ Hv) by (rewrite length_app; lia).
    cbn [bind]. cbv zeta. rewrite drop_app_length.
    rewrite (object_loop_after_value (length K) (length X)) by lia.
    rewrite (IH tail (length X) m _ _ Hes' Hoff) by (unfold X; lia).
    rewrite assign_entries_cons. f_equal.
    rewrite !length_app. cbn [length]. rewrite ?length_app. cbn [length]. lia.
Qed.

(** ** Stripping a body *)

Lemma strip_anchored (J M T : text) k0 M' A y :
  M = k0 :: M' -> M = A ++ [y] ->
  is_space k0 = false -> is_space y = false ->
  strip (J ++ M ++ T)
  = lstrip_with is_space J ++ M ++ rstrip_with is_space T.
Proof.
  intros Ek Ey Hk0 Hy. unfold strip.
  rewrite Ek at 1. cbn [app]. rewrite lstrip_app_keep by exact Hk0.
  change (k0 :: M' ++ T) with ((k0 :: M') ++ T). rewrite <- Ek.
  rewrite Ey. rewrite <- !app_assoc. cbn [app].
  rewrite (app_assoc _ A), rstrip_app_keep by exact Hy.
  rewrite <- app_assoc. reflexivity.
Qed.

(** The entry without the characters in front of it. *)
Lemma entries_anchor es : forall e,
  valid_entry e -> Forall valid_entry es ->
  exists k0 M' A y,
    entry_key e ++ before_colon e ++ ":" ++ after_colon e ++ entry_chars e
    ++ render_entries es = k0 :: M'
    /\ entry_key e ++ before_colon e ++ ":" ++ after_colon e ++ entry_chars e
       ++ render_entries es = A ++ [y]
    /\ is_word k0 = true /\ is_space y = false.
Proof.
  induction es as [|e' es IH]; intros e He Hes.
  - destruct He as ((_ & Hkey & _) & _ & Hlast & _).
    destruct (is_identifier_cons (entry_key e) Hkey) as (k0 & k' & Ek & Hk0).
    destruct (last (entry_chars e)) as [y|] eqn:El; [|contradiction].
    apply last_Some in El as [chars' El].
    exists k0, (k' ++ before_colon e ++ ":" ++ after_colon e ++ entry_chars e
                ++ render_entries []),
      (entry_key e ++ before_colon e ++ ":" ++ after_colon e ++ chars'), y.
    split; [rewrite Ek; reflexivity|]. split; [|auto].
    rewrite El. cbn [render_entries map concat]. rewrite app_nil_r.
    rewrite <- !app_assoc. reflexivity.
  - inversion Hes as [|? ? He' Hes']; subst.
    destruct (IH e' He' Hes') as (_ & _ & A & y & _ & HA & _ & Hy).
    destruct He as ((_ & Hkey & _) & _).
    destruct (is_identifier_cons (entry_key e) Hkey) as (k0 & k' & Ek & Hk0).
    exists k0, (k' ++ before_colon e ++ ":" ++ after_colon e ++ entry_chars e
                ++ render_entries (e' :: es)),
      (entry_key e ++ before_colon e ++ ":" ++ after_colon e ++ entry_chars e
       ++ junk e' ++ A), y.
    split; [rewrite Ek; reflexivity|]. split; [|auto].
    rewrite render_entries_cons, HA. rewrite <- !app_assoc. reflexivity.
Qed.

(** What is set off stays so when what follows the last entry keeps its
    first character, or comes to an end. *)
Lemma set_off_tail es (r r' : text) :
  (ends_token r = true -> ends_token r' = true) ->
  set_off es r -> set_off es r'.
Proof.
  intros Hr. induction es as [|e es IH]; [trivial|].
  intros [Hread Hoff]. split; [|exact (IH Hoff)].
  destruct Hread as [Halways|Hends]; [left; exact Halways|right].
  destruct (render_entries es) as [|c X]; [exact (Hr Hends)|exact Hends].
Qed.

Lemma ends_token_rstrip (t : text) :
  ends_token t = true -> ends_token (rstrip_with is_space t) = true.
Proof.
  intros H. destruct (rstrip_prefix is_space t) as [w Hw].
  destruct (rstrip_with is_space t) as [|c r]; [reflexivity|].
  rewrite Hw in H. exact H.
Qed.

(** The body of an object made of valid entries, with unrecognized
    characters in front of them and after the last. *)
Lemma object_content_entries (first : entry_text) (others : list entry_text)
    (trailing : text) :
  Forall valid_entry (first :: others) ->
  set_off (first :: others) trailing ->
  no_key trailing = true ->
  _parse_object_content (render_entries (first :: others) ++ trailing)
  = Ok (assign_entries (first :: others) []).
Proof.
  intros Hall Hoff Hno. inversion Hall as [|? ? Hfirst Hothers]; subst.
  destruct (entries_anchor others first Hfirst Hothers)
    as (k0 & M' & A & y & Ek & Ey & Hk0 & Hy).
  unfold _parse_object_content.
  rewrite render_entries_cons, <- app_assoc.
  rewrite (strip_anchored _ _ _ k0 M' A y Ek Ey (is_word_not_space k0 Hk0) Hy).
  set (first' := {| junk := lstrip_with is_space (junk first);
                    entry_key := entry_key first;
                    before_colon := before_colon first;
                    after_colon := after_colon first;
                    entry_chars := entry_chars first;
                    entry_value := entry_value first |}).
  set (trailing' := rstrip_with is_space trailing).
  assert (Hfirst' : valid_entry first').
  { destruct Hfirst as ((Hjunk & Hrest) & Hv). split; [split|exact Hv]; [|exact Hrest].
    destruct (lstrip_suffix is_space (junk first)) as [t Ht].
    rewrite Ht in Hjunk. exact (unrecognized_suffix _ _ Hjunk). }
  assert (Hoff' : set_off (first' :: others) trailing').
  { destruct Hoff as [Hread Hoff]. split.
    - destruct Hread as [Halways|Hends]; [left; exact Halways|right].
      destruct (render_entries others) as [|c X];
        [exact (ends_token_rstrip _ Hends)|exact Hends].
    - exact (set_off_tail others _ _ (ends_token_rstrip trailing) Hoff). }
  assert (Hno' : no_key trailing' = true).
  { destruct (rstrip_decompose is_space trailing) as (w & Hw & Hsp & _).
    rewrite Hw in Hno. exact (no_key_prefix _ w Hsp Hno). }
  change (lstrip_with is_space (junk first)
          ++ (entry_key first ++ before_colon first ++ ":" ++ after_colon first
              ++ entry_chars first ++ render_entries others) ++ trailing')
    with (junk first'
          ++ (entry_key first' ++ before_colon first' ++ ":" ++ after_colon first'
              ++ entry_chars first' ++ render_entries others) ++ trailing').
  rewrite app_assoc, <- render_entries_cons.
  rewrite (object_loop_entries (first' :: others) trailing' _ (length trailing') 0 []);
    [|constructor; assumption|exact Hoff'|apply le_n|apply le_n].
  rewrite <- (app_nil_r trailing') at 2.
  rewrite (object_loop_skip trailing' _ 0 _ [] _);
    [apply object_loop_nil| |rewrite app_nil_r; apply le_n|cbn; lia].
  intros j Hj. rewrite app_nil_r. exact (no_key_drop trailing' j Hno' Hj).
Qed.

(** ** Values in a body *)

Lemma ends_token_not_token rest :
  ends_token rest = true ->
  match rest with
  | x :: _ => cls_match false (CNot (CUnion CSpace (COneOf ",}]"))) x = false
  | [] => True
  end.
Proof.
  destruct rest as [|c rest]; [trivial|]. cbn [ends_token].
  unfold cls_match. cbn [cmatch]. intros ->. reflexivity.
Qed.

Lemma token_pattern_match tok rest :
  tok <> [] ->
  forallb (cmatch (CNot (CUnion CSpace (COneOf ",}]")))) tok = true ->
  ends_token rest = true ->
  re_match false token_pattern (tok ++ rest)
  = Some {| m_text := tok; m_groups := [(1, tok)]; m_rest := rest |}.
Proof.
  intros Hne Hall Hrest. destruct tok as [|c tok]; [contradiction|].
  cbn [forallb] in Hall. apply andb_true_iff in Hall as [Hc Hall].
  unfold re_match, match_at, token_pattern. cbn [run app].
  unfold cls_match at 1. rewrite Hc.
  erewrite star_longest;
    [reflexivity|exact Hall|apply ends_token_not_token; exact Hrest|].
  unfold set_group. cbn [length].
  replace (S (length (tok ++ rest)) - length rest) with (length (c :: tok))
    by (rewrite length_app; simpl; lia).
  change (c :: tok ++ rest) with ((c :: tok) ++ rest).
  rewrite take_app_length. reflexivity.
Qed.

(** An unquoted token is read as the value [_parse_value] gives it, in
    front of anything that ends it. *)
Lemma token_is_read tok :
  is_plain_token tok = true -> reads_token tok (_parse_value tok).
Proof.
  unfold is_plain_token. destruct tok as [|c tok]; [discriminate|].
  intros H. apply andb_true_iff in H as [Hall Hhead].
  intros rest Hrest. unfold _parse_value_at. rewrite drop_0, parse_value_at_eq.
  assert (Hc : is_space c = false).
  { cbn [forallb cmatch] in Hall. apply andb_true_iff in Hall as [Hc _].
    destruct (is_space c); [discriminate|reflexivity]. }
  assert (Hb : is_blank c = false).
  { destruct (is_blank c) eqn:E; [|reflexivity].
    apply is_blank_is_space in E. congruence. }
  cbn [existsb] in Hhead. rewrite !negb_orb in Hhead.
  repeat (apply andb_true_iff in Hhead as [? Hhead]).
  clear Hhead.
  repeat match goal with
         | H : negb _ = true |- _ => apply negb_true_iff in H
         end.
  unfold value_at. cbn [app span]. rewrite Hb, drop_0.
  unfold char_eqb in *.
  repeat match goal with H : Ascii.eqb _ _ = false |- _ => rewrite H; clear H end.
  change (c :: tok ++ rest) with ((c :: tok) ++ rest).
  rewrite token_pattern_match; [reflexivity|discriminate|exact Hall|exact Hrest].
Qed.

(** C8.  An object body is read entry by entry, whatever stands between
    the entries.  The entries are [key : value] with any whitespace
    around the colon and a value that [_parse_value_at] reads; in front
    of each entry and after the last stand any ASCII characters in which
    no key is recognized.  What belongs to an entry is fixed by the
    parser: word characters next to a key are part of the key, and an
    unquoted value runs up to the next whitespace, comma or closing
    bracket, so that what follows it begins with one of these; after a
    quoted string, an array or an object anything may follow.
    [parse_toon] does not raise on such a body, and the result holds
    every entry, assigned in order; a tagged document gives the same
    entries, and its tag under [_type]. *)
Theorem garbage_between_pairs_is_skipped :
  forall (first : entry_text) (others : list entry_text) (trailing : text),
    Forall valid_entry (first :: others) ->
    set_off (first :: others) trailing ->
    isascii trailing = true ->
    no_key trailing = true ->
    parse_toon ("{" ++ (render_entries (first :: others) ++ trailing) ++ "}")
    = Ok (assign_entries (first :: others) [])
    /\ forall tag,
         is_identifier tag = true ->
         parse_toon ("@" ++ tag ++ "{"
                     ++ (render_entries (first :: others) ++ trailing) ++ "}")
         = Ok (dict_set (assign_entries (first :: others) []) "_type" (VStr tag)).
Proof.
  intros first others trailing Hall Hoff _ Hno.
  pose proof (object_content_entries first others trailing Hall Hoff Hno) as E.
  split.
  - rewrite parse_toon_braces. exact E.
  - intros tag Htag.
    etransitivity; [apply parse_toon_tagged; [exact Htag|]|rewrite E; reflexivity].
    inversion Hall as [|? ? ((_ & Hkey & _) & _) _]; subst.
    destruct (is_identifier_cons (entry_key first) Hkey) as (k0 & key' & Ek & _).
    rewrite render_entries_cons, Ek. destruct (junk first); discriminate.
Qed.

Lemma list_is_read : reads_always "[x, y]" (VList [VStr "x"; VStr "y"]).
Proof. intros rest. reflexivity. Qed.

(** The documents [{?? a:1 junk b : "x y"#! c:[x, y] ~ end}] and the
    same under the tag [plan]. *)
Lemma garbage_between_pairs_is_skipped_witness :
  let body :=
    "?? a:1 junk b : " ++ dquote :: "x y" ++ dquote :: "#! c:[x, y] ~ end" in
  parse_toon ("{" ++ body ++ "}")
  = Ok [("a", VInt 1); ("b", VStr "x y"); ("c", VList [VStr "x"; VStr "y"])]
  /\ parse_toon ("@plan{" ++ body ++ "}")
     = Ok [("a", VInt 1); ("b", VStr "x y"); ("c", VList [VStr "x"; VStr "y"]);
           ("_type", VStr "plan")].
Proof.
  intros body.
  destruct (garbage_between_pairs_is_skipped
              {| junk := "?? "; entry_key := "a"; before_colon := [];
                 after_colon := []; entry_chars := "1"; entry_value := VInt 1 |}
              [ {| junk := " junk "; entry_key := "b"; before_colon := " ";
                   after_colon := " ";
                   entry_chars := [dquote] ++ escape "x y" ++ [dquote];
                   entry_value := VStr "x y" |};
                {| junk := "#! "; entry_key := "c"; before_colon := [];
                   after_colon := []; entry_chars := "[x, y]";
                   entry_value := VList [VStr "x"; VStr "y"] |} ]
              " ~ end") as [Hbare Htagged].
  - repeat constructor. exact (token_is_read "1" eq_refl).
  - split; [right; reflexivity|].
    split; [left; intros rest; apply (quoted_string_read_back "x y")|].
    split; [left; exact list_is_read|exact I].
  - reflexivity.
  - reflexivity.
  - split; [exact Hbare|]. exact (Htagged "plan" eq_refl).
Defined.

(** * Delimiters that are not closed *)




















(** * Documents that are one scalar *)

Lemma scalar_document t :
  match strip t with c :: _ => c <> "@"%char | [] => True end ->
  startswith "{" (strip t) && endswith "}" (strip t) = false ->
  parse_toon t = Ok [("value", _parse_value t)].
Proof.
  intros Hat Hbraces. unfold parse_toon.
  rewrite (document_no_match _ Hat), Hbraces, parse_value_strip. reflexivity.
Qed.

Lemma token_document pre tok post :
  forallb is_space pre = true -> forallb is_space post = true ->
  is_plain_token tok = true ->
  parse_toon (pre ++ tok ++ post) = Ok [("value", _parse_value tok)].
Proof.
  intros Hpre Hpost Htok.
  destruct (plain_token_ends tok Htok) as [_ Hlast].
  assert (Estrip : strip (pre ++ tok ++ post) = tok).
  { rewrite strip_surrounded by assumption. apply strip_fixed.
    - unfold is_plain_token in Htok. destruct tok as [|c tok']; [exact I|].
      apply andb_true_iff in Htok as [Hall _]. cbn [forallb] in Hall.
      apply andb_true_iff in Hall as [Hc _]. exact (token_char_not_space c Hc).
    - destruct (last tok); [exact Hlast|exact I]. }
  assert (Evalue : _parse_value tok = _parse_value (pre ++ tok ++ post))
    by (rewrite <- (parse_value_strip (pre ++ tok ++ post)), Estrip; reflexivity).
  rewrite Evalue. apply scalar_document; rewrite Estrip.
  - unfold is_plain_token in Htok. destruct tok as [|c tok']; [exact I|].
    apply andb_true_iff in Htok as [_ Hhead]. cbn [existsb] in Hhead.
    apply negb_true_iff, orb_false_iff in Hhead as [Hat _].
    intros ->. discriminate Hat.
  - unfold is_plain_token in Htok. destruct tok as [|c tok']; [reflexivity|].
    apply andb_true_iff in Htok as [_ Hhead]. cbn [existsb] in Hhead.
    apply negb_true_iff, orb_false_iff in Hhead as [_ Hhead].
    apply orb_false_iff in Hhead as [Hbrace _].
    cbn [startswith]. rewrite (char_eqb_sym "{" c), Hbrace. reflexivity.
Qed.

(** An ASCII text that, once stripped, does not begin with an at sign
    and is not enclosed in braces is never rejected: it is read as one
    scalar, under the key [value].  So a document that is only an
    integer, a boolean or [null], with any whitespace around it, is
    read as that integer, boolean or [None], and a document of
    whitespace only as the empty string. *)
Theorem bare_text_is_a_scalar :
  (forall t,
     isascii t = true ->
     match strip t with c :: _ => c <> "@"%char | [] => True end ->
     startswith "{" (strip t) && endswith "}" (strip t) = false ->
     parse_toon t = Ok [("value", _parse_value t)])
  /\ (forall pre post,
        forallb is_space pre = true -> forallb is_space post = true ->
        (forall z : Z,
           parse_toon (pre ++ text_of_Z z ++ post) = Ok [("value", VInt z)])
        /\ (forall b : bool,
              parse_toon (pre ++ (if b then "true" else "false") ++ post)
              = Ok [("value", VBool b)])
        /\ parse_toon (pre ++ "null" ++ post) = Ok [("value", VNone)]
        /\ parse_toon (pre ++ post) = Ok [("value", VStr [])]).
Proof.
  split.
  - intros t _. apply scalar_document.
  - intros pre post Hpre Hpost. split; [|split; [|split]].
    + intros z. rewrite <- (parse_value_text_of_Z z).
      apply token_document; [assumption..|apply text_of_Z_plain_token].
    + intros [|];
        [exact (token_document pre "true" post Hpre Hpost eq_refl)
        |exact (token_document pre "false" post Hpre Hpost eq_refl)].
    + exact (token_document pre "null" post Hpre Hpost eq_refl).
    + assert (Estrip : strip (pre ++ post) = []).
      { rewrite <- (app_nil_l post) at 1.
        rewrite (strip_surrounded pre [] post Hpre Hpost). reflexivity. }
      rewrite scalar_document by (rewrite Estrip; trivial).
      rewrite <- parse_value_strip, Estrip. reflexivity.
Qed.

Lemma bare_text_is_a_scalar_witness :
  parse_toon "hello world" = Ok [("value", VStr "hello world")]
  /\ parse_toon " -42 " = Ok [("value", VInt (-42))].
Proof.
  split.
  - apply (proj1 bare_text_is_a_scalar "hello world"); [reflexivity|discriminate|reflexivity].
  - exact (proj1 (proj2 bare_text_is_a_scalar " " " " eq_refl eq_refl) (-42)%Z).
Defined.
